(** * HederaOps: the on-chain ledger contracts

    A shallow embedding of the four Solidity contracts of the repository
    (HederaOpsOrchestrator and HealthcareContract, which live at the end of
    [hedera/workflow.ts], and [contracts/Agriculture.sol],
    [contracts/Sustainability.sol]) together with the properties the
    specification states about them.

    Conventions.
    - [uint256] is carried by [N]; arithmetic is the checked arithmetic of
      Solidity 0.8 (a result outside [0, 2^256-1] reverts with Panic(0x11)).
      [int256] is carried by [Z].
    - [address] and [bytes32] are carried by [N]; the zero address is [0].
    - a [mapping] is a finite map read with a default: a key that was never
      written reads as the all-zero struct, as in Solidity.
    - a function is a [result]: [Ok] with the new state (and the returned
      value), or [Revert] with the reason; a reverted call leaves the state
      as it was, so [Revert] carries no state.
    - the modifiers and roles the contracts inherit from OpenZeppelin
      (AccessControl's [onlyRole], Pausable's [whenNotPaused]) are modelled
      by what they do: revert unless the caller holds the role, revert while
      paused. [nonReentrant] blocks the guarded functions while a guarded
      function runs, which matters where the contract hands over control:
      the two value transfers of the agriculture contract, whose recipient
      may call back into the unguarded functions (see [Agriculture.reentry]).
    - events are not part of the state and are left out. *)

From stdpp Require Import base option gmap strings list fin_maps.
From Stdlib Require Import ZArith NArith Lia.
From Equations Require Import Equations.

Open Scope string_scope.
Open Scope list_scope.
Open Scope N_scope.

(** ** The execution environment *)

Module Evm.

Abbreviation address := N (only parsing).
Abbreviation bytes32 := N (only parsing).
Abbreviation uint256 := N (only parsing).
Abbreviation int256 := Z (only parsing).

Definition MAX_UINT256 : N := 2 ^ 256 - 1.
Definition MIN_INT256 : Z := (- 2 ^ 255)%Z.
Definition MAX_INT256 : Z := (2 ^ 255 - 1)%Z.

Definition is_int256 (z : Z) : Prop := (MIN_INT256 <= z <= MAX_INT256)%Z.

(** The roles the contracts declare ([keccak256] of the role's name in the
    source; only their being distinct matters). *)
Inductive role :=
| DEFAULT_ADMIN_ROLE | ADMIN_ROLE | MODULE_ROLE | VERIFIER_ROLE | PROVIDER_ROLE.

#[global] Instance role_eq_dec : EqDecision role.
Proof. solve_decision. Defined.

Inductive error :=
| Error (reason : string)     (* Error(string): a failed [require(cond, reason)] *)
| Panic (code : N)            (* 0x11: arithmetic overflow or underflow *)
| MissingRole (r : role) (account : address)  (* AccessControl's onlyRole *)
| EnforcedPause               (* Pausable's whenNotPaused *)
| ExpectedPause.              (* Pausable's whenPaused *)

Inductive result (A : Type) :=
| Ok (a : A)
| Revert (e : error).
Arguments Ok {A} a.
Arguments Revert {A} e.

#[global] Instance result_bind : MBind result := λ A B f m,
  match m with
  | Ok a => f a
  | Revert e => Revert e
  end.

#[global] Instance result_ret : MRet result := λ A a, Ok a.

Definition require (cond : bool) (reason : string) : result unit :=
  if cond then Ok tt else Revert (Error reason).

Definition is_ok {A} (r : result A) : bool :=
  match r with Ok _ => true | Revert _ => false end.

(** The value of a run that is known to succeed ([d] otherwise). *)
Definition get_ok {A} (d : A) (r : result A) : A :=
  match r with Ok a => a | Revert _ => d end.

(** Checked arithmetic on [uint256]. *)
Definition ARITHMETIC : N := 17.   (* Panic code 0x11 *)

Definition checked_add (a b : N) : result N :=
  if a + b <=? MAX_UINT256 then Ok (a + b) else Revert (Panic ARITHMETIC).

Definition checked_sub (a b : N) : result N :=
  if b <=? a then Ok (a - b) else Revert (Panic ARITHMETIC).

Definition checked_mul (a b : N) : result N :=
  if a * b <=? MAX_UINT256 then Ok (a * b) else Revert (Panic ARITHMETIC).

(** Unary minus on [int256]: [-x] overflows at [type(int256).min]. *)
Definition checked_neg (x : Z) : result Z :=
  if (x =? MIN_INT256)%Z then Revert (Panic ARITHMETIC) else Ok (- x)%Z.

(** What goes into [abi.encodePacked] / [abi.encode] before hashing. *)
Inductive abi_item :=
| AAddress (a : address)
| AString (s : string)
| AUint (n : N)
| ABytes32 (b : bytes32)
| AStrings (l : list string).

(** AccessControl (OpenZeppelin): the role table and [onlyRole]. *)
Definition role_table := role → address → bool.

Definition no_roles : role_table := λ _ _, false.

Definition _grantRole (t : role_table) (r : role) (a : address) : role_table :=
  λ r' a', if decide (r' = r) then (if a' =? a then true else t r' a') else t r' a'.

Definition onlyRole (t : role_table) (r : role) (sender : address) : result unit :=
  if t r sender then Ok tt else Revert (MissingRole r sender).

(** A stand-in for [keccak256] for the executable examples, which need some
    concrete digest. The contracts take the hash as a parameter and every
    general theorem is stated for an arbitrary one. *)
Fixpoint string_code (s : string) : N :=
  match s with
  | EmptyString => 0
  | String c r => Ascii.N_of_ascii c + 1 + 257 * string_code r
  end.

Definition item_code (i : abi_item) : N :=
  match i with
  | AAddress a => a
  | AString s => string_code s
  | AUint n => n
  | ABytes32 b => b
  | AStrings l => fold_right (λ s acc, string_code s + 1 + 65537 * acc) 0 l
  end.

Definition digest (items : list abi_item) : bytes32 :=
  fold_left (λ acc i, ((acc * 1000003 + item_code i + 1) mod 2 ^ 256)) items 5381.

End Evm.

Import Evm.

(** ** HederaOpsOrchestrator ([hedera/workflow.ts]) *)

Module Orchestrator.

Inductive EntityType :=
| FARMER | PATIENT | BUYER | FACILITY | PRODUCT | ORGANIZATION | GOVERNMENT.

Inductive TransactionStatus :=
| PENDING | PROCESSING | COMPLETED | FAILED | CANCELLED.

#[global] Instance TransactionStatus_eq_dec : EqDecision TransactionStatus.
Proof. solve_decision. Defined.

Record Entity := {
  wallet : address;
  entityType : EntityType;
  activeModules : list string;
  reputationScore : uint256;
  verified : bool;
  created : uint256;
  totalTransactions : uint256
}.

Record CrossModuleTransaction := {
  txId : bytes32;
  initiator : address;
  involvedModules : list string;
  status : TransactionStatus;
  timestamp : uint256;
  value : uint256
}.

(** What an unwritten mapping slot reads as. *)
Definition Entity_zero : Entity :=
  {| wallet := 0; entityType := FARMER; activeModules := []; reputationScore := 0;
     verified := false; created := 0; totalTransactions := 0 |}.

Definition CrossModuleTransaction_zero : CrossModuleTransaction :=
  {| txId := 0; initiator := 0; involvedModules := []; status := PENDING;
     timestamp := 0; value := 0 |}.

Record state := {
  roles : role_table;
  paused : bool;
  entities : gmap N Entity;
  transactions : gmap N CrossModuleTransaction
}.

Definition entities_at (st : state) (a : address) : Entity :=
  default Entity_zero (entities st !! a).

Definition transactions_at (st : state) (id : bytes32) : CrossModuleTransaction :=
  default CrossModuleTransaction_zero (transactions st !! id).

Definition set_entity (st : state) (a : address) (e : Entity) : state :=
  {| roles := roles st; paused := paused st;
     entities := <[a := e]> (entities st); transactions := transactions st |}.

Definition set_transaction (st : state) (id : bytes32) (t : CrossModuleTransaction) : state :=
  {| roles := roles st; paused := paused st;
     entities := entities st; transactions := <[id := t]> (transactions st) |}.

Definition set_paused (st : state) (b : bool) : state :=
  {| roles := roles st; paused := b;
     entities := entities st; transactions := transactions st |}.

Definition set_roles (st : state) (t : role_table) : state :=
  {| roles := t; paused := paused st;
     entities := entities st; transactions := transactions st |}.

Definition with_reputationScore (e : Entity) (s : uint256) : Entity :=
  {| wallet := wallet e; entityType := entityType e; activeModules := activeModules e;
     reputationScore := s; verified := verified e; created := created e;
     totalTransactions := totalTransactions e |}.

Definition with_verified (e : Entity) (b : bool) : Entity :=
  {| wallet := wallet e; entityType := entityType e; activeModules := activeModules e;
     reputationScore := reputationScore e; verified := b; created := created e;
     totalTransactions := totalTransactions e |}.

Definition with_totalTransactions (e : Entity) (n : uint256) : Entity :=
  {| wallet := wallet e; entityType := entityType e; activeModules := activeModules e;
     reputationScore := reputationScore e; verified := verified e; created := created e;
     totalTransactions := n |}.

Definition with_status (t : CrossModuleTransaction) (s : TransactionStatus) : CrossModuleTransaction :=
  {| txId := txId t; initiator := initiator t; involvedModules := involvedModules t;
     status := s; timestamp := timestamp t; value := value t |}.

(** Pausable's modifier. *)
Definition whenNotPaused (st : state) : result unit :=
  if paused st then Revert EnforcedPause else Ok tt.

(** [constructor()]: the deployer gets both admin roles. *)
Definition constructor (deployer : address) : state :=
  {| roles := _grantRole (_grantRole no_roles DEFAULT_ADMIN_ROLE deployer) ADMIN_ROLE deployer;
     paused := false; entities := ∅; transactions := ∅ |}.

(** AccessControl's public [grantRole]: every role here is administered by
    DEFAULT_ADMIN_ROLE. *)
Definition grantRole (st : state) (sender : address) (r : role) (account : address) : result state :=
  onlyRole (roles st) DEFAULT_ADMIN_ROLE sender;;
  Ok (set_roles st (_grantRole (roles st) r account)).

Definition pause (st : state) (sender : address) : result state :=
  onlyRole (roles st) ADMIN_ROLE sender;;
  whenNotPaused st;;
  Ok (set_paused st true).

Definition unpause (st : state) (sender : address) : result state :=
  onlyRole (roles st) ADMIN_ROLE sender;;
  (if paused st then Ok tt else Revert ExpectedPause);;
  Ok (set_paused st false).

Definition registerEntity (st : state) (sender : address) (now : uint256)
    (_type : EntityType) (_modules : list string) : result (state * bool) :=
  whenNotPaused st;;
  require (wallet (entities_at st sender) =? 0) "Entity exists";;
  require (0 <? N.of_nat (length _modules)) "No modules specified";;
  Ok (set_entity st sender
        {| wallet := sender; entityType := _type; activeModules := _modules;
           reputationScore := 500; verified := false; created := now;
           totalTransactions := 0 |},
      true).

Definition verifyEntity (st : state) (sender : address) (_entity : address) : result state :=
  onlyRole (roles st) VERIFIER_ROLE sender;;
  require (negb (wallet (entities_at st _entity) =? 0)) "Entity not found";;
  require (negb (verified (entities_at st _entity))) "Already verified";;
  Ok (set_entity st _entity (with_verified (entities_at st _entity) true)).

Section WithHash.
Variable keccak256 : list abi_item → bytes32.

Definition createCrossModuleTransaction (st : state) (sender : address) (now : uint256)
    (_modules : list string) (_value : uint256) : result (state * bytes32) :=
  whenNotPaused st;;
  require (verified (entities_at st sender)) "Entity not verified";;
  require (0 <? N.of_nat (length _modules)) "No modules specified";;
  let id := keccak256 [AAddress sender; AUint now; AStrings _modules; AUint _value] in
  Ok (set_transaction st id
        {| txId := id; initiator := sender; involvedModules := _modules;
           status := PENDING; timestamp := now; value := _value |},
      id).

End WithHash.

Definition completeCrossModuleTransaction (st : state) (sender : address)
    (_txId : bytes32) : result (state * bool) :=
  onlyRole (roles st) MODULE_ROLE sender;;
  let txn := transactions_at st _txId in
  require (bool_decide (status txn = PROCESSING)) "Invalid status";;
  let st1 := set_transaction st _txId (with_status txn COMPLETED) in
  let ent := entities_at st1 (initiator txn) in
  n ← checked_add (totalTransactions ent) 1;
  Ok (set_entity st1 (initiator txn) (with_totalTransactions ent n), true).

Definition updateReputation (st : state) (sender : address)
    (_entity : address) (_change : int256) : result state :=
  onlyRole (roles st) MODULE_ROLE sender;;
  let entity := entities_at st _entity in
  require (negb (wallet entity =? 0)) "Entity not found";;
  if (0 <? _change)%Z then
    s ← checked_add (reputationScore entity) (Z.to_N _change);
    Ok (set_entity st _entity
          (with_reputationScore entity (if 1000 <? s then 1000 else s)))
  else
    neg ← checked_neg _change;
    let decrease := Z.to_N neg in
    if reputationScore entity <=? decrease then
      Ok (set_entity st _entity (with_reputationScore entity 0))
    else
      s ← checked_sub (reputationScore entity) decrease;
      Ok (set_entity st _entity (with_reputationScore entity s)).

(** The score [updateReputation] aims at: old + delta, clamped to [0, 1000]. *)
Definition clamp_reputation (old : uint256) (delta : int256) : uint256 :=
  Z.to_N (Z.max 0 (Z.min 1000 (Z.of_N old + delta))).

(** Registered means: the wallet field of the entry is set. *)
Definition registered (st : state) (a : address) : Prop :=
  wallet (entities_at st a) ≠ 0.

(** Every stored reputation score is at most 1000. *)
Definition reputation_bounded (st : state) : Prop :=
  ∀ a, reputationScore (entities_at st a) <= 1000.

(** *** Sequences of calls *)

(** The state-changing calls of the orchestrator. *)
Inductive call :=
| GrantRole (sender : address) (r : role) (account : address)
| Pause (sender : address)
| Unpause (sender : address)
| RegisterEntity (sender : address) (now : uint256) (_type : EntityType)
                 (_modules : list string)
| VerifyEntity (sender : address) (_entity : address)
| CreateCrossModuleTransaction (sender : address) (now : uint256) (_modules : list string)
                               (_value : uint256)
| CompleteCrossModuleTransaction (sender : address) (_txId : bytes32)
| UpdateReputation (sender : address) (_entity : address) (_change : int256).

Section Runs.
Variable keccak256 : list abi_item → bytes32.

(** One transaction: a call that reverts leaves the state as it was. *)
Definition step (st : state) (c : call) : state :=
  match c with
  | GrantRole sender r account => get_ok st (grantRole st sender r account)
  | Pause sender => get_ok st (pause st sender)
  | Unpause sender => get_ok st (unpause st sender)
  | RegisterEntity sender now _type _modules =>
      fst (get_ok (st, false) (registerEntity st sender now _type _modules))
  | VerifyEntity sender _entity => get_ok st (verifyEntity st sender _entity)
  | CreateCrossModuleTransaction sender now _modules _value =>
      fst (get_ok (st, 0) (createCrossModuleTransaction keccak256 st sender now _modules _value))
  | CompleteCrossModuleTransaction sender _txId =>
      fst (get_ok (st, false) (completeCrossModuleTransaction st sender _txId))
  | UpdateReputation sender _entity _change =>
      get_ok st (updateReputation st sender _entity _change)
  end.

Definition run (st : state) (calls : list call) : state := fold_left step calls st.

End Runs.

(** A small deployment used in the examples: account 1 deploys, grants
    MODULE_ROLE to account 9, and wallet 7 registers as a farmer. *)
Definition registry_run : result state :=
  st ← grantRole (constructor 1) 1 MODULE_ROLE 9;
  '(st, _) ← registerEntity st 7 1000 FARMER ["agriculture"];
  Ok st.

(** The same deployment, then paused by its admin. *)
Definition paused_run : result state :=
  st ← registry_run;
  pause st 1.

(** The deployment with wallet 7 verified by account 2 and one transaction
    created by wallet 7, which is Pending. *)
Definition pending_run : result (state * bytes32) :=
  st ← registry_run;
  st ← grantRole st 1 VERIFIER_ROLE 2;
  st ← verifyEntity st 2 7;
  createCrossModuleTransaction digest st 7 2000 ["agriculture"; "healthcare"] 10.

Definition pending_state : state := fst (get_ok (constructor 0, 0) pending_run).
Definition pending_tx : bytes32 := snd (get_ok (constructor 0, 0) pending_run).

(** A state, not reachable through the contract's own functions, in which
    transaction 77 of wallet 7 is Processing. *)
Definition processing_state : state :=
  {| roles := _grantRole no_roles MODULE_ROLE 9; paused := false;
     entities := {[ 7 := {| wallet := 7; entityType := FARMER;
                            activeModules := ["agriculture"]; reputationScore := 500;
                            verified := true; created := 1000; totalTransactions := 3 |} ]};
     transactions := {[ 77 := {| txId := 77; initiator := 7;
                                 involvedModules := ["agriculture"]; status := PROCESSING;
                                 timestamp := 1000; value := 10 |} ]} |}.

End Orchestrator.

(** ** AgricultureContract ([contracts/Agriculture.sol]) *)

Module Agriculture.

Module Harvest.
Record t := mk {
  harvestId : bytes32;
  farmer : address;
  cropType : string;
  quantity : uint256;
  qualityGrade : N;          (* uint8, 1-5 *)
  timestamp : uint256;
  verified : bool
}.
Definition zero : t := mk 0 0 "" 0 0 0 false.
End Harvest.

Module SalesContract.
Record t := mk {
  contractId : bytes32;
  farmer : address;
  buyer : address;
  harvestId : bytes32;
  quantity : uint256;
  pricePerUnit : uint256;
  totalAmount : uint256;
  escrowAmount : uint256;
  deliveryConfirmed : bool;
  qualityVerified : bool;
  completed : bool;
  createdAt : uint256
}.
Definition zero : t := mk 0 0 0 0 0 0 0 0 false false false 0.

Definition with_escrowAmount (c : t) (v : uint256) : t :=
  mk (contractId c) (farmer c) (buyer c) (harvestId c) (quantity c) (pricePerUnit c)
     (totalAmount c) v (deliveryConfirmed c) (qualityVerified c) (completed c) (createdAt c).

Definition with_confirmed (c : t) : t :=
  mk (contractId c) (farmer c) (buyer c) (harvestId c) (quantity c) (pricePerUnit c)
     (totalAmount c) (escrowAmount c) true true (completed c) (createdAt c).

Definition with_completed (c : t) (b : bool) : t :=
  mk (contractId c) (farmer c) (buyer c) (harvestId c) (quantity c) (pricePerUnit c)
     (totalAmount c) (escrowAmount c) (deliveryConfirmed c) (qualityVerified c) b (createdAt c).
End SalesContract.

Module CropInsurance.
Record t := mk {
  policyId : bytes32;
  farmer : address;
  cropType : string;
  insuredValue : uint256;
  premium : uint256;
  coveragePercentage : uint256;
  active : bool;
  startDate : uint256;
  endDate : uint256
}.
Definition zero : t := mk 0 0 "" 0 0 0 false 0 0.

Definition with_active (p : t) (b : bool) : t :=
  mk (policyId p) (farmer p) (cropType p) (insuredValue p) (premium p)
     (coveragePercentage p) b (startDate p) (endDate p).
End CropInsurance.

Record state := {
  roles : role_table;
  orchestrator : address;
  paymentToken : address;
  balance : uint256;                     (* address(this).balance *)
  harvests : gmap N Harvest.t;
  salesContracts : gmap N SalesContract.t;
  insurancePolicies : gmap N CropInsurance.t;
  farmerHarvests : gmap N (list bytes32)
}.

Definition harvests_at (st : state) (id : bytes32) : Harvest.t :=
  default Harvest.zero (harvests st !! id).

Definition salesContracts_at (st : state) (id : bytes32) : SalesContract.t :=
  default SalesContract.zero (salesContracts st !! id).

Definition insurancePolicies_at (st : state) (id : bytes32) : CropInsurance.t :=
  default CropInsurance.zero (insurancePolicies st !! id).

Definition farmerHarvests_at (st : state) (a : address) : list bytes32 :=
  default [] (farmerHarvests st !! a).

Definition set_roles (st : state) (t : role_table) : state :=
  {| roles := t; orchestrator := orchestrator st; paymentToken := paymentToken st;
     balance := balance st; harvests := harvests st; salesContracts := salesContracts st;
     insurancePolicies := insurancePolicies st; farmerHarvests := farmerHarvests st |}.

Definition set_balance (st : state) (b : uint256) : state :=
  {| roles := roles st; orchestrator := orchestrator st; paymentToken := paymentToken st;
     balance := b; harvests := harvests st; salesContracts := salesContracts st;
     insurancePolicies := insurancePolicies st; farmerHarvests := farmerHarvests st |}.

Definition set_harvest (st : state) (id : bytes32) (h : Harvest.t) : state :=
  {| roles := roles st; orchestrator := orchestrator st; paymentToken := paymentToken st;
     balance := balance st; harvests := <[id := h]> (harvests st);
     salesContracts := salesContracts st;
     insurancePolicies := insurancePolicies st; farmerHarvests := farmerHarvests st |}.

Definition push_farmerHarvest (st : state) (a : address) (id : bytes32) : state :=
  {| roles := roles st; orchestrator := orchestrator st; paymentToken := paymentToken st;
     balance := balance st; harvests := harvests st; salesContracts := salesContracts st;
     insurancePolicies := insurancePolicies st;
     farmerHarvests := <[a := farmerHarvests_at st a ++ [id]]> (farmerHarvests st) |}.

Definition set_salesContract (st : state) (id : bytes32) (c : SalesContract.t) : state :=
  {| roles := roles st; orchestrator := orchestrator st; paymentToken := paymentToken st;
     balance := balance st; harvests := harvests st;
     salesContracts := <[id := c]> (salesContracts st);
     insurancePolicies := insurancePolicies st; farmerHarvests := farmerHarvests st |}.

Definition set_insurancePolicy (st : state) (id : bytes32) (p : CropInsurance.t) : state :=
  {| roles := roles st; orchestrator := orchestrator st; paymentToken := paymentToken st;
     balance := balance st; harvests := harvests st; salesContracts := salesContracts st;
     insurancePolicies := <[id := p]> (insurancePolicies st);
     farmerHarvests := farmerHarvests st |}.

(** A payable function is entered with [msg.value] already credited to the
    contract. *)
Definition credit (st : state) (v : uint256) : state :=
  set_balance st (balance st + v).

Definition constructor (deployer _orchestrator _paymentToken : address) : state :=
  {| roles := _grantRole (_grantRole no_roles DEFAULT_ADMIN_ROLE deployer) ADMIN_ROLE deployer;
     orchestrator := _orchestrator; paymentToken := _paymentToken; balance := 0;
     harvests := ∅; salesContracts := ∅; insurancePolicies := ∅; farmerHarvests := ∅ |}.

Definition grantRole (st : state) (sender : address) (r : role) (account : address) : result state :=
  onlyRole (roles st) DEFAULT_ADMIN_ROLE sender;;
  Ok (set_roles st (_grantRole (roles st) r account)).

Definition DAY : N := 86400.   (* [1 days] *)

Section WithChain.
(** What the contract takes from the chain: the hash function. *)
Variable keccak256 : list abi_item → bytes32.

Definition recordHarvest (st : state) (sender : address) (now : uint256)
    (_cropType : string) (_quantity : uint256) (_qualityGrade : N) : result (state * bytes32) :=
  require (0 <? _quantity) "Invalid quantity";;
  require ((1 <=? _qualityGrade) && (_qualityGrade <=? 5)) "Invalid grade";;
  let harvestId := keccak256 [AAddress sender; AString _cropType; AUint _quantity; AUint now] in
  let st1 := set_harvest st harvestId
               (Harvest.mk harvestId sender _cropType _quantity _qualityGrade now false) in
  Ok (push_farmerHarvest st1 sender harvestId, harvestId).

Definition createSalesContract (st : state) (sender : address) (now : uint256)
    (_buyer : address) (_harvestId : bytes32) (_quantity _pricePerUnit : uint256)
    : result (state * bytes32) :=
  let harvest := harvests_at st _harvestId in
  require (Harvest.farmer harvest =? sender) "Not harvest owner";;
  require (_quantity <=? Harvest.quantity harvest) "Insufficient quantity";;
  require (negb (_buyer =? 0)) "Invalid buyer";;
  totalAmount ← checked_mul _quantity _pricePerUnit;
  let contractId := keccak256 [AAddress sender; AAddress _buyer; ABytes32 _harvestId; AUint now] in
  Ok (set_salesContract st contractId
        (SalesContract.mk contractId sender _buyer _harvestId _quantity _pricePerUnit
           totalAmount 0 false false false now),
      contractId).

Definition depositEscrow (st0 : state) (sender : address) (value : uint256)
    (_contractId : bytes32) : result state :=
  let st := credit st0 value in
  let contract_ := salesContracts_at st _contractId in
  require (SalesContract.buyer contract_ =? sender) "Not buyer";;
  require (negb (SalesContract.completed contract_)) "Already completed";;
  require (SalesContract.totalAmount contract_ <=? value) "Insufficient payment";;
  Ok (set_salesContract st _contractId (SalesContract.with_escrowAmount contract_ value)).

Definition confirmDeliveryAndQuality (st : state) (sender : address)
    (_contractId : bytes32) : result state :=
  onlyRole (roles st) VERIFIER_ROLE sender;;
  let contract_ := salesContracts_at st _contractId in
  require (negb (SalesContract.completed contract_)) "Already completed";;
  Ok (set_salesContract st _contractId (SalesContract.with_confirmed contract_)).

Definition createInsurancePolicy (st0 : state) (sender : address) (value now : uint256)
    (_cropType : string) (_insuredValue _coveragePercentage _durationDays : uint256)
    : result (state * bytes32) :=
  let st := credit st0 value in
  require (0 <? _insuredValue) "Invalid insured value";;
  require ((0 <? _coveragePercentage) && (_coveragePercentage <=? 100)) "Invalid coverage";;
  scaled ← checked_mul _insuredValue 4;
  let premium := scaled / 100 in
  require (premium <=? value) "Insufficient premium";;
  let policyId := keccak256 [AAddress sender; AString _cropType; AUint now] in
  duration ← checked_mul _durationDays DAY;
  endDate ← checked_add now duration;
  Ok (set_insurancePolicy st policyId
        (CropInsurance.mk policyId sender _cropType _insuredValue premium
           _coveragePercentage true now endDate),
      policyId).

(** *** Value transfers and re-entry

    [to.call{value: amount}("")] hands control to the account at [to]. While
    it runs, that account, or any contract it calls in turn, may call back
    into this contract in the same block. Both transfers are made from inside
    a function marked [nonReentrant], so the four guarded functions
    (createSalesContract, depositEscrow, processPayment,
    processInsurancePayout) revert when they are entered during a transfer,
    and such a revert changes nothing. The other state-changing functions are
    open to re-entry: recordHarvest, confirmDeliveryAndQuality, the payable
    createInsurancePolicy, and AccessControl's role administration
    ([ReRoleAdmin] stands for any change it makes to the role table). *)
Inductive reentry :=
| ReRoleAdmin (t : role_table)
| ReRecordHarvest (sender : address) (_cropType : string) (_quantity : uint256)
                  (_qualityGrade : N)
| ReConfirmDeliveryAndQuality (sender : address) (_contractId : bytes32)
| ReCreateInsurancePolicy (sender : address) (value : uint256) (_cropType : string)
                          (_insuredValue _coveragePercentage _durationDays : uint256).

(** One call made during a transfer, at the block's timestamp [now]; a call
    that reverts leaves the state as it was. *)
Definition reenter_step (now : uint256) (st : state) (c : reentry) : state :=
  match c with
  | ReRoleAdmin t => set_roles st t
  | ReRecordHarvest sender _cropType _quantity _qualityGrade =>
      fst (get_ok (st, 0) (recordHarvest st sender now _cropType _quantity _qualityGrade))
  | ReConfirmDeliveryAndQuality sender _contractId =>
      get_ok st (confirmDeliveryAndQuality st sender _contractId)
  | ReCreateInsurancePolicy sender value _cropType _insuredValue _coveragePercentage
                            _durationDays =>
      fst (get_ok (st, 0)
             (createInsurancePolicy st sender value now _cropType _insuredValue
                _coveragePercentage _durationDays))
  end.

Definition reenter (now : uint256) (st : state) (calls : list reentry) : state :=
  fold_left (reenter_step now) calls st.

(** What an account does when value is sent to it. It finds the contract as
    the transfer left it and either reverts ([None]: a contract without a
    payable receive function, or one that refuses), which undoes whatever it
    did, or makes calls back into the contract and returns ([Some calls]; an
    externally owned account makes none). *)
Definition account : Type := state → option (list reentry).

(** [to.call{value: amount}("")] made in state [st]: whether it succeeded and
    the state after it. *)
Definition call_value (accounts : address → account) (now : uint256) (st : state)
    (to : address) (amount : uint256) : bool * state :=
  if amount <=? balance st then
    let st1 := set_balance st (balance st - amount) in
    match accounts to st1 with
    | Some calls => (true, reenter now st1 calls)
    | None => (false, st)
    end
  else (false, st).

(** A re-entrant call that stores an insurance policy under [id], if it
    succeeds. *)
Definition reentry_creates_policy (now : uint256) (id : bytes32) (c : reentry) : Prop :=
  match c with
  | ReCreateInsurancePolicy sender _ _cropType _ _ _ =>
      keccak256 [AAddress sender; AString _cropType; AUint now] = id
  | _ => False
  end.

(** The part of [processPayment] up to and including the write of
    [completed]: the state in which the transfer is made, and the amount. *)
Definition processPayment_effects (st : state) (sender : address)
    (_contractId : bytes32) : result (state * uint256) :=
  let contract_ := salesContracts_at st _contractId in
  require ((sender =? SalesContract.buyer contract_) || roles st ADMIN_ROLE sender)
          "Unauthorized";;
  require (SalesContract.deliveryConfirmed contract_) "Delivery not confirmed";;
  require (SalesContract.qualityVerified contract_) "Quality not verified";;
  require (negb (SalesContract.completed contract_)) "Already completed";;
  require (0 <? SalesContract.escrowAmount contract_) "No escrow";;
  scaled ← checked_mul (SalesContract.escrowAmount contract_) 15;
  let platformFee := scaled / 10000 in
  farmerPayment ← checked_sub (SalesContract.escrowAmount contract_) platformFee;
  Ok (set_salesContract st _contractId (SalesContract.with_completed contract_ true),
      farmerPayment).

Definition processPayment (accounts : address → account) (st : state) (sender : address)
    (now : uint256) (_contractId : bytes32) : result (state * uint256) :=
  '(st1, farmerPayment) ← processPayment_effects st sender _contractId;
  let '(success, st2) :=
    call_value accounts now st1 (SalesContract.farmer (salesContracts_at st1 _contractId))
      farmerPayment in
  require success "Payment failed";;
  Ok (st2, farmerPayment).

(** The part of [processInsurancePayout] up to and including the write of
    [active]. *)
Definition processInsurancePayout_effects (st : state) (sender : address) (now : uint256)
    (_policyId : bytes32) (_payoutPercentage : uint256) : result (state * uint256) :=
  onlyRole (roles st) VERIFIER_ROLE sender;;
  let policy := insurancePolicies_at st _policyId in
  require (CropInsurance.active policy) "Policy not active";;
  require (now <=? CropInsurance.endDate policy) "Policy expired";;
  require (_payoutPercentage <=? 100) "Invalid payout";;
  covered ← checked_mul (CropInsurance.insuredValue policy) (CropInsurance.coveragePercentage policy);
  scaled ← checked_mul covered _payoutPercentage;
  let payoutAmount := scaled / 10000 in
  Ok (set_insurancePolicy st _policyId (CropInsurance.with_active policy false), payoutAmount).

Definition processInsurancePayout (accounts : address → account) (st : state)
    (sender : address) (now : uint256) (_policyId : bytes32) (_payoutPercentage : uint256)
    : result state :=
  '(st1, payoutAmount) ← processInsurancePayout_effects st sender now _policyId _payoutPercentage;
  let '(success, st2) :=
    call_value accounts now st1 (CropInsurance.farmer (insurancePolicies_at st1 _policyId))
      payoutAmount in
  require success "Payout failed";;
  Ok st2.

Definition getFarmerHarvests (st : state) (_farmer : address) : list bytes32 :=
  farmerHarvests_at st _farmer.

End WithChain.

(** Every account is externally owned: it accepts value and makes no call. *)
Definition plain_accounts : address → account := λ _ _, Some [].

(** Account 10 is a contract that, whenever it receives value, takes out the
    "coffee" policy (10000 at 80%, 90 days) with a 400 premium; every other
    account is externally owned. *)
Definition reinvesting_farmer : address → account :=
  λ a _, if a =? 10
         then Some [ReCreateInsurancePolicy 10 400 "coffee" 10000 80 90]
         else Some [].

(** The runs used in the examples. Account 1 deploys and makes account 2 a
    verifier; account 10 is the farmer, account 20 the buyer; every account
    is externally owned and [digest] stands for the hash. *)

(** The specification's insurance example: a 10000 policy with 80% coverage,
    bought for its 400 premium at time 1000 on a fresh contract. *)
Definition insured_run : result (state * bytes32) :=
  st ← grantRole (constructor 1 100 200) 1 VERIFIER_ROLE 2;
  createInsurancePolicy digest st 10 400 1000 "coffee" 10000 80 90.

(** A sale of 10 units at 100 with its escrow of 1000 deposited and the
    delivery confirmed, on a contract whose whole balance (the escrow and a
    400 premium) has since been paid out on the farmer's own insurance
    policy (10000 at 100% coverage, 14% loss: 1400). *)
Definition drained_run : result (state * bytes32) :=
  st ← grantRole (constructor 1 100 200) 1 VERIFIER_ROLE 2;
  '(st, h) ← recordHarvest digest st 10 1000 "coffee" 1300 5;
  '(st, c) ← createSalesContract digest st 10 1000 20 h 10 100;
  st ← depositEscrow st 20 1000 c;
  st ← confirmDeliveryAndQuality st 2 c;
  '(st, p) ← createInsurancePolicy digest st 10 400 1000 "coffee" 10000 100 30;
  st ← processInsurancePayout digest plain_accounts st 2 2000 p 14;
  Ok (st, c).

(** The same sale on a contract that still holds the escrow. *)
Definition funded_run : result (state * bytes32) :=
  st ← grantRole (constructor 1 100 200) 1 VERIFIER_ROLE 2;
  '(st, h) ← recordHarvest digest st 10 1000 "coffee" 1300 5;
  '(st, c) ← createSalesContract digest st 10 1000 20 h 10 100;
  st ← depositEscrow st 20 1000 c;
  st ← confirmDeliveryAndQuality st 2 c;
  Ok (st, c).

(** An insurance policy as in [insured_run], bought with 5000 instead of the
    400 premium, so that the contract can afford a payout. *)
Definition overpaid_run : result (state * bytes32) :=
  st ← grantRole (constructor 1 100 200) 1 VERIFIER_ROLE 2;
  createInsurancePolicy digest st 10 5000 1000 "coffee" 10000 80 90.

Definition overpaid_state : state := fst (get_ok (constructor 0 0 0, 0) overpaid_run).
Definition overpaid_policy : bytes32 := snd (get_ok (constructor 0 0 0, 0) overpaid_run).

(** A sale of 10 units at 100, just created. *)
Definition sale_run : result (state * bytes32) :=
  '(st, h) ← recordHarvest digest (constructor 1 100 200) 10 1000 "coffee" 1300 5;
  createSalesContract digest st 10 1000 20 h 10 100.

Definition sale_state : state := fst (get_ok (constructor 0 0 0, 0) sale_run).
Definition sale_contract : bytes32 := snd (get_ok (constructor 0 0 0, 0) sale_run).

Definition funded_state : state := fst (get_ok (constructor 0 0 0, 0) funded_run).
Definition funded_contract : bytes32 := snd (get_ok (constructor 0 0 0, 0) funded_run).

End Agriculture.

(** ** HealthcareContract ([hedera/workflow.ts]) *)

Module Healthcare.

Module HealthInsurance.
Record t := mk {
  policyId : bytes32;
  patient : address;
  planType : string;
  monthlyPremium : uint256;
  coverageLimit : uint256;
  autoDeduct : bool;
  paymentSource : address;
  active : bool;
  startDate : uint256
}.
Definition zero : t := mk 0 0 "" 0 0 false 0 false 0.
End HealthInsurance.

Module HealthcareVisit.
Record t := mk {
  visitId : bytes32;
  patient : address;
  facility : address;
  diagnosis : string;
  cost : uint256;
  insuranceCovered : uint256;
  patientPayment : uint256;
  timestamp : uint256
}.
Definition zero : t := mk 0 0 0 "" 0 0 0 0.
End HealthcareVisit.

Record state := {
  roles : role_table;
  orchestrator : address;
  insurancePolicies : gmap N HealthInsurance.t;
  patientInsurance : gmap N bytes32;
  visits : gmap N HealthcareVisit.t
}.

Definition insurancePolicies_at (st : state) (id : bytes32) : HealthInsurance.t :=
  default HealthInsurance.zero (insurancePolicies st !! id).

Definition patientInsurance_at (st : state) (a : address) : bytes32 :=
  default 0 (patientInsurance st !! a).

Definition visits_at (st : state) (id : bytes32) : HealthcareVisit.t :=
  default HealthcareVisit.zero (visits st !! id).

Definition constructor (deployer _orchestrator : address) : state :=
  {| roles := _grantRole (_grantRole no_roles DEFAULT_ADMIN_ROLE deployer) ADMIN_ROLE deployer;
     orchestrator := _orchestrator;
     insurancePolicies := ∅; patientInsurance := ∅; visits := ∅ |}.

Definition grantRole (st : state) (sender : address) (r : role) (account : address) : result state :=
  onlyRole (roles st) DEFAULT_ADMIN_ROLE sender;;
  Ok {| roles := _grantRole (roles st) r account; orchestrator := orchestrator st;
        insurancePolicies := insurancePolicies st; patientInsurance := patientInsurance st;
        visits := visits st |}.

Section WithHash.
Variable keccak256 : list abi_item → bytes32.

Definition createInsurancePolicy (st : state) (sender : address) (now : uint256)
    (_planType : string) (_monthlyPremium _coverageLimit : uint256) (_autoDeduct : bool)
    : result (state * bytes32) :=
  let policyId := keccak256 [AAddress sender; AString _planType; AUint now] in
  Ok ({| roles := roles st; orchestrator := orchestrator st;
         insurancePolicies :=
           <[policyId := HealthInsurance.mk policyId sender _planType _monthlyPremium
                           _coverageLimit _autoDeduct 0 true now]> (insurancePolicies st);
         patientInsurance := <[sender := policyId]> (patientInsurance st);
         visits := visits st |},
      policyId).

Definition deductPremium (st : state) (_patient : address) (_amount : uint256)
    : result (state * bool) :=
  let policyId := patientInsurance_at st _patient in
  let policy := insurancePolicies_at st policyId in
  require (HealthInsurance.active policy) "Policy not active";;
  require (HealthInsurance.autoDeduct policy) "Auto-deduct not enabled";;
  require (HealthInsurance.monthlyPremium policy <=? _amount) "Insufficient amount";;
  Ok (st, true).

(** The coverage split of [recordVisit]: (insuranceCovered, patientPayment). *)
Definition coverage_split (policy : HealthInsurance.t) (_cost : uint256)
    : result (uint256 * uint256) :=
  if HealthInsurance.active policy && (_cost <=? HealthInsurance.coverageLimit policy) then
    scaled ← checked_mul _cost 80;
    let insuranceCovered := scaled / 100 in
    patientPayment ← checked_sub _cost insuranceCovered;
    Ok (insuranceCovered, patientPayment)
  else Ok (0, _cost).

Definition recordVisit (st : state) (sender : address) (now : uint256)
    (_patient _facility : address) (_diagnosis : string) (_cost : uint256)
    : result (state * bytes32) :=
  onlyRole (roles st) PROVIDER_ROLE sender;;
  let visitId := keccak256 [AAddress _patient; AAddress _facility; AUint now] in
  let policyId := patientInsurance_at st _patient in
  let policy := insurancePolicies_at st policyId in
  '(insuranceCovered, patientPayment) ← coverage_split policy _cost;
  Ok ({| roles := roles st; orchestrator := orchestrator st;
         insurancePolicies := insurancePolicies st;
         patientInsurance := patientInsurance st;
         visits := <[visitId := HealthcareVisit.mk visitId _patient _facility _diagnosis
                                  _cost insuranceCovered patientPayment now]> (visits st) |},
      visitId).

End WithHash.

(** Account 1 deploys and makes account 3 a provider; patient 7 takes out a
    policy with a coverage limit of 50000000. *)
Definition insured_patient_run : result (state * bytes32) :=
  st ← grantRole (constructor 1 100) 1 PROVIDER_ROLE 3;
  createInsurancePolicy digest st 7 1000 "Basic Plan" 5000 50000000 true.

Definition insured_patient : state := fst (get_ok (constructor 0 0, 0) insured_patient_run).

End Healthcare.

(** ** SustainabilityContract ([contracts/Sustainability.sol]) *)

Module Sustainability.

Record CarbonCredit := {
  creditId : bytes32;
  entity : address;
  amount : uint256;
  vintage : uint256;
  projectType : string;
  verified : bool;
  retired : bool;
  timestamp : uint256
}.

Definition CarbonCredit_zero : CarbonCredit :=
  {| creditId := 0; entity := 0; amount := 0; vintage := 0; projectType := "";
     verified := false; retired := false; timestamp := 0 |}.

Definition with_retired (c : CarbonCredit) (b : bool) : CarbonCredit :=
  {| creditId := creditId c; entity := entity c; amount := amount c; vintage := vintage c;
     projectType := projectType c; verified := verified c; retired := b;
     timestamp := timestamp c |}.

Record state := {
  roles : role_table;
  carbonCreditNFT : address;
  carbonCredits : gmap N CarbonCredit;
  entityCarbonBalance : gmap N uint256
}.

Definition carbonCredits_at (st : state) (id : bytes32) : CarbonCredit :=
  default CarbonCredit_zero (carbonCredits st !! id).

Definition entityCarbonBalance_at (st : state) (a : address) : uint256 :=
  default 0 (entityCarbonBalance st !! a).

Definition constructor (deployer _carbonCreditNFT : address) : state :=
  {| roles := _grantRole (_grantRole no_roles DEFAULT_ADMIN_ROLE deployer) ADMIN_ROLE deployer;
     carbonCreditNFT := _carbonCreditNFT; carbonCredits := ∅; entityCarbonBalance := ∅ |}.

Definition grantRole (st : state) (sender : address) (r : role) (account : address) : result state :=
  onlyRole (roles st) DEFAULT_ADMIN_ROLE sender;;
  Ok {| roles := _grantRole (roles st) r account; carbonCreditNFT := carbonCreditNFT st;
        carbonCredits := carbonCredits st; entityCarbonBalance := entityCarbonBalance st |}.

Definition YEAR : N := 365 * 86400.   (* [365 days] *)

Section WithHash.
Variable keccak256 : list abi_item → bytes32.

Definition awardCarbonCredits (st : state) (sender : address) (now : uint256)
    (_entity : address) (_amount : uint256) (_projectType : string)
    : result (state * bytes32) :=
  onlyRole (roles st) VERIFIER_ROLE sender;;
  let id := keccak256 [AAddress _entity; AUint _amount; AUint now] in
  year ← checked_add (now / YEAR) 1970;
  let credit := {| creditId := id; entity := _entity; amount := _amount; vintage := year;
                   projectType := _projectType; verified := true; retired := false;
                   timestamp := now |} in
  newBalance ← checked_add (entityCarbonBalance_at st _entity) _amount;
  Ok ({| roles := roles st; carbonCreditNFT := carbonCreditNFT st;
         carbonCredits := <[id := credit]> (carbonCredits st);
         entityCarbonBalance := <[_entity := newBalance]> (entityCarbonBalance st) |},
      id).

End WithHash.

Definition retireCredits (st : state) (sender : address) (_creditId : bytes32) : result state :=
  let credit := carbonCredits_at st _creditId in
  require (entity credit =? sender) "Not credit owner";;
  require (negb (retired credit)) "Already retired";;
  newBalance ← checked_sub (entityCarbonBalance_at st sender) (amount credit);
  Ok {| roles := roles st; carbonCreditNFT := carbonCreditNFT st;
        carbonCredits := <[_creditId := with_retired credit true]> (carbonCredits st);
        entityCarbonBalance := <[sender := newBalance]> (entityCarbonBalance st) |}.

(** *** Sequences of calls and the credit sum *)

(** What credit [c] contributes to entity [e]'s outstanding credits: its
    amount if [e] owns it and it is not retired. *)
Definition outstanding (e : address) (c : CarbonCredit) : uint256 :=
  if (entity c =? e) && negb (retired c) then amount c else 0.

(** The sum of the amounts of the stored credits that [e] owns and that are
    not retired. *)
Definition credit_sum (e : address) (m : gmap N CarbonCredit) : N :=
  map_fold (λ _ c acc, outstanding e c + acc) 0 m.

Definition unretired_sum (st : state) (e : address) : N :=
  credit_sum e (carbonCredits st).

(** The state-changing calls of the contract. *)
Inductive call :=
| Grant (sender : address) (r : role) (account : address)
| Award (sender : address) (now : uint256) (_entity : address) (_amount : uint256)
        (_projectType : string)
| Retire (sender : address) (_creditId : bytes32).

Section Runs.
Variable keccak256 : list abi_item → bytes32.

(** One transaction: a call that reverts leaves the state as it was. *)
Definition step (st : state) (c : call) : state :=
  match c with
  | Grant sender r account => get_ok st (grantRole st sender r account)
  | Award sender now _entity _amount _projectType =>
      fst (get_ok (st, 0)
             (awardCarbonCredits keccak256 st sender now _entity _amount _projectType))
  | Retire sender _creditId => get_ok st (retireCredits st sender _creditId)
  end.

Definition run (st : state) (calls : list call) : state := fold_left step calls st.

(** No award of the sequence is given an identifier that is already in use. *)
Fixpoint fresh_awards (st : state) (calls : list call) : Prop :=
  match calls with
  | [] => True
  | c :: rest =>
      match c with
      | Award _ now _entity _amount _ =>
          carbonCredits st !! keccak256 [AAddress _entity; AUint _amount; AUint now] = None
      | _ => True
      end ∧ fresh_awards (step st c) rest
  end.

End Runs.

(** Every entity's balance covers its outstanding credits. *)
Definition balance_covers (st : state) : Prop :=
  ∀ e, unretired_sum st e <= entityCarbonBalance_at st e.

(** Every entity's balance is exactly the sum of its outstanding credits. *)
Definition balance_exact (st : state) : Prop :=
  ∀ e, entityCarbonBalance_at st e = unretired_sum st e.

(** Account 1 deploys and makes account 2 a verifier, who awards 100 tons to
    entity 7 twice within the same second. *)
Definition double_award : list call :=
  [Grant 1 VERIFIER_ROLE 2; Award 2 1000 7 100 "organic"; Award 2 1000 7 100 "organic"].

(** Two awards to entity 7 at different times. *)
Definition two_awards : list call :=
  [Grant 1 VERIFIER_ROLE 2; Award 2 1000 7 100 "organic"; Award 2 2000 7 50 "forest"].

(** One award of 1000 tons to entity 7. *)
Definition verifier_state : state :=
  get_ok (constructor 0 0) (grantRole (constructor 1 300) 1 VERIFIER_ROLE 2).

Definition awarded_run : result (state * bytes32) :=
  awardCarbonCredits digest verifier_state 2 1000 7 1000 "organic".

Definition awarded_state : state := fst (get_ok (constructor 0 0, 0) awarded_run).
Definition awarded_credit : bytes32 := snd (get_ok (constructor 0 0, 0) awarded_run).

End Sustainability.

(** ** The rest of the orchestrator: module addresses, views, call sequences *)

Module OrchestratorAdmin.
Import Orchestrator.

(** The whole contract: the registry and coordinator state of
    [Orchestrator.state] together with the four module addresses. *)
Record contract := {
  registry : Orchestrator.state;
  healthcareModule : address;
  agricultureModule : address;
  supplyChainModule : address;
  sustainabilityModule : address
}.

Definition deploy (deployer : address) : contract :=
  {| registry := constructor deployer; healthcareModule := 0; agricultureModule := 0;
     supplyChainModule := 0; sustainabilityModule := 0 |}.

Definition with_registry (c : contract) (r : Orchestrator.state) : contract :=
  {| registry := r; healthcareModule := healthcareModule c;
     agricultureModule := agricultureModule c; supplyChainModule := supplyChainModule c;
     sustainabilityModule := sustainabilityModule c |}.

Definition getEntity (st : Orchestrator.state) (_wallet : address) : Entity :=
  entities_at st _wallet.

Definition getTransaction (st : Orchestrator.state) (_txId : bytes32) : CrossModuleTransaction :=
  transactions_at st _txId.

Section WithHash.
Variable keccak256 : list abi_item → bytes32.

Definition setModuleAddress (c : contract) (sender : address)
    (_moduleName : string) (_moduleAddress : address) : result contract :=
  onlyRole (roles (registry c)) ADMIN_ROLE sender;;
  require (negb (_moduleAddress =? 0)) "Invalid address";;
  let moduleHash := keccak256 [AString _moduleName] in
  c1 ← (if moduleHash =? keccak256 [AString "healthcare"] then
          Ok {| registry := registry c; healthcareModule := _moduleAddress;
                agricultureModule := agricultureModule c;
                supplyChainModule := supplyChainModule c;
                sustainabilityModule := sustainabilityModule c |}
        else if moduleHash =? keccak256 [AString "agriculture"] then
          Ok {| registry := registry c; healthcareModule := healthcareModule c;
                agricultureModule := _moduleAddress;
                supplyChainModule := supplyChainModule c;
                sustainabilityModule := sustainabilityModule c |}
        else if moduleHash =? keccak256 [AString "supply_chain"] then
          Ok {| registry := registry c; healthcareModule := healthcareModule c;
                agricultureModule := agricultureModule c;
                supplyChainModule := _moduleAddress;
                sustainabilityModule := sustainabilityModule c |}
        else if moduleHash =? keccak256 [AString "sustainability"] then
          Ok {| registry := registry c; healthcareModule := healthcareModule c;
                agricultureModule := agricultureModule c;
                supplyChainModule := supplyChainModule c;
                sustainabilityModule := _moduleAddress |}
        else Revert (Error "Unknown module"));
  Ok (with_registry c1
        (set_roles (registry c1) (_grantRole (roles (registry c1)) MODULE_ROLE _moduleAddress))).

(** Every state-changing call of the deployed contract. The role
    administration that AccessControl adds (grantRole, revokeRole,
    renounceRole) touches the role table only; [RoleAdmin] stands for any
    change of it. *)
Inductive call :=
| Core (c : Orchestrator.call)
| SetModuleAddress (sender : address) (_moduleName : string) (_moduleAddress : address)
| RoleAdmin (t : role_table).

Definition step (c : contract) (x : call) : contract :=
  match x with
  | Core k => with_registry c (Orchestrator.step keccak256 (registry c) k)
  | SetModuleAddress sender _moduleName _moduleAddress =>
      get_ok c (setModuleAddress c sender _moduleName _moduleAddress)
  | RoleAdmin t => with_registry c (set_roles (registry c) t)
  end.

Definition run (c : contract) (calls : list call) : contract := fold_left step calls c.

End WithHash.

(** What a result looks like when the same call is made with the paused flag
    forced to [b]. *)
Definition under_pause (b : bool) (r : result Orchestrator.state) : result Orchestrator.state :=
  st ← r; Ok (set_paused st b).

(** What one transaction can do to the registry and the transactions: leave
    both alone, or make exactly one of five writes. *)
Inductive effect (st : Orchestrator.state) : Orchestrator.state → Prop :=
| effect_none st' :
    entities st' = entities st → transactions st' = transactions st → effect st st'
| effect_register a e :
    wallet (entities_at st a) = 0 → wallet e = a → totalTransactions e = 0 →
    effect st (set_entity st a e)
| effect_verify a :
    wallet (entities_at st a) ≠ 0 →
    effect st (set_entity st a (with_verified (entities_at st a) true))
| effect_reputation a s :
    wallet (entities_at st a) ≠ 0 →
    effect st (set_entity st a (with_reputationScore (entities_at st a) s))
| effect_create id t :
    status t = PENDING → effect st (set_transaction st id t)
| effect_complete id n :
    status (transactions_at st id) = PROCESSING →
    effect st (set_entity (set_transaction st id (with_status (transactions_at st id) COMPLETED))
                 (initiator (transactions_at st id))
                 (with_totalTransactions (entities_at st (initiator (transactions_at st id))) n)).

(** The four module names hash to four different values (as they do under
    keccak256). *)
Definition distinct_module_names (keccak256 : list abi_item → bytes32) : Prop :=
  NoDup [keccak256 [AString "healthcare"]; keccak256 [AString "agriculture"];
         keccak256 [AString "supply_chain"]; keccak256 [AString "sustainability"]].

(** No transaction has left Pending and no completion was ever counted. *)
Definition nothing_completed (st : Orchestrator.state) : Prop :=
  (∀ id, status (transactions_at st id) = PENDING) ∧
  (∀ a, totalTransactions (entities_at st a) = 0).

(** Every stored entity sits under its own wallet address. *)
Definition keyed_by_wallet (st : Orchestrator.state) : Prop :=
  ∀ a e, entities st !! a = Some e → wallet e = a.

(** The deployment of [registry_run] with account 2 made a verifier. *)
Definition verifier_registry : Orchestrator.state :=
  get_ok (constructor 0) (st ← registry_run; grantRole st 1 VERIFIER_ROLE 2).

(** The same with wallet 7 verified by account 2. *)
Definition verified_registry : Orchestrator.state :=
  get_ok (constructor 0) (verifyEntity verifier_registry 2 7).

End OrchestratorAdmin.

(** ** Call sequences of the agriculture contract *)

Module AgricultureRuns.
Import Agriculture.

Inductive call :=
| RoleAdmin (t : role_table)
| RecordHarvest (sender : address) (now : uint256) (_cropType : string)
                (_quantity : uint256) (_qualityGrade : N)
| CreateSalesContract (sender : address) (now : uint256) (_buyer : address)
                      (_harvestId : bytes32) (_quantity _pricePerUnit : uint256)
| DepositEscrow (sender : address) (value : uint256) (_contractId : bytes32)
| ConfirmDeliveryAndQuality (sender : address) (_contractId : bytes32)
| ProcessPayment (sender : address) (now : uint256) (_contractId : bytes32)
                 (accounts : address → account)
| CreateInsurancePolicy (sender : address) (value now : uint256) (_cropType : string)
                        (_insuredValue _coveragePercentage _durationDays : uint256)
| ProcessInsurancePayout (sender : address) (now : uint256) (_policyId : bytes32)
                         (_payoutPercentage : uint256) (accounts : address → account).

Section Runs.
Variable keccak256 : list abi_item → bytes32.

(** One transaction: a call that reverts leaves the state as it was.
    [RoleAdmin] stands for any change AccessControl's role administration
    makes to the role table. A transaction that makes a transfer comes with
    what the accounts do on receiving value in it. *)
Definition step (st : state) (c : call) : state :=
  match c with
  | RoleAdmin t => set_roles st t
  | RecordHarvest sender now _cropType _quantity _qualityGrade =>
      fst (get_ok (st, 0) (recordHarvest keccak256 st sender now _cropType _quantity _qualityGrade))
  | CreateSalesContract sender now _buyer _harvestId _quantity _pricePerUnit =>
      fst (get_ok (st, 0)
             (createSalesContract keccak256 st sender now _buyer _harvestId _quantity
                _pricePerUnit))
  | DepositEscrow sender value _contractId =>
      get_ok st (depositEscrow st sender value _contractId)
  | ConfirmDeliveryAndQuality sender _contractId =>
      get_ok st (confirmDeliveryAndQuality st sender _contractId)
  | ProcessPayment sender now _contractId accounts =>
      fst (get_ok (st, 0) (processPayment keccak256 accounts st sender now _contractId))
  | CreateInsurancePolicy sender value now _cropType _insuredValue _coveragePercentage
                          _durationDays =>
      fst (get_ok (st, 0)
             (createInsurancePolicy keccak256 st sender value now _cropType _insuredValue
                _coveragePercentage _durationDays))
  | ProcessInsurancePayout sender now _policyId _payoutPercentage accounts =>
      get_ok st (processInsurancePayout keccak256 accounts st sender now _policyId
                   _payoutPercentage)
  end.

Definition run (st : state) (calls : list call) : state := fold_left step calls st.

(** A transaction that stores a sales contract under [id], if it succeeds.
    createSalesContract is guarded, so no transfer can re-enter it. *)
Definition creates_sale (id : bytes32) (c : call) : Prop :=
  match c with
  | CreateSalesContract sender now _buyer _harvestId _ _ =>
      keccak256 [AAddress sender; AAddress _buyer; ABytes32 _harvestId; AUint now] = id
  | _ => False
  end.

(** A transaction that may store an insurance policy under [id]: a call of
    createInsurancePolicy that hashes to [id], or a transfer during which
    some account makes such a call. *)
Definition creates_policy (id : bytes32) (c : call) : Prop :=
  match c with
  | CreateInsurancePolicy sender _ now _cropType _ _ _ =>
      keccak256 [AAddress sender; AString _cropType; AUint now] = id
  | ProcessPayment _ now _ accounts | ProcessInsurancePayout _ now _ _ accounts =>
      ∃ a s calls, accounts a s = Some calls ∧
        Exists (reentry_creates_policy keccak256 now id) calls
  | _ => False
  end.

End Runs.

(** A call made during a transfer at [now], as a transaction of its own. *)
Definition as_call (now : uint256) (c : reentry) : call :=
  match c with
  | ReRoleAdmin t => RoleAdmin t
  | ReRecordHarvest sender _cropType _quantity _qualityGrade =>
      RecordHarvest sender now _cropType _quantity _qualityGrade
  | ReConfirmDeliveryAndQuality sender _contractId =>
      ConfirmDeliveryAndQuality sender _contractId
  | ReCreateInsurancePolicy sender value _cropType _insuredValue _coveragePercentage
                            _durationDays =>
      CreateInsurancePolicy sender value now _cropType _insuredValue _coveragePercentage
        _durationDays
  end.

(** What every stored harvest looks like. *)
Definition harvest_ok (id : bytes32) (h : Harvest.t) : Prop :=
  Harvest.harvestId h = id ∧ 0 < Harvest.quantity h ∧
  1 <= Harvest.qualityGrade h <= 5 ∧ Harvest.verified h = false.

(** What every stored sales contract looks like. *)
Definition salesContract_ok (c : SalesContract.t) : Prop :=
  SalesContract.totalAmount c = SalesContract.quantity c * SalesContract.pricePerUnit c ∧
  (SalesContract.escrowAmount c = 0
   ∨ SalesContract.totalAmount c <= SalesContract.escrowAmount c) ∧
  SalesContract.deliveryConfirmed c = SalesContract.qualityVerified c ∧
  (SalesContract.completed c = true →
     SalesContract.deliveryConfirmed c = true ∧ 0 < SalesContract.escrowAmount c).

(** What every stored insurance policy looks like. *)
Definition policy_ok (id : bytes32) (p : CropInsurance.t) : Prop :=
  CropInsurance.policyId p = id ∧ 0 < CropInsurance.insuredValue p ∧
  0 < CropInsurance.coveragePercentage p <= 100 ∧
  CropInsurance.premium p = CropInsurance.insuredValue p * 4 / 100 ∧
  CropInsurance.insuredValue p * 4 <= MAX_UINT256 ∧
  CropInsurance.startDate p <= CropInsurance.endDate p.

Definition records_ok (st : state) : Prop :=
  (∀ id h, harvests st !! id = Some h → harvest_ok id h) ∧
  (∀ id c, salesContracts st !! id = Some c → salesContract_ok c) ∧
  (∀ id p, insurancePolicies st !! id = Some p → policy_ok id p).

(** A verifier (account 2) confirms delivery, the buyer (account 20) funds
    the sale and pays the farmer, and a harvest is recorded and insured. *)
Definition busy_day : list call :=
  [RoleAdmin (_grantRole no_roles VERIFIER_ROLE 2);
   RecordHarvest 10 1000 "coffee" 1300 5;
   CreateSalesContract 10 1000 20
     (digest [AAddress 10; AString "coffee"; AUint 1300; AUint 1000]) 10 100;
   ConfirmDeliveryAndQuality 2
     (digest [AAddress 10; AAddress 20;
              ABytes32 (digest [AAddress 10; AString "coffee"; AUint 1300; AUint 1000]);
              AUint 1000]);
   DepositEscrow 20 1000
     (digest [AAddress 10; AAddress 20;
              ABytes32 (digest [AAddress 10; AString "coffee"; AUint 1300; AUint 1000]);
              AUint 1000]);
   CreateInsurancePolicy 10 5000 1000 "coffee" 10000 80 90;
   ProcessPayment 20 1500
     (digest [AAddress 10; AAddress 20;
              ABytes32 (digest [AAddress 10; AString "coffee"; AUint 1300; AUint 1000]);
              AUint 1000])
     plain_accounts].

(** Farmer 10 records a harvest of 1300 units on a contract whose verifier
    is account 2. *)
Definition harvest_run : result (state * bytes32) :=
  st ← grantRole (constructor 1 100 200) 1 VERIFIER_ROLE 2;
  recordHarvest digest st 10 1000 "coffee" 1300 5.

Definition harvest_state : state := fst (get_ok (constructor 0 0 0, 0) harvest_run).
Definition harvest_id : bytes32 := snd (get_ok (constructor 0 0 0, 0) harvest_run).

(** A sale of 10 units of that harvest to buyer 20, with no escrow deposited. *)
Definition unfunded_run : result (state * bytes32) :=
  createSalesContract digest harvest_state 10 1000 20 harvest_id 10 100.

Definition unfunded_state : state := fst (get_ok (constructor 0 0 0, 0) unfunded_run).
Definition unfunded_contract : bytes32 := snd (get_ok (constructor 0 0 0, 0) unfunded_run).

End AgricultureRuns.

(** ** Call sequences of the healthcare contract *)

Module HealthcareRuns.
Import Healthcare.

Inductive call :=
| RoleAdmin (t : role_table)
| CreateInsurancePolicy (sender : address) (now : uint256) (_planType : string)
                        (_monthlyPremium _coverageLimit : uint256) (_autoDeduct : bool)
| DeductPremium (_patient : address) (_amount : uint256)
| RecordVisit (sender : address) (now : uint256) (_patient _facility : address)
              (_diagnosis : string) (_cost : uint256).

Section Runs.
Variable keccak256 : list abi_item → bytes32.

Definition set_roles (st : state) (t : role_table) : state :=
  {| roles := t; orchestrator := orchestrator st;
     insurancePolicies := insurancePolicies st; patientInsurance := patientInsurance st;
     visits := visits st |}.

Definition step (st : state) (c : call) : state :=
  match c with
  | RoleAdmin t => set_roles st t
  | CreateInsurancePolicy sender now _planType _monthlyPremium _coverageLimit _autoDeduct =>
      fst (get_ok (st, 0)
             (createInsurancePolicy keccak256 st sender now _planType _monthlyPremium
                _coverageLimit _autoDeduct))
  | DeductPremium _patient _amount =>
      fst (get_ok (st, false) (deductPremium st _patient _amount))
  | RecordVisit sender now _patient _facility _diagnosis _cost =>
      fst (get_ok (st, 0)
             (recordVisit keccak256 st sender now _patient _facility _diagnosis _cost))
  end.

Definition run (st : state) (calls : list call) : state := fold_left step calls st.

End Runs.

(** Every patient's current policy is stored, belongs to the patient and is
    active. *)
Definition current_policies_active (st : state) : Prop :=
  ∀ p id, patientInsurance st !! p = Some id →
    HealthInsurance.active (insurancePolicies_at st id) = true.

(** Every stored visit splits its cost between insurer and patient. *)
Definition visits_balanced (st : state) : Prop :=
  ∀ id v, visits st !! id = Some v →
    HealthcareVisit.insuranceCovered v + HealthcareVisit.patientPayment v
      = HealthcareVisit.cost v ∧
    HealthcareVisit.insuranceCovered v * 100 <= HealthcareVisit.cost v * 80.

(** Account 3 becomes a provider, patient 7 takes out a policy, is treated
    for 1000 at facility 30 and has a premium deducted. *)
Definition clinic_day : list call :=
  [RoleAdmin (_grantRole no_roles PROVIDER_ROLE 3);
   CreateInsurancePolicy 7 1000 "Basic Plan" 5000 50000000 true;
   RecordVisit 3 2000 7 30 "flu" 1000;
   DeductPremium 7 5000].

End HealthcareRuns.

(** ** HederaFileService ([hedera/src/file-service.ts]) *)

Module FileService.
#[local] Open Scope nat_scope.

Definition bytes := list Byte.byte.

Definition MAX_CHUNK_SIZE : nat := 4096.

(** [Math.min(this.MAX_CHUNK_SIZE, data.length - offset)] *)
Definition chunkSize_at (data : bytes) (offset : nat) : nat :=
  Nat.min MAX_CHUNK_SIZE (length data - offset).

Lemma chunkSize_at_progress data offset :
  offset < length data →
  length data - (offset + chunkSize_at data offset) < length data - offset.
Proof. unfold chunkSize_at, MAX_CHUNK_SIZE. lia. Qed.

#[local] Opaque chunkSize_at.

(** The loop of [splitIntoChunks], entered with the current [offset] and the
    chunks pushed so far. *)
Equations splitIntoChunks_from (data : bytes) (offset : nat) (chunks : list bytes)
    : list bytes by wf (length data - offset) lt :=
  splitIntoChunks_from data offset chunks with decide (offset < length data) := {
    | left Hlt =>
        splitIntoChunks_from data (offset + chunkSize_at data offset)
          (chunks ++ [take (chunkSize_at data offset) (drop offset data)])
    | right _ => chunks
  }.
Next Obligation. apply chunkSize_at_progress. assumption. Qed.

Definition splitIntoChunks (data : bytes) : list bytes := splitIntoChunks_from data 0 [].

(** The transactions the service submits. *)
Inductive transaction :=
| FileCreate (contents : bytes)
| FileAppend (contents : bytes).

(** [appendToFile]: one append per chunk of the contents. *)
Definition appendToFile (contents : bytes) : list transaction :=
  FileAppend <$> splitIntoChunks contents.

(** [createFile]: create with the first chunk, then append each further
    chunk through [appendToFile]. Empty contents give no chunk, [chunks[0]]
    is then [undefined], and [setContents(undefined)] throws before the
    create is executed: nothing is submitted ([None]). *)
Definition createFile (contents : bytes) : option (list transaction) :=
  let chunks := splitIntoChunks contents in
  first ← chunks !! 0;
  Some (FileCreate first :: concat (appendToFile <$> drop 1 chunks)).

(** What the file holds after the transactions: a create sets the contents,
    an append extends them ([None]: no file yet). *)
Definition stored (txs : list transaction) : option bytes :=
  fold_left (λ file tx,
               match tx with
               | FileCreate c => Some c
               | FileAppend c => (λ old, old ++ c) <$> file
               end) txs None.

Definition payload (tx : transaction) : nat :=
  match tx with
  | FileCreate c => length c
  | FileAppend c => length c
  end.

End FileService.

(** ** retryOperation ([hedera/src/smart-contract-service.ts]) *)

Module Retry.

(** What an operation throws: the two properties the helper inspects. *)
Record error := {
  message : option string;
  code : option Z
}.

Inductive outcome (T : Type) :=
| Resolved (v : T)
| Rejected (e : error).
Arguments Resolved {T} v.
Arguments Rejected {T} e.

(** [s.includes(sub)] *)
Definition includes (s sub : string) : bool :=
  match String.index 0 sub s with Some _ => true | None => false end.

Definition isRetryable (e : error) : bool :=
  default false ((λ m, includes m "UNKNOWN") <$> message e)
  || default false ((λ m, includes m "UNAVAILABLE") <$> message e)
  || default false ((λ m, includes m "DEADLINE_EXCEEDED") <$> message e)
  || bool_decide (code e = Some 2%Z)
  || bool_decide (code e = Some 14%Z).

(** How a call of the helper ends, and how often it invoked the operation.
    [Thrown None] is [throw lastError] with nothing caught. *)
Inductive ending (T : Type) :=
| Returned (v : T) (invocations : nat)
| Thrown (e : option error) (invocations : nat).
Arguments Returned {T} v invocations.
Arguments Thrown {T} e invocations.

Section Loop.
Context {T : Type}.
(** [operation k] is what the [k]-th invocation of the operation does. *)
Variable operation : nat → outcome T.
Variable maxRetries : nat.

(** The [for] loop at [attempt], with [remaining] iterations to go. The waits
    between attempts do not enter the result and are left out. *)
Fixpoint attempts (remaining attempt : nat) (lastError : option error) : ending T :=
  match remaining with
  | O => Thrown lastError (attempt - 1)
  | S rest =>
      match operation attempt with
      | Resolved v => Returned v attempt
      | Rejected e =>
          if negb (isRetryable e) || (attempt =? maxRetries)%nat
          then Thrown (Some e) attempt
          else attempts rest (S attempt) (Some e)
      end
  end.

Definition retryOperation : ending T := attempts maxRetries 1%nat None.

(** Every invocation from [from] up to, not including, [k] fails with a
    retryable error. *)
Definition retried (from k : nat) : Prop :=
  ∀ j, (from <= j < k)%nat → ∃ e, operation j = Rejected e ∧ isRetryable e = true.

Definition invocations (r : ending T) : nat :=
  match r with Returned _ n => n | Thrown _ n => n end.

End Loop.

(** A node that is unreachable for the first two invocations. *)
Definition unavailable : error :=
  {| message := Some "14 UNAVAILABLE: failed to connect"; code := Some 14%Z |}.

Definition flaky (k : nat) : outcome nat :=
  if (k <? 3)%nat then Rejected unavailable else Resolved k.

End Retry.

(** * Properties *)

(** ** Shared lemmas on the execution environment *)

Module EvmFacts.

Lemma onlyRole_has t r a : t r a = true → onlyRole t r a = Ok tt.
Proof. unfold onlyRole. intros ->. reflexivity. Qed.

Lemma checked_add_fits a b : a + b <= MAX_UINT256 → checked_add a b = Ok (a + b).
Proof. unfold checked_add. intros H. apply N.leb_le in H. rewrite H. reflexivity. Qed.

Lemma checked_add_Ok a b c : checked_add a b = Ok c → c = a + b ∧ a + b <= MAX_UINT256.
Proof.
  unfold checked_add. destruct (a + b <=? MAX_UINT256) eqn:E; [|discriminate].
  intros [= <-]. apply N.leb_le in E. done.
Qed.

Lemma checked_sub_fits a b : b <= a → checked_sub a b = Ok (a - b).
Proof. unfold checked_sub. intros H. apply N.leb_le in H. rewrite H. reflexivity. Qed.

Lemma checked_mul_fits a b : a * b <= MAX_UINT256 → checked_mul a b = Ok (a * b).
Proof. unfold checked_mul. intros H. apply N.leb_le in H. rewrite H. reflexivity. Qed.

Lemma checked_mul_Ok a b c : checked_mul a b = Ok c → c = a * b ∧ a * b <= MAX_UINT256.
Proof.
  unfold checked_mul. destruct (a * b <=? MAX_UINT256) eqn:E; [|discriminate].
  intros [= <-]. apply N.leb_le in E. done.
Qed.

Lemma checked_neg_other x : x ≠ MIN_INT256 → checked_neg x = Ok (- x)%Z.
Proof. unfold checked_neg. intros H. apply Z.eqb_neq in H. rewrite H. reflexivity. Qed.

End EvmFacts.

Import EvmFacts.

(** ** The orchestrator: registry and transaction coordinator *)

Module OrchestratorFacts.
Import Orchestrator.

Lemma entities_at_set_eq st a e : entities_at (set_entity st a e) a = e.
Proof. unfold entities_at, set_entity. simpl. rewrite lookup_insert_eq. reflexivity. Qed.

Lemma entities_at_set_ne st a b e :
  a ≠ b → entities_at (set_entity st a e) b = entities_at st b.
Proof.
  intros H. unfold entities_at, set_entity. simpl.
  rewrite lookup_insert_ne by done. reflexivity.
Qed.

Lemma transactions_at_set_eq st id t : transactions_at (set_transaction st id t) id = t.
Proof. unfold transactions_at, set_transaction. simpl. rewrite lookup_insert_eq. reflexivity. Qed.

(** [updateReputation] panics on the most negative [int256]. *)
Lemma updateReputation_min_panics st sender _entity :
  roles st MODULE_ROLE sender = true →
  registered st _entity →
  updateReputation st sender _entity MIN_INT256 = Revert (Panic ARITHMETIC).
Proof.
  intros Hrole Hreg. unfold updateReputation.
  rewrite (onlyRole_has _ _ _ Hrole). simpl.
  apply N.eqb_neq in Hreg. rewrite Hreg. reflexivity.
Qed.

(** X1. For a caller with MODULE_ROLE, a registered entity whose score is at
    most 1000 and every delta other than the most negative int256,
    [updateReputation] stores old + delta clamped to [0, 1000] and touches no
    other entity. *)
Lemma updateReputation_clamps st sender _entity (_change : int256) :
  roles st MODULE_ROLE sender = true →
  registered st _entity →
  reputationScore (entities_at st _entity) <= 1000 →
  is_int256 _change →
  _change ≠ MIN_INT256 →
  ∃ st', updateReputation st sender _entity _change = Ok st' ∧
    reputationScore (entities_at st' _entity)
      = clamp_reputation (reputationScore (entities_at st _entity)) _change ∧
    wallet (entities_at st' _entity) = wallet (entities_at st _entity) ∧
    ∀ other, other ≠ _entity → entities_at st' other = entities_at st other.
Proof.
  intros Hrole Hreg Hold [Hlo Hhi] Hmin. unfold updateReputation.
  rewrite (onlyRole_has _ _ _ Hrole). simpl.
  apply N.eqb_neq in Hreg. rewrite Hreg. simpl.
  unfold clamp_reputation, MAX_INT256 in *.
  destruct (0 <? _change)%Z eqn:Hpos.
  - apply Z.ltb_lt in Hpos.
    rewrite checked_add_fits by (unfold MAX_UINT256; lia). simpl.
    eexists; split; [reflexivity|].
    rewrite entities_at_set_eq. simpl.
    split; [|split; [reflexivity | intros; by apply entities_at_set_ne]].
    destruct (1000 <? _) eqn:E; [apply N.ltb_lt in E | apply N.ltb_ge in E]; lia.
  - apply Z.ltb_ge in Hpos.
    rewrite (checked_neg_other _ Hmin). simpl.
    destruct (_ <=? Z.to_N (- _change)) eqn:E.
    + apply N.leb_le in E.
      eexists; split; [reflexivity|].
      rewrite entities_at_set_eq. simpl.
      split; [lia | split; [reflexivity | intros; by apply entities_at_set_ne]].
    + apply N.leb_gt in E.
      rewrite checked_sub_fits by lia. simpl.
      eexists; split; [reflexivity|].
      rewrite entities_at_set_eq. simpl.
      split; [lia | split; [reflexivity | intros; by apply entities_at_set_ne]].
Qed.

(** Whatever the delta, a call of [updateReputation] keeps every score within
    [0, 1000]: it either reverts or stores a clamped score. *)
Lemma updateReputation_bounded st sender _entity (_change : int256) st' :
  reputation_bounded st →
  updateReputation st sender _entity _change = Ok st' →
  reputation_bounded st'.
Proof.
  intros Hb. unfold updateReputation.
  destruct (onlyRole _ _ _) as [[]|]; [simpl|discriminate].
  destruct (require _ _) as [[]|]; [simpl|discriminate].
  assert (Hother : ∀ s a, s <= 1000 →
    reputationScore (entities_at (set_entity st _entity
       (with_reputationScore (entities_at st _entity) s)) a) <= 1000).
  { intros s a Hs. destruct (decide (_entity = a)) as [->|Hne].
    - rewrite entities_at_set_eq. exact Hs.
    - rewrite entities_at_set_ne by done. apply Hb. }
  destruct (0 <? _change)%Z.
  - destruct (checked_add _ _) as [s|]; [simpl|discriminate].
    intros [= <-] a. apply Hother.
    destruct (1000 <? s) eqn:E; [|apply N.ltb_ge in E]; lia.
  - destruct (checked_neg _) as [neg|]; [simpl|discriminate].
    destruct (_ <=? _) eqn:E.
    + intros [= <-] a. apply Hother. lia.
    + unfold checked_sub. apply N.leb_gt in E.
      destruct (_ <=? _) eqn:E2; [simpl|discriminate].
      intros [= <-] a. apply Hother. specialize (Hb _entity). lia.
Qed.

(** Only [registerEntity] and [updateReputation] write a reputation score,
    the first 500 and the second a clamped value: on a deployed orchestrator
    every score stays within [0, 1000], whatever is called. *)
Lemma bounded_set_entity st a e :
  reputation_bounded st → reputationScore e <= 1000 →
  reputation_bounded (set_entity st a e).
Proof.
  intros Hb He b. destruct (decide (a = b)) as [->|Hne].
  - rewrite entities_at_set_eq. exact He.
  - rewrite entities_at_set_ne by done. apply Hb.
Qed.

Lemma step_bounded keccak256 st c :
  reputation_bounded st → reputation_bounded (step keccak256 st c).
Proof.
  intros Hb. destruct c; simpl.
  - unfold grantRole. destruct (onlyRole _ _ _); exact Hb.
  - unfold pause. destruct (onlyRole _ _ _); [simpl|exact Hb].
    destruct (whenNotPaused st); exact Hb.
  - unfold unpause. destruct (onlyRole _ _ _); [simpl|exact Hb].
    destruct (paused st); exact Hb.
  - unfold registerEntity. destruct (whenNotPaused st); [simpl|exact Hb].
    destruct (require _ "Entity exists"); [simpl|exact Hb].
    destruct (require _ "No modules specified"); [simpl|exact Hb].
    apply bounded_set_entity; [exact Hb | simpl; lia].
  - unfold verifyEntity. destruct (onlyRole _ _ _); [simpl|exact Hb].
    destruct (require _ "Entity not found"); [simpl|exact Hb].
    destruct (require _ "Already verified"); [simpl|exact Hb].
    apply bounded_set_entity; [exact Hb | apply Hb].
  - unfold createCrossModuleTransaction. destruct (whenNotPaused st); [simpl|exact Hb].
    destruct (require _ "Entity not verified"); [simpl|exact Hb].
    destruct (require _ "No modules specified"); [simpl|exact Hb].
    exact Hb.
  - unfold completeCrossModuleTransaction. destruct (onlyRole _ _ _); [simpl|exact Hb].
    destruct (require _ "Invalid status"); [simpl|exact Hb].
    destruct (checked_add _ 1); [simpl|exact Hb].
    apply bounded_set_entity; [exact Hb | apply Hb].
  - destruct (updateReputation st sender _entity _change) as [st'|] eqn:E; [simpl|exact Hb].
    exact (updateReputation_bounded _ _ _ _ _ Hb E).
Qed.

Lemma reputation_stays_bounded keccak256 deployer calls a :
  reputationScore (entities_at (run keccak256 (constructor deployer) calls) a) <= 1000.
Proof.
  assert (H : ∀ st, reputation_bounded st → reputation_bounded (run keccak256 st calls)).
  { induction calls as [|c rest IH]; intros st Hb; [exact Hb|].
    simpl. apply IH, step_bounded, Hb. }
  apply H. intros b. unfold entities_at. simpl. rewrite lookup_empty. simpl. lia.
Qed.

(** C2. On the deployment [registry_run] (wallet 7 registered with score 500,
    caller 9 holding MODULE_ROLE) [updateReputation] with the delta
    [type(int256).min] does not clamp the score to 0: the negation
    [-_change] overflows and the call reverts with Panic(0x11). *)
Theorem updateReputation_min_int256_reverts :
  ∃ st, registry_run = Ok st ∧
    reputationScore (entities_at st 7) = 500 ∧
    is_int256 MIN_INT256 ∧
    updateReputation st 9 7 MIN_INT256 = Revert (Panic ARITHMETIC).
Proof.
  eexists. split; [vm_compute; reflexivity|].
  split; [vm_compute; reflexivity|].
  split; [unfold is_int256, MIN_INT256, MAX_INT256; lia|].
  vm_compute. reflexivity.
Qed.

(** C5, as the claim states it, fails on a paused orchestrator: wallet 7 is
    registered, yet its second registration is rejected by [whenNotPaused]
    and not with "Entity exists". *)
Lemma registerEntity_paused_counterexample :
  ∃ st, paused_run = Ok st ∧
    wallet (entities_at st 7) = 7 ∧
    registerEntity st 7 2000 FARMER ["agriculture"] = Revert EnforcedPause ∧
    registerEntity st 8 2000 FARMER [] = Revert EnforcedPause.
Proof.
  eexists. split; [vm_compute; reflexivity|].
  repeat split; vm_compute; reflexivity.
Qed.

(** C5 (amended). While the orchestrator is not paused, [registerEntity]
    fails with "Entity exists" for every wallet that is already registered,
    fails with "No modules specified" for every wallet not yet registered that
    passes an empty module list, and otherwise succeeds and stores the entity
    with reputation score 500 and verified = false. *)
Theorem registerEntity_outcomes st sender now _type (_modules : list string) :
  paused st = false →
  (registered st sender →
     registerEntity st sender now _type _modules = Revert (Error "Entity exists")) ∧
  (¬ registered st sender → _modules = [] →
     registerEntity st sender now _type _modules = Revert (Error "No modules specified")) ∧
  (¬ registered st sender → _modules ≠ [] →
     ∃ st', registerEntity st sender now _type _modules = Ok (st', true) ∧
       wallet (entities_at st' sender) = sender ∧
       reputationScore (entities_at st' sender) = 500 ∧
       verified (entities_at st' sender) = false ∧
       activeModules (entities_at st' sender) = _modules ∧
       entityType (entities_at st' sender) = _type).
Proof.
  intros Hp. unfold registered, registerEntity, whenNotPaused. rewrite Hp. simpl.
  split; [|split].
  - intros Hreg. apply N.eqb_neq in Hreg. rewrite Hreg. reflexivity.
  - intros Hreg ->. apply dec_stable in Hreg. rewrite Hreg. reflexivity.
  - intros Hreg Hne. apply dec_stable in Hreg. rewrite Hreg. simpl.
    destruct _modules as [|m ms]; [done|]. simpl.
    eexists. split; [reflexivity|]. rewrite entities_at_set_eq. done.
Qed.

Lemma registerEntity_outcomes_witness :
  (registerEntity (constructor 1) 7 1000 FARMER [] = Revert (Error "No modules specified")) ∧
  (∃ st', registerEntity (constructor 1) 7 1000 FARMER ["agriculture"] = Ok (st', true) ∧
     reputationScore (entities_at st' 7) = 500 ∧ verified (entities_at st' 7) = false).
Proof.
  destruct (registerEntity_outcomes (constructor 1) 7 1000 FARMER [] eq_refl)
    as (_ & Hempty & _).
  destruct (registerEntity_outcomes (constructor 1) 7 1000 FARMER ["agriculture"] eq_refl)
    as (_ & _ & Hok).
  split.
  - apply Hempty; [|reflexivity]. unfold registered. vm_compute. intros H; apply H; reflexivity.
  - destruct Hok as (st' & H1 & _ & H2 & H3 & _).
    + unfold registered. vm_compute. intros H; apply H; reflexivity.
    + discriminate.
    + exists st'. done.
Defined.

(** C8. For a caller holding MODULE_ROLE (and an initiator whose transaction
    counter is not at the top of uint256), [completeCrossModuleTransaction]
    succeeds exactly when the transaction's status is Processing; it then
    sets the status to Completed and adds one to the initiator's
    totalTransactions. On any other status, Pending and the terminal ones
    included, it reverts with "Invalid status"; a revert leaves the whole
    state, hence the transaction, as it was. *)
Theorem completeCrossModuleTransaction_processing_only st sender _txId :
  roles st MODULE_ROLE sender = true →
  totalTransactions (entities_at st (initiator (transactions_at st _txId))) < MAX_UINT256 →
  (is_ok (completeCrossModuleTransaction st sender _txId) = true
     ↔ status (transactions_at st _txId) = PROCESSING) ∧
  (status (transactions_at st _txId) = PROCESSING →
     ∃ st', completeCrossModuleTransaction st sender _txId = Ok (st', true) ∧
       status (transactions_at st' _txId) = COMPLETED ∧
       totalTransactions (entities_at st' (initiator (transactions_at st _txId)))
         = totalTransactions (entities_at st (initiator (transactions_at st _txId))) + 1) ∧
  (status (transactions_at st _txId) ≠ PROCESSING →
     completeCrossModuleTransaction st sender _txId = Revert (Error "Invalid status")).
Proof.
  intros Hrole Hcnt. unfold completeCrossModuleTransaction.
  rewrite (onlyRole_has _ _ _ Hrole). simpl.
  destruct (decide (status (transactions_at st _txId) = PROCESSING)) as [Hs|Hs].
  - rewrite bool_decide_true by done. simpl.
    match goal with |- context [checked_add ?a 1] => assert (Ha : a =
      totalTransactions (entities_at st (initiator (transactions_at st _txId)))) end.
    { reflexivity. }
    rewrite checked_add_fits by (rewrite Ha; lia). simpl.
    split; [done|]. split; [|done].
    intros _. eexists. split; [reflexivity|]. split.
    + unfold transactions_at at 1. simpl. rewrite lookup_insert_eq. reflexivity.
    + rewrite entities_at_set_eq. simpl. rewrite Ha. reflexivity.
  - rewrite bool_decide_false by done. simpl.
    split; [split; [discriminate | done]|]. split; done.
Qed.

Lemma completeCrossModuleTransaction_processing_only_witness :
  (∃ st', completeCrossModuleTransaction processing_state 9 77 = Ok (st', true) ∧
     status (transactions_at st' 77) = COMPLETED ∧
     totalTransactions (entities_at st' 7) = 4) ∧
  pending_run = Ok (pending_state, pending_tx) ∧
  status (transactions_at pending_state pending_tx) = PENDING ∧
  completeCrossModuleTransaction pending_state 9 pending_tx = Revert (Error "Invalid status").
Proof.
  split; [|split; [vm_compute; reflexivity | split; [vm_compute; reflexivity|]]].
  - assert (Hrole : roles processing_state MODULE_ROLE 9 = true) by reflexivity.
    assert (Hcnt : totalTransactions
              (entities_at processing_state (initiator (transactions_at processing_state 77)))
              < MAX_UINT256) by (vm_compute; reflexivity).
    destruct (completeCrossModuleTransaction_processing_only processing_state 9 77 Hrole Hcnt)
      as (_ & Hok & _).
    destruct Hok as (st' & H1 & H2 & H3); [reflexivity|].
    exists st'. split; [exact H1|]. split; [exact H2|]. exact H3.
  - assert (Hrole : roles pending_state MODULE_ROLE 9 = true) by (vm_compute; reflexivity).
    assert (Hcnt : totalTransactions
              (entities_at pending_state (initiator (transactions_at pending_state pending_tx)))
              < MAX_UINT256) by (vm_compute; reflexivity).
    destruct (completeCrossModuleTransaction_processing_only pending_state 9 pending_tx
                Hrole Hcnt) as (_ & _ & Hfail).
    apply Hfail. vm_compute. intros H; discriminate H.
Defined.

End OrchestratorFacts.

(** ** The agriculture contract: escrow and crop insurance *)

Module AgricultureFacts.
Import Agriculture AgricultureRuns.

Lemma salesContracts_at_set_eq st id c :
  salesContracts_at (set_salesContract st id c) id = c.
Proof. unfold salesContracts_at. simpl. rewrite lookup_insert_eq. reflexivity. Qed.

Lemma salesContracts_at_set_balance st b id :
  salesContracts_at (set_balance st b) id = salesContracts_at st id.
Proof. reflexivity. Qed.

Lemma insurancePolicies_at_set_eq st id p :
  insurancePolicies_at (set_insurancePolicy st id p) id = p.
Proof. unfold insurancePolicies_at. simpl. rewrite lookup_insert_eq. reflexivity. Qed.

Lemma salesContracts_at_set_ne st id id' c :
  id ≠ id' → salesContracts_at (set_salesContract st id c) id' = salesContracts_at st id'.
Proof. intros H. unfold salesContracts_at. simpl. rewrite lookup_insert_ne by done. reflexivity. Qed.

Lemma insurancePolicies_at_set_ne st id id' p :
  id ≠ id' →
  insurancePolicies_at (set_insurancePolicy st id p) id' = insurancePolicies_at st id'.
Proof.
  intros H. unfold insurancePolicies_at. simpl. rewrite lookup_insert_ne by done. reflexivity.
Qed.

(** *** Transfers *)

(** A transfer that succeeds moves the amount and then runs the recipient's
    calls. *)
Lemma call_value_success keccak256 accounts now st to amount st' :
  call_value keccak256 accounts now st to amount = (true, st') →
  amount <= balance st ∧
  ∃ calls, accounts to (set_balance st (balance st - amount)) = Some calls ∧
    st' = reenter keccak256 now (set_balance st (balance st - amount)) calls.
Proof.
  unfold call_value. destruct (amount <=? balance st) eqn:E; [|discriminate].
  apply N.leb_le in E.
  destruct (accounts to _) as [calls|] eqn:Ha; [|discriminate].
  intros [= <-]. split; [exact E|]. exists calls. done.
Qed.

Lemma call_value_failure keccak256 accounts now st to amount st' :
  call_value keccak256 accounts now st to amount = (false, st') →
  st' = st ∧
  (balance st < amount ∨ accounts to (set_balance st (balance st - amount)) = None).
Proof.
  unfold call_value. destruct (amount <=? balance st) eqn:E.
  - destruct (accounts to _) as [calls|] eqn:Ha; [discriminate|].
    intros [= <-]. auto.
  - apply N.leb_gt in E. intros [= <-]. auto.
Qed.

Lemma call_value_accepted keccak256 accounts now st to amount calls :
  amount <= balance st →
  accounts to (set_balance st (balance st - amount)) = Some calls →
  call_value keccak256 accounts now st to amount
    = (true, reenter keccak256 now (set_balance st (balance st - amount)) calls).
Proof.
  intros Hle Ha. unfold call_value. apply N.leb_le in Hle. rewrite Hle, Ha. reflexivity.
Qed.

Lemma call_value_refused keccak256 accounts now st to amount :
  balance st < amount ∨ accounts to (set_balance st (balance st - amount)) = None →
  call_value keccak256 accounts now st to amount = (false, st).
Proof.
  intros H. unfold call_value. destruct (amount <=? balance st) eqn:E; [|reflexivity].
  destruct H as [H|H]; [apply N.leb_le in E; lia | rewrite H; reflexivity].
Qed.

(** *** What a successful call went through *)

Lemma processPayment_effects_Ok st sender id st1 payment :
  processPayment_effects st sender id = Ok (st1, payment) →
  SalesContract.deliveryConfirmed (salesContracts_at st id) = true ∧
  SalesContract.qualityVerified (salesContracts_at st id) = true ∧
  SalesContract.completed (salesContracts_at st id) = false ∧
  0 < SalesContract.escrowAmount (salesContracts_at st id) ∧
  payment = SalesContract.escrowAmount (salesContracts_at st id)
            - SalesContract.escrowAmount (salesContracts_at st id) * 15 / 10000 ∧
  st1 = set_salesContract st id (SalesContract.with_completed (salesContracts_at st id) true).
Proof.
  unfold processPayment_effects.
  destruct (require _ "Unauthorized") as [[]|]; [simpl|discriminate].
  destruct (SalesContract.deliveryConfirmed _); [simpl|discriminate].
  destruct (SalesContract.qualityVerified _); [simpl|discriminate].
  destruct (SalesContract.completed _); [discriminate|simpl].
  destruct (0 <? _) eqn:Hpos; [simpl|discriminate]. apply N.ltb_lt in Hpos.
  destruct (checked_mul _ 15) as [scaled|] eqn:Hmul; [simpl|discriminate].
  apply checked_mul_Ok in Hmul as [-> _].
  unfold checked_sub. destruct (_ / 10000 <=? _); simpl; [|discriminate].
  intros [= <- <-]. done.
Qed.

Lemma processPayment_Ok keccak256 accounts st sender now id st2 payment :
  processPayment keccak256 accounts st sender now id = Ok (st2, payment) →
  ∃ st1 calls, processPayment_effects st sender id = Ok (st1, payment) ∧
    payment <= balance st1 ∧
    accounts (SalesContract.farmer (salesContracts_at st1 id))
      (set_balance st1 (balance st1 - payment)) = Some calls ∧
    st2 = reenter keccak256 now (set_balance st1 (balance st1 - payment)) calls.
Proof.
  unfold processPayment.
  destruct (processPayment_effects st sender id) as [[st1 pay]|]; [simpl|discriminate].
  destruct (call_value _ _ _ _ _ _) as [[] st'] eqn:Hcall; simpl; [|discriminate].
  apply call_value_success in Hcall as (Hle & calls & Ha & ->).
  intros [= <- <-]. exists st1, calls. done.
Qed.

Lemma processInsurancePayout_effects_Ok st sender now id pct st1 amount :
  processInsurancePayout_effects st sender now id pct = Ok (st1, amount) →
  CropInsurance.active (insurancePolicies_at st id) = true ∧ pct <= 100 ∧
  now <= CropInsurance.endDate (insurancePolicies_at st id) ∧
  amount = CropInsurance.insuredValue (insurancePolicies_at st id)
           * CropInsurance.coveragePercentage (insurancePolicies_at st id) * pct / 10000 ∧
  st1 = set_insurancePolicy st id
          (CropInsurance.with_active (insurancePolicies_at st id) false).
Proof.
  unfold processInsurancePayout_effects.
  destruct (onlyRole _ _ _) as [[]|]; [simpl|discriminate].
  destruct (CropInsurance.active _); [simpl|discriminate].
  destruct (now <=? _) eqn:Hnow; [simpl|discriminate]. apply N.leb_le in Hnow.
  destruct (pct <=? 100) eqn:Hpct; [simpl|discriminate]. apply N.leb_le in Hpct.
  destruct (checked_mul _ _) as [covered|] eqn:H1; [simpl|discriminate].
  apply checked_mul_Ok in H1 as [-> _].
  destruct (checked_mul _ pct) as [scaled|] eqn:H2; [simpl|discriminate].
  apply checked_mul_Ok in H2 as [-> _].
  intros [= <- <-]. done.
Qed.

Lemma processInsurancePayout_Ok keccak256 accounts st sender now id pct st2 :
  processInsurancePayout keccak256 accounts st sender now id pct = Ok st2 →
  ∃ st1 amount calls,
    processInsurancePayout_effects st sender now id pct = Ok (st1, amount) ∧
    amount <= balance st1 ∧
    accounts (CropInsurance.farmer (insurancePolicies_at st1 id))
      (set_balance st1 (balance st1 - amount)) = Some calls ∧
    st2 = reenter keccak256 now (set_balance st1 (balance st1 - amount)) calls.
Proof.
  unfold processInsurancePayout.
  destruct (processInsurancePayout_effects _ _ _ _ _) as [[st1 amount]|];
    [simpl|discriminate].
  destruct (call_value _ _ _ _ _ _) as [[] st'] eqn:Hcall; simpl; [|discriminate].
  apply call_value_success in Hcall as (Hle & calls & Ha & ->).
  intros [= <-]. exists st1, amount, calls. done.
Qed.

(** *** What the calls made during a transfer leave alone *)

Lemma reenter_cons keccak256 now st c rest :
  reenter keccak256 now st (c :: rest)
  = reenter keccak256 now (reenter_step keccak256 now st c) rest.
Proof. reflexivity. Qed.

Lemma run_cons keccak256 st c rest :
  run keccak256 st (c :: rest) = run keccak256 (step keccak256 st c) rest.
Proof. reflexivity. Qed.

(** A completed sales contract is out of reach of re-entry: the only
    unguarded function that writes sales contracts refuses completed ones. *)
Lemma reenter_step_sale_kept keccak256 now st c id :
  SalesContract.completed (salesContracts_at st id) = true →
  salesContracts_at (reenter_step keccak256 now st c) id = salesContracts_at st id.
Proof.
  intros Hdone. destruct c; simpl.
  - reflexivity.
  - unfold recordHarvest.
    destruct (require _ "Invalid quantity") as [[]|]; [simpl|reflexivity].
    destruct (require _ "Invalid grade") as [[]|]; reflexivity.
  - unfold confirmDeliveryAndQuality.
    destruct (onlyRole _ _ _) as [[]|]; [simpl|reflexivity].
    destruct (SalesContract.completed (salesContracts_at st _contractId)) eqn:E;
      [reflexivity|simpl].
    apply salesContracts_at_set_ne. intros ->. congruence.
  - unfold createInsurancePolicy.
    destruct (require _ "Invalid insured value") as [[]|]; [simpl|reflexivity].
    destruct (require _ "Invalid coverage") as [[]|]; [simpl|reflexivity].
    destruct (checked_mul _ 4); [simpl|reflexivity].
    destruct (require _ "Insufficient premium") as [[]|]; [simpl|reflexivity].
    destruct (checked_mul _ DAY); [simpl|reflexivity].
    destruct (checked_add _ _); reflexivity.
Qed.

Lemma reenter_sale_kept keccak256 now calls : ∀ st id,
  SalesContract.completed (salesContracts_at st id) = true →
  salesContracts_at (reenter keccak256 now st calls) id = salesContracts_at st id.
Proof.
  induction calls as [|c rest IH]; intros st id Hdone; [reflexivity|].
  rewrite reenter_cons.
  pose proof (reenter_step_sale_kept keccak256 now st c id Hdone) as Hstep.
  rewrite IH by (rewrite Hstep; exact Hdone). exact Hstep.
Qed.

(** An insurance policy changes during a transfer only if some call creates
    a policy under its id. *)
Lemma reenter_step_policy_kept keccak256 now st c id :
  ¬ reentry_creates_policy keccak256 now id c →
  insurancePolicies_at (reenter_step keccak256 now st c) id = insurancePolicies_at st id.
Proof.
  intros Hfresh. destruct c; simpl.
  - reflexivity.
  - unfold recordHarvest.
    destruct (require _ "Invalid quantity") as [[]|]; [simpl|reflexivity].
    destruct (require _ "Invalid grade") as [[]|]; reflexivity.
  - unfold confirmDeliveryAndQuality.
    destruct (onlyRole _ _ _) as [[]|]; [simpl|reflexivity].
    destruct (require _ "Already completed") as [[]|]; reflexivity.
  - unfold createInsurancePolicy.
    destruct (require _ "Invalid insured value") as [[]|]; [simpl|reflexivity].
    destruct (require _ "Invalid coverage") as [[]|]; [simpl|reflexivity].
    destruct (checked_mul _ 4); [simpl|reflexivity].
    destruct (require _ "Insufficient premium") as [[]|]; [simpl|reflexivity].
    destruct (checked_mul _ DAY); [simpl|reflexivity].
    destruct (checked_add _ _); [simpl|reflexivity].
    rewrite insurancePolicies_at_set_ne by exact Hfresh. reflexivity.
Qed.

Lemma reenter_policy_kept keccak256 now calls : ∀ st id,
  Forall (λ c, ¬ reentry_creates_policy keccak256 now id c) calls →
  insurancePolicies_at (reenter keccak256 now st calls) id = insurancePolicies_at st id.
Proof.
  induction calls as [|c rest IH]; intros st id Hfresh; [reflexivity|].
  apply Forall_cons in Hfresh as [Hc Hrest]. rewrite reenter_cons.
  rewrite IH by exact Hrest.
  apply reenter_step_policy_kept, Hc.
Qed.

(** The calls made during a transfer can pay in, but take nothing out. *)
Lemma reenter_step_balance keccak256 now st c :
  balance st <= balance (reenter_step keccak256 now st c).
Proof.
  destruct c; simpl.
  - reflexivity.
  - unfold recordHarvest.
    destruct (require _ "Invalid quantity") as [[]|]; [simpl|reflexivity].
    destruct (require _ "Invalid grade") as [[]|]; reflexivity.
  - unfold confirmDeliveryAndQuality.
    destruct (onlyRole _ _ _) as [[]|]; [simpl|reflexivity].
    destruct (require _ "Already completed") as [[]|]; reflexivity.
  - unfold createInsurancePolicy.
    destruct (require _ "Invalid insured value") as [[]|]; [simpl|reflexivity].
    destruct (require _ "Invalid coverage") as [[]|]; [simpl|reflexivity].
    destruct (checked_mul _ 4); [simpl|reflexivity].
    destruct (require _ "Insufficient premium") as [[]|]; [simpl|reflexivity].
    destruct (checked_mul _ DAY); [simpl|reflexivity].
    destruct (checked_add _ _); simpl; [lia | reflexivity].
Qed.

Lemma reenter_balance keccak256 now calls : ∀ st,
  balance st <= balance (reenter keccak256 now st calls).
Proof.
  induction calls as [|c rest IH]; intros st; [reflexivity|].
  rewrite reenter_cons.
  etransitivity; [apply (reenter_step_balance keccak256 now st c)|]. apply IH.
Qed.

(** A call made during a transfer does what the same call does as a
    transaction of its own. *)
Lemma reenter_step_as_call keccak256 now st c :
  reenter_step keccak256 now st c = step keccak256 st (as_call now c).
Proof. destruct c; reflexivity. Qed.

Lemma reenter_as_run keccak256 now calls : ∀ st,
  reenter keccak256 now st calls = run keccak256 st (as_call now <$> calls).
Proof.
  induction calls as [|c rest IH]; intros st; [reflexivity|].
  rewrite reenter_cons, fmap_cons, run_cons, <- reenter_step_as_call. apply IH.
Qed.

(** *** What later transactions leave alone *)

(** A completed sales contract stays as it is until a sale is created under
    its id again. *)
Lemma step_sale_kept keccak256 st c id :
  ¬ creates_sale keccak256 id c →
  SalesContract.completed (salesContracts_at st id) = true →
  salesContracts_at (step keccak256 st c) id = salesContracts_at st id.
Proof.
  intros Hfresh Hdone. destruct c; simpl.
  - reflexivity.
  - apply (reenter_step_sale_kept keccak256 now st
             (ReRecordHarvest sender _cropType _quantity _qualityGrade) id Hdone).
  - unfold createSalesContract.
    destruct (require _ "Not harvest owner") as [[]|]; [simpl|reflexivity].
    destruct (require _ "Insufficient quantity") as [[]|]; [simpl|reflexivity].
    destruct (require _ "Invalid buyer") as [[]|]; [simpl|reflexivity].
    destruct (checked_mul _ _); [simpl|reflexivity].
    apply salesContracts_at_set_ne. exact Hfresh.
  - unfold depositEscrow, credit. rewrite salesContracts_at_set_balance.
    destruct (require _ "Not buyer") as [[]|]; [simpl|reflexivity].
    destruct (SalesContract.completed (salesContracts_at st _contractId)) eqn:E;
      [reflexivity|simpl].
    destruct (require _ "Insufficient payment") as [[]|]; [simpl|reflexivity].
    rewrite salesContracts_at_set_ne by (intros ->; congruence). reflexivity.
  - apply (reenter_step_sale_kept keccak256 0 st
             (ReConfirmDeliveryAndQuality sender _contractId) id Hdone).
  - destruct (processPayment keccak256 accounts st sender now _contractId)
      as [[st2 pay]|] eqn:E; [simpl|reflexivity].
    apply processPayment_Ok in E as (st1 & calls & Heff & _ & _ & ->).
    apply processPayment_effects_Ok in Heff as (_ & _ & Hopen & _ & _ & ->).
    assert (Hne : _contractId ≠ id) by (intros ->; congruence).
    rewrite reenter_sale_kept;
      rewrite salesContracts_at_set_balance, salesContracts_at_set_ne by exact Hne;
      [reflexivity | exact Hdone].
  - apply (reenter_step_sale_kept keccak256 now st
             (ReCreateInsurancePolicy sender value _cropType _insuredValue
                _coveragePercentage _durationDays) id Hdone).
  - destruct (processInsurancePayout keccak256 accounts st sender now _policyId
                _payoutPercentage) as [st2|] eqn:E; [simpl|reflexivity].
    apply processInsurancePayout_Ok in E as (st1 & amount & calls & Heff & _ & _ & ->).
    apply processInsurancePayout_effects_Ok in Heff as (_ & _ & _ & _ & ->).
    rewrite reenter_sale_kept; [reflexivity | exact Hdone].
Qed.

Lemma run_sale_kept keccak256 calls : ∀ st id,
  Forall (λ c, ¬ creates_sale keccak256 id c) calls →
  SalesContract.completed (salesContracts_at st id) = true →
  salesContracts_at (run keccak256 st calls) id = salesContracts_at st id.
Proof.
  induction calls as [|c rest IH]; intros st id Hfresh Hdone; [reflexivity|].
  apply Forall_cons in Hfresh as [Hc Hrest]. rewrite run_cons.
  pose proof (step_sale_kept keccak256 st c id Hc Hdone) as Hstep.
  rewrite IH; [exact Hstep | exact Hrest | rewrite Hstep; exact Hdone].
Qed.

Lemma quiet_transfer keccak256 now id (accounts : address → account) a s calls :
  ¬ (∃ a s calls, accounts a s = Some calls ∧
       Exists (reentry_creates_policy keccak256 now id) calls) →
  accounts a s = Some calls →
  Forall (λ c, ¬ reentry_creates_policy keccak256 now id c) calls.
Proof.
  intros Hquiet Ha. apply Forall_forall. intros c Hin Hc.
  apply Hquiet. exists a, s, calls. split; [exact Ha|].
  apply Exists_exists. exists c. done.
Qed.

(** A policy that has been paid stays as it is until a policy is created
    under its id again. *)
Lemma step_policy_kept keccak256 st c id :
  ¬ creates_policy keccak256 id c →
  CropInsurance.active (insurancePolicies_at st id) = false →
  insurancePolicies_at (step keccak256 st c) id = insurancePolicies_at st id.
Proof.
  intros Hfresh Hpaid. destruct c; simpl.
  - reflexivity.
  - apply (reenter_step_policy_kept keccak256 now st
             (ReRecordHarvest sender _cropType _quantity _qualityGrade) id). auto.
  - unfold createSalesContract.
    destruct (require _ "Not harvest owner") as [[]|]; [simpl|reflexivity].
    destruct (require _ "Insufficient quantity") as [[]|]; [simpl|reflexivity].
    destruct (require _ "Invalid buyer") as [[]|]; [simpl|reflexivity].
    destruct (checked_mul _ _); reflexivity.
  - unfold depositEscrow.
    destruct (require _ "Not buyer") as [[]|]; [simpl|reflexivity].
    destruct (require _ "Already completed") as [[]|]; [simpl|reflexivity].
    destruct (require _ "Insufficient payment") as [[]|]; reflexivity.
  - apply (reenter_step_policy_kept keccak256 0 st
             (ReConfirmDeliveryAndQuality sender _contractId) id). auto.
  - destruct (processPayment keccak256 accounts st sender now _contractId)
      as [[st2 pay]|] eqn:E; [simpl|reflexivity].
    apply processPayment_Ok in E as (st1 & calls & Heff & _ & Ha & ->).
    apply processPayment_effects_Ok in Heff as (_ & _ & _ & _ & _ & ->).
    rewrite reenter_policy_kept; [reflexivity|].
    exact (quiet_transfer keccak256 now id accounts _ _ calls Hfresh Ha).
  - apply (reenter_step_policy_kept keccak256 now st
             (ReCreateInsurancePolicy sender value _cropType _insuredValue
                _coveragePercentage _durationDays) id). exact Hfresh.
  - destruct (processInsurancePayout keccak256 accounts st sender now _policyId
                _payoutPercentage) as [st2|] eqn:E; [simpl|reflexivity].
    apply processInsurancePayout_Ok in E as (st1 & amount & calls & Heff & _ & Ha & ->).
    apply processInsurancePayout_effects_Ok in Heff as (Hact & _ & _ & _ & ->).
    rewrite reenter_policy_kept
      by exact (quiet_transfer keccak256 now id accounts _ _ calls Hfresh Ha).
    apply (insurancePolicies_at_set_ne (set_balance st _)). intros ->. congruence.
Qed.

Lemma run_policy_kept keccak256 calls : ∀ st id,
  Forall (λ c, ¬ creates_policy keccak256 id c) calls →
  CropInsurance.active (insurancePolicies_at st id) = false →
  insurancePolicies_at (run keccak256 st calls) id = insurancePolicies_at st id.
Proof.
  induction calls as [|c rest IH]; intros st id Hfresh Hpaid; [reflexivity|].
  apply Forall_cons in Hfresh as [Hc Hrest]. rewrite run_cons.
  pose proof (step_policy_kept keccak256 st c id Hc Hpaid) as Hstep.
  rewrite IH; [exact Hstep | exact Hrest | rewrite Hstep; exact Hpaid].
Qed.

(** *** processPayment *)

Lemma fee_le_escrow escrow : escrow * 15 / 10000 <= escrow.
Proof.
  transitivity (escrow * 15 / 15).
  - apply N.div_le_compat_l. lia.
  - rewrite N.div_mul by lia. lia.
Qed.

(** Up to the transfer: with the flags set, an open contract and a positive
    escrow, the completed flag is written and the payment computed. *)
Lemma processPayment_effects_accepts st sender id :
  sender = SalesContract.buyer (salesContracts_at st id) ∨ roles st ADMIN_ROLE sender = true →
  SalesContract.deliveryConfirmed (salesContracts_at st id) = true →
  SalesContract.qualityVerified (salesContracts_at st id) = true →
  SalesContract.completed (salesContracts_at st id) = false →
  0 < SalesContract.escrowAmount (salesContracts_at st id) →
  SalesContract.escrowAmount (salesContracts_at st id) * 15 <= MAX_UINT256 →
  processPayment_effects st sender id
  = Ok (set_salesContract st id (SalesContract.with_completed (salesContracts_at st id) true),
        SalesContract.escrowAmount (salesContracts_at st id)
        - SalesContract.escrowAmount (salesContracts_at st id) * 15 / 10000).
Proof.
  intros Hauth Hd Hq Hc Hpos Hfit. unfold processPayment_effects.
  assert ((sender =? SalesContract.buyer (salesContracts_at st id))
            || roles st ADMIN_ROLE sender = true) as ->.
  { destruct Hauth as [->| ->]; [rewrite N.eqb_refl; reflexivity | apply orb_true_r]. }
  rewrite Hd, Hq, Hc. simpl.
  apply N.ltb_lt in Hpos. rewrite Hpos. simpl.
  rewrite checked_mul_fits by exact Hfit. simpl.
  rewrite checked_sub_fits by apply fee_le_escrow. reflexivity.
Qed.

(** Once [completed] is set, no one can have the contract paid. *)
Lemma processPayment_completed keccak256 accounts st sender now id :
  SalesContract.deliveryConfirmed (salesContracts_at st id) = true →
  SalesContract.qualityVerified (salesContracts_at st id) = true →
  SalesContract.completed (salesContracts_at st id) = true →
  processPayment keccak256 accounts st sender now id
  = Revert (Error (if (sender =? SalesContract.buyer (salesContracts_at st id))
                      || roles st ADMIN_ROLE sender
                   then "Already completed" else "Unauthorized")).
Proof.
  intros Hd Hq Hc. unfold processPayment, processPayment_effects.
  destruct ((sender =? _) || _); [|reflexivity].
  rewrite Hd, Hq, Hc. reflexivity.
Qed.

(** C1, as the claim states it, fails when the transfer to the farmer fails.
    In [drained_run] the contract has both flags set, is not completed and
    records an escrow of 1000, but the contract's balance is 0: the buyer's
    [processPayment] reverts with "Payment failed" and returns nothing, even
    though the farmer is an externally owned account. *)
Lemma processPayment_transfer_counterexample :
  ∃ st c, drained_run = Ok (st, c) ∧
    SalesContract.buyer (salesContracts_at st c) = 20 ∧
    SalesContract.deliveryConfirmed (salesContracts_at st c) = true ∧
    SalesContract.qualityVerified (salesContracts_at st c) = true ∧
    SalesContract.completed (salesContracts_at st c) = false ∧
    SalesContract.escrowAmount (salesContracts_at st c) = 1000 ∧
    balance st = 0 ∧
    processPayment digest plain_accounts st 20 3000 c = Revert (Error "Payment failed").
Proof.
  do 2 eexists. split; [vm_compute; reflexivity|].
  repeat split; vm_compute; reflexivity.
Qed.

(** C1 (amended). For a sales contract with both flags set, not completed,
    with a positive escrowAmount whose product with 15 fits in uint256, a call
    of [processPayment] by the buyer or an admin stores completed = true and
    then transfers escrowAmount - floor(escrowAmount * 15 / 10000) to the
    farmer: the farmer's account runs on a contract in which the sale is
    already completed and the payment already gone from the balance. If the
    transfer fails (the balance is short, or the farmer's account reverts) the
    call reverts with "Payment failed". If it succeeds the call returns
    exactly that amount, whatever the farmer's account called meanwhile, and
    from then on, through any later transactions that do not create a sale
    under the same id again, the record stays completed and every
    [processPayment] on it reverts: "Already completed" for the buyer and for
    admins, "Unauthorized" for anyone else. *)
Theorem processPayment_pays_once keccak256 accounts st sender now id :
  sender = SalesContract.buyer (salesContracts_at st id) ∨ roles st ADMIN_ROLE sender = true →
  SalesContract.deliveryConfirmed (salesContracts_at st id) = true →
  SalesContract.qualityVerified (salesContracts_at st id) = true →
  SalesContract.completed (salesContracts_at st id) = false →
  0 < SalesContract.escrowAmount (salesContracts_at st id) →
  SalesContract.escrowAmount (salesContracts_at st id) * 15 <= MAX_UINT256 →
  let c := salesContracts_at st id in
  let payment := SalesContract.escrowAmount c - SalesContract.escrowAmount c * 15 / 10000 in
  let seen := set_balance (set_salesContract st id (SalesContract.with_completed c true))
                (balance st - payment) in
  SalesContract.completed (salesContracts_at seen id) = true ∧
  (balance st < payment ∨ accounts (SalesContract.farmer c) seen = None →
     processPayment keccak256 accounts st sender now id = Revert (Error "Payment failed")) ∧
  (∀ calls, payment <= balance st → accounts (SalesContract.farmer c) seen = Some calls →
     processPayment keccak256 accounts st sender now id
       = Ok (reenter keccak256 now seen calls, payment) ∧
     ∀ later, Forall (λ k, ¬ creates_sale keccak256 id k) later →
       salesContracts_at (run keccak256 (reenter keccak256 now seen calls) later) id
         = SalesContract.with_completed c true ∧
       ∀ accounts' caller now',
         processPayment keccak256 accounts'
           (run keccak256 (reenter keccak256 now seen calls) later) caller now' id
         = Revert (Error
             (if (caller =? SalesContract.buyer c)
                 || roles (run keccak256 (reenter keccak256 now seen calls) later)
                      ADMIN_ROLE caller
              then "Already completed" else "Unauthorized"))).
Proof.
  intros Hauth Hd Hq Hc Hpos Hfit c payment seen.
  pose proof (processPayment_effects_accepts st sender id Hauth Hd Hq Hc Hpos Hfit) as Heff.
  fold c in Heff. fold payment in Heff.
  assert (Hseen : salesContracts_at seen id = SalesContract.with_completed c true).
  { unfold seen. rewrite salesContracts_at_set_balance. apply salesContracts_at_set_eq. }
  split; [rewrite Hseen; reflexivity|]. split.
  - intros Hfail. unfold processPayment. rewrite Heff. simpl.
    rewrite salesContracts_at_set_eq. simpl.
    rewrite call_value_refused by exact Hfail. reflexivity.
  - intros calls Hle Ha. split.
    + unfold processPayment. rewrite Heff. simpl.
      rewrite salesContracts_at_set_eq. simpl.
      rewrite (call_value_accepted _ _ _ _ _ _ calls) by (simpl; assumption). reflexivity.
    + intros later Hfresh.
      assert (Hkept : salesContracts_at
                        (run keccak256 (reenter keccak256 now seen calls) later) id
                      = SalesContract.with_completed c true).
      { rewrite run_sale_kept; [|exact Hfresh|];
          rewrite reenter_sale_kept by (rewrite Hseen; reflexivity);
          rewrite Hseen; reflexivity. }
      split; [exact Hkept|].
      intros accounts' caller now'.
      rewrite processPayment_completed; rewrite Hkept; simpl; auto.
Qed.

Lemma processPayment_pays_once_witness :
  funded_run = Ok (funded_state, funded_contract) ∧
  ∃ st2, processPayment digest plain_accounts funded_state 20 2000 funded_contract
           = Ok (st2, 999) ∧
    processPayment digest plain_accounts
      (run digest st2 [DepositEscrow 20 1000 funded_contract;
                       ConfirmDeliveryAndQuality 2 funded_contract])
      20 3000 funded_contract
    = Revert (Error "Already completed").
Proof.
  split; [vm_compute; reflexivity|].
  destruct (processPayment_pays_once digest plain_accounts funded_state 20 2000 funded_contract)
    as (_ & _ & H).
  - left. vm_compute. reflexivity.
  - vm_compute. reflexivity.
  - vm_compute. reflexivity.
  - vm_compute. reflexivity.
  - vm_compute. reflexivity.
  - vm_compute. intros H; discriminate H.
  - destruct (H []) as (H1 & H2).
    + vm_compute. intros E; discriminate E.
    + reflexivity.
    + eexists. split; [exact H1|].
      destruct (H2 [DepositEscrow 20 1000 funded_contract;
                    ConfirmDeliveryAndQuality 2 funded_contract]) as (_ & H3).
      * repeat constructor; simpl; auto.
      * rewrite H3. vm_compute. reflexivity.
Defined.

(** *** processInsurancePayout *)

Lemma processInsurancePayout_effects_accepts st sender now id pct :
  roles st VERIFIER_ROLE sender = true →
  CropInsurance.active (insurancePolicies_at st id) = true →
  now <= CropInsurance.endDate (insurancePolicies_at st id) →
  pct <= 100 →
  CropInsurance.insuredValue (insurancePolicies_at st id)
    * CropInsurance.coveragePercentage (insurancePolicies_at st id) * 100 <= MAX_UINT256 →
  processInsurancePayout_effects st sender now id pct
  = Ok (set_insurancePolicy st id
          (CropInsurance.with_active (insurancePolicies_at st id) false),
        CropInsurance.insuredValue (insurancePolicies_at st id)
        * CropInsurance.coveragePercentage (insurancePolicies_at st id) * pct / 10000).
Proof.
  intros Hrole Ha Hnow Hpct Hfit. unfold processInsurancePayout_effects.
  rewrite (onlyRole_has _ _ _ Hrole). simpl. rewrite Ha. simpl.
  apply N.leb_le in Hnow. rewrite Hnow. simpl.
  pose proof Hpct as Hpct'. apply N.leb_le in Hpct'. rewrite Hpct'. simpl.
  rewrite checked_mul_fits by nia. simpl.
  rewrite checked_mul_fits by nia. reflexivity.
Qed.

(** Once [active] is cleared, a verifier gets "Policy not active". *)
Lemma processInsurancePayout_inactive keccak256 accounts st sender now id pct :
  roles st VERIFIER_ROLE sender = true →
  CropInsurance.active (insurancePolicies_at st id) = false →
  processInsurancePayout keccak256 accounts st sender now id pct
    = Revert (Error "Policy not active").
Proof.
  intros Hrole Ha. unfold processInsurancePayout, processInsurancePayout_effects.
  rewrite (onlyRole_has _ _ _ Hrole). simpl. rewrite Ha. reflexivity.
Qed.

(** C4, as the claim states it, fails on the specification's own example.
    In [insured_run] the policy (insuredValue 10000, coverage 80) is active
    and not expired, the contract holds the 400 premium, and a verifier's
    [processInsurancePayout] with payoutPct 50 does not pay 4000: the transfer
    fails, the call reverts with "Payout failed", and the policy is still
    active. *)
Lemma processInsurancePayout_unfunded_counterexample :
  ∃ st p, insured_run = Ok (st, p) ∧
    CropInsurance.active (insurancePolicies_at st p) = true ∧
    CropInsurance.insuredValue (insurancePolicies_at st p) = 10000 ∧
    CropInsurance.coveragePercentage (insurancePolicies_at st p) = 80 ∧
    (2000 <=? CropInsurance.endDate (insurancePolicies_at st p)) = true ∧
    roles st VERIFIER_ROLE 2 = true ∧
    balance st = 400 ∧
    processInsurancePayout digest plain_accounts st 2 2000 p 50
      = Revert (Error "Payout failed").
Proof.
  do 2 eexists. split; [vm_compute; reflexivity|].
  repeat split; vm_compute; reflexivity.
Qed.

(** C4 (amended). For an active, non-expired policy whose
    insuredValue * coveragePercentage * 100 fits in uint256 and a payoutPct in
    [0, 100], a verifier's [processInsurancePayout] stores active = false and
    then transfers floor(insuredValue * coveragePercentage * payoutPct / 10000)
    to the farmer: the farmer's account runs on a contract in which the policy
    is already inactive. If the transfer fails (the balance is short, or the
    farmer's account reverts) the call reverts with "Payout failed". If it
    succeeds the call succeeds; and unless a policy is created under the
    same id again (createInsurancePolicy is not guarded against re-entry, so
    the farmer's account can do so during the transfer when the payout is made
    at the policy's creation timestamp), the policy stays inactive through
    any later transactions and every later call by a verifier reverts with
    "Policy not active". *)
Theorem processInsurancePayout_pays_once keccak256 accounts st sender now id pct :
  roles st VERIFIER_ROLE sender = true →
  CropInsurance.active (insurancePolicies_at st id) = true →
  now <= CropInsurance.endDate (insurancePolicies_at st id) →
  pct <= 100 →
  CropInsurance.insuredValue (insurancePolicies_at st id)
    * CropInsurance.coveragePercentage (insurancePolicies_at st id) * 100 <= MAX_UINT256 →
  let policy := insurancePolicies_at st id in
  let payout := CropInsurance.insuredValue policy
                  * CropInsurance.coveragePercentage policy * pct / 10000 in
  let seen := set_balance (set_insurancePolicy st id (CropInsurance.with_active policy false))
                (balance st - payout) in
  CropInsurance.active (insurancePolicies_at seen id) = false ∧
  (balance st < payout ∨ accounts (CropInsurance.farmer policy) seen = None →
     processInsurancePayout keccak256 accounts st sender now id pct
       = Revert (Error "Payout failed")) ∧
  (∀ calls, payout <= balance st → accounts (CropInsurance.farmer policy) seen = Some calls →
     processInsurancePayout keccak256 accounts st sender now id pct
       = Ok (reenter keccak256 now seen calls) ∧
     ∀ later,
       Forall (λ k, ¬ reentry_creates_policy keccak256 now id k) calls →
       Forall (λ k, ¬ creates_policy keccak256 id k) later →
       insurancePolicies_at (run keccak256 (reenter keccak256 now seen calls) later) id
         = CropInsurance.with_active policy false ∧
       ∀ accounts' caller now' pct',
         roles (run keccak256 (reenter keccak256 now seen calls) later)
           VERIFIER_ROLE caller = true →
         processInsurancePayout keccak256 accounts'
           (run keccak256 (reenter keccak256 now seen calls) later) caller now' id pct'
         = Revert (Error "Policy not active")).
Proof.
  intros Hrole Ha Hnow Hpct Hfit policy payout seen.
  pose proof (processInsurancePayout_effects_accepts st sender now id pct
                Hrole Ha Hnow Hpct Hfit) as Heff.
  fold policy in Heff. fold payout in Heff.
  assert (Hseen : insurancePolicies_at seen id = CropInsurance.with_active policy false).
  { unfold seen. apply (insurancePolicies_at_set_eq (set_balance st _)). }
  split; [rewrite Hseen; reflexivity|]. split.
  - intros Hfail. unfold processInsurancePayout. rewrite Heff. simpl.
    rewrite insurancePolicies_at_set_eq. simpl.
    rewrite call_value_refused by exact Hfail. reflexivity.
  - intros calls Hle Hacc. split.
    + unfold processInsurancePayout. rewrite Heff. simpl.
      rewrite insurancePolicies_at_set_eq. simpl.
      rewrite (call_value_accepted _ _ _ _ _ _ calls) by (simpl; assumption). reflexivity.
    + intros later Hquiet Hfresh.
      assert (Hkept : insurancePolicies_at
                        (run keccak256 (reenter keccak256 now seen calls) later) id
                      = CropInsurance.with_active policy false).
      { rewrite run_policy_kept; [|exact Hfresh|];
          rewrite reenter_policy_kept by exact Hquiet;
          rewrite Hseen; reflexivity. }
      split; [exact Hkept|].
      intros accounts' caller now' pct' Hv.
      apply processInsurancePayout_inactive; [exact Hv | rewrite Hkept; reflexivity].
Qed.

Lemma processInsurancePayout_pays_once_witness :
  overpaid_run = Ok (overpaid_state, overpaid_policy) ∧
  ∃ st2, processInsurancePayout digest plain_accounts overpaid_state 2 2000 overpaid_policy 50
           = Ok st2 ∧
    balance st2 = 1000 ∧
    processInsurancePayout digest plain_accounts
      (run digest st2 [CreateInsurancePolicy 10 5000 3000 "coffee" 10000 80 90])
      2 4000 overpaid_policy 50
    = Revert (Error "Policy not active").
Proof.
  split; [vm_compute; reflexivity|].
  destruct (processInsurancePayout_pays_once digest plain_accounts overpaid_state 2 2000
              overpaid_policy 50) as (_ & _ & H).
  - vm_compute. reflexivity.
  - vm_compute. reflexivity.
  - vm_compute. intros H; discriminate H.
  - vm_compute. intros H; discriminate H.
  - vm_compute. intros H; discriminate H.
  - destruct (H []) as (H1 & H2).
    + vm_compute. intros E; discriminate E.
    + reflexivity.
    + eexists. split; [exact H1|]. split; [vm_compute; reflexivity|].
      destruct (H2 [CreateInsurancePolicy 10 5000 3000 "coffee" 10000 80 90]) as (_ & H3).
      * constructor.
      * repeat constructor. simpl. vm_compute. intros E; discriminate E.
      * apply H3. vm_compute. reflexivity.
Defined.

(** C9. Called by the contract's buyer, [depositEscrow] reverts with
    "Already completed" on a completed contract and with
    "Insufficient payment" when the value sent is below totalAmount;
    otherwise it stores the value sent as escrowAmount. A second qualifying
    deposit overwrites escrowAmount with the new value while the contract
    keeps both deposits: nothing is sent back to the buyer. *)
Theorem depositEscrow_overwrites st sender value id :
  SalesContract.buyer (salesContracts_at st id) = sender →
  (SalesContract.completed (salesContracts_at st id) = true →
     depositEscrow st sender value id = Revert (Error "Already completed")) ∧
  (SalesContract.completed (salesContracts_at st id) = false →
     value < SalesContract.totalAmount (salesContracts_at st id) →
     depositEscrow st sender value id = Revert (Error "Insufficient payment")) ∧
  (SalesContract.completed (salesContracts_at st id) = false →
     SalesContract.totalAmount (salesContracts_at st id) <= value →
     ∃ st1, depositEscrow st sender value id = Ok st1 ∧
       SalesContract.escrowAmount (salesContracts_at st1 id) = value ∧
       balance st1 = balance st + value ∧
       ∀ value2, SalesContract.totalAmount (salesContracts_at st id) <= value2 →
         ∃ st2, depositEscrow st1 sender value2 id = Ok st2 ∧
           SalesContract.escrowAmount (salesContracts_at st2 id) = value2 ∧
           balance st2 = balance st + value + value2).
Proof.
  intros Hb.
  assert (Hstep : ∀ s v, SalesContract.buyer (salesContracts_at s id) = sender →
            SalesContract.completed (salesContracts_at s id) = false →
            SalesContract.totalAmount (salesContracts_at s id) <= v →
            depositEscrow s sender v id
              = Ok (set_salesContract (credit s v) id
                      (SalesContract.with_escrowAmount (salesContracts_at s id) v))).
  { intros s v Hs Hc Ht. unfold depositEscrow, credit.
    rewrite salesContracts_at_set_balance, Hs, N.eqb_refl, Hc. simpl.
    apply N.leb_le in Ht. rewrite Ht. reflexivity. }
  split; [|split].
  - intros Hc. unfold depositEscrow, credit.
    rewrite salesContracts_at_set_balance, Hb, N.eqb_refl, Hc. reflexivity.
  - intros Hc Hlt. unfold depositEscrow, credit.
    rewrite salesContracts_at_set_balance, Hb, N.eqb_refl, Hc. simpl.
    apply N.leb_gt in Hlt. rewrite Hlt. reflexivity.
  - intros Hc Ht. eexists. split; [apply Hstep; assumption|].
    rewrite salesContracts_at_set_eq. split; [reflexivity|]. split; [reflexivity|].
    intros value2 Ht2. eexists. split.
    + apply Hstep; rewrite salesContracts_at_set_eq; simpl; assumption.
    + rewrite salesContracts_at_set_eq. split; reflexivity.
Qed.

Lemma depositEscrow_overwrites_witness :
  sale_run = Ok (sale_state, sale_contract) ∧
  depositEscrow sale_state 20 999 sale_contract = Revert (Error "Insufficient payment") ∧
  ∃ st1 st2, depositEscrow sale_state 20 1000 sale_contract = Ok st1 ∧
    depositEscrow st1 20 1500 sale_contract = Ok st2 ∧
    SalesContract.escrowAmount (salesContracts_at st2 sale_contract) = 1500 ∧
    balance st2 = 2500.
Proof.
  split; [vm_compute; reflexivity|].
  assert (Hb : SalesContract.buyer (salesContracts_at sale_state sale_contract) = 20)
    by (vm_compute; reflexivity).
  split.
  - destruct (depositEscrow_overwrites sale_state 20 999 sale_contract Hb) as (_ & H & _).
    apply H; vm_compute; reflexivity.
  - destruct (depositEscrow_overwrites sale_state 20 1000 sale_contract Hb) as (_ & _ & H).
    destruct H as (st1 & H1 & _ & _ & H2).
    + vm_compute. reflexivity.
    + vm_compute. intros H; discriminate H.
    + destruct (H2 1500) as (st2 & H3 & H4 & H5).
      * vm_compute. intros H; discriminate H.
      * exists st1, st2. split; [exact H1|]. split; [exact H3|]. split; [exact H4|].
        rewrite H5. vm_compute. reflexivity.
Defined.

End AgricultureFacts.

(** ** The sustainability contract: carbon credits *)

Module SustainabilityFacts.
Import Sustainability.

Lemma carbonCredits_at_lookup st id c :
  carbonCredits st !! id = Some c → carbonCredits_at st id = c.
Proof. unfold carbonCredits_at. intros ->. reflexivity. Qed.

Lemma carbonCredits_at_missing st id :
  carbonCredits st !! id = None → carbonCredits_at st id = CarbonCredit_zero.
Proof. unfold carbonCredits_at. intros ->. reflexivity. Qed.

Section CreditSum.
Variable e : address.

Lemma credit_sum_insert_fresh m id c :
  m !! id = None → credit_sum e (<[id := c]> m) = outstanding e c + credit_sum e m.
Proof.
  intros H. unfold credit_sum.
  rewrite map_fold_insert_L; [reflexivity | | exact H].
  intros; cbv beta; lia.
Qed.

Lemma credit_sum_lookup m id c :
  m !! id = Some c → credit_sum e m = outstanding e c + credit_sum e (delete id m).
Proof.
  intros H. unfold credit_sum.
  rewrite (map_fold_delete_L _ _ id c m); [reflexivity | | exact H].
  intros; cbv beta; lia.
Qed.

Lemma credit_sum_insert_over m id c0 c :
  m !! id = Some c0 →
  credit_sum e (<[id := c]> m) + outstanding e c0 = outstanding e c + credit_sum e m.
Proof.
  intros H. rewrite (credit_sum_lookup m id c0 H).
  rewrite <- (insert_delete_eq m id c).
  rewrite credit_sum_insert_fresh by apply lookup_delete_eq. lia.
Qed.

End CreditSum.

(** A stored credit is part of its owner's sum. *)
Lemma outstanding_le_sum st e id :
  outstanding e (carbonCredits_at st id) <= unretired_sum st e.
Proof.
  unfold unretired_sum. destruct (carbonCredits st !! id) as [c|] eqn:H.
  - rewrite (carbonCredits_at_lookup _ _ _ H), (credit_sum_lookup e _ _ _ H). lia.
  - rewrite (carbonCredits_at_missing _ _ H). unfold outstanding.
    destruct (_ && _); apply N.le_0_l.
Qed.

Lemma awardCarbonCredits_Ok keccak256 st sender now _entity _amount _projectType st' id :
  awardCarbonCredits keccak256 st sender now _entity _amount _projectType = Ok (st', id) →
  id = keccak256 [AAddress _entity; AUint _amount; AUint now] ∧
  roles st VERIFIER_ROLE sender = true ∧
  entityCarbonBalance_at st _entity + _amount <= MAX_UINT256 ∧
  ∃ c, entity c = _entity ∧ amount c = _amount ∧ retired c = false ∧
    st' = {| roles := roles st; carbonCreditNFT := carbonCreditNFT st;
             carbonCredits := <[id := c]> (carbonCredits st);
             entityCarbonBalance :=
               <[_entity := entityCarbonBalance_at st _entity + _amount]>
                 (entityCarbonBalance st) |}.
Proof.
  unfold awardCarbonCredits, onlyRole.
  destruct (roles st VERIFIER_ROLE sender); [simpl|discriminate].
  destruct (checked_add (now / YEAR) 1970) as [year|]; [simpl|discriminate].
  destruct (checked_add _ _amount) as [nb|] eqn:Hadd; [simpl|discriminate].
  apply checked_add_Ok in Hadd as [-> Hfit].
  intros [= <- <-]. split; [reflexivity|]. split; [reflexivity|]. split; [exact Hfit|].
  eexists. split; [|split; [|split; [|reflexivity]]]; reflexivity.
Qed.

Lemma retireCredits_Ok st sender id st' :
  retireCredits st sender id = Ok st' →
  entity (carbonCredits_at st id) = sender ∧
  retired (carbonCredits_at st id) = false ∧
  amount (carbonCredits_at st id) <= entityCarbonBalance_at st sender ∧
  st' = {| roles := roles st; carbonCreditNFT := carbonCreditNFT st;
           carbonCredits :=
             <[id := with_retired (carbonCredits_at st id) true]> (carbonCredits st);
           entityCarbonBalance :=
             <[sender := entityCarbonBalance_at st sender - amount (carbonCredits_at st id)]>
               (entityCarbonBalance st) |}.
Proof.
  unfold retireCredits.
  destruct (entity (carbonCredits_at st id) =? sender) eqn:He; [simpl|discriminate].
  destruct (retired (carbonCredits_at st id)) eqn:Hr; [discriminate|simpl].
  unfold checked_sub.
  destruct (amount (carbonCredits_at st id) <=? entityCarbonBalance_at st sender) eqn:Hle;
    [simpl|discriminate].
  apply N.eqb_eq in He. apply N.leb_le in Hle. intros [= <-]. done.
Qed.

Lemma balance_at_insert (m : gmap N N) (a b : address) (v : N) :
  default 0 (<[a := v]> m !! b) = if decide (a = b) then v else default 0 (m !! b).
Proof. rewrite lookup_insert. destruct (decide (a = b)); reflexivity. Qed.

Lemma outstanding_retired e c : outstanding e (with_retired c true) = 0.
Proof. unfold outstanding. simpl. rewrite andb_false_r. reflexivity. Qed.

Lemma outstanding_live e c :
  retired c = false → outstanding e c = if decide (entity c = e) then amount c else 0.
Proof.
  intros Hr. unfold outstanding. rewrite Hr, andb_true_r.
  destruct (decide (entity c = e)) as [->|Hne].
  - rewrite N.eqb_refl. reflexivity.
  - apply N.eqb_neq in Hne. rewrite Hne. reflexivity.
Qed.

(** How a write to [carbonCredits] moves the sum, whether or not the slot
    was in use. *)
Lemma credit_sum_insert_le e m id c :
  credit_sum e (<[id := c]> m) <= outstanding e c + credit_sum e m.
Proof.
  destruct (m !! id) as [c0|] eqn:H.
  - pose proof (credit_sum_insert_over e m id c0 c H). lia.
  - rewrite credit_sum_insert_fresh by exact H. lia.
Qed.

Lemma credit_sum_retire e st id :
  credit_sum e (<[id := with_retired (carbonCredits_at st id) true]> (carbonCredits st))
    + outstanding e (carbonCredits_at st id)
  = credit_sum e (carbonCredits st).
Proof.
  destruct (carbonCredits st !! id) as [c0|] eqn:H.
  - rewrite (carbonCredits_at_lookup _ _ _ H).
    pose proof (credit_sum_insert_over e _ id c0 (with_retired c0 true) H) as Hs.
    rewrite outstanding_retired in Hs. lia.
  - rewrite (carbonCredits_at_missing _ _ H).
    rewrite credit_sum_insert_fresh by exact H.
    rewrite outstanding_retired.
    assert (outstanding e CarbonCredit_zero = 0) as ->; [|lia].
    unfold outstanding. destruct (_ && _); reflexivity.
Qed.

Lemma constructor_exact deployer nft : balance_exact (constructor deployer nft).
Proof. intros e. reflexivity. Qed.

Lemma balance_exact_covers st : balance_exact st → balance_covers st.
Proof. intros H e. rewrite (H e). lia. Qed.

Section Runs.
Variable keccak256 : list abi_item → bytes32.

Lemma step_covers st c : balance_covers st → balance_covers (step keccak256 st c).
Proof.
  intros Hinv. destruct c as [sender r account | sender now _entity _amount pt | sender id];
    simpl.
  - unfold grantRole. destruct (onlyRole _ _ _); exact Hinv.
  - destruct (awardCarbonCredits _ _ _ _ _ _ _) as [[st' id]|] eqn:Haward; [simpl|exact Hinv].
    apply awardCarbonCredits_Ok in Haward as (_ & _ & _ & c & Hent & Ham & Hret & ->).
    intros e. unfold unretired_sum, entityCarbonBalance_at. simpl.
    rewrite balance_at_insert.
    pose proof (credit_sum_insert_le e (carbonCredits st) id c) as Hle.
    rewrite (outstanding_live e c Hret), Hent, Ham in Hle.
    specialize (Hinv e). unfold unretired_sum, entityCarbonBalance_at in Hinv.
    destruct (decide (_entity = e)) as [->|Hne]; lia.
  - destruct (retireCredits st sender id) as [st'|] eqn:Hret; [simpl|exact Hinv].
    apply retireCredits_Ok in Hret as (Hent & Hlive & Hle & ->).
    intros e. unfold unretired_sum, entityCarbonBalance_at. simpl.
    rewrite balance_at_insert.
    pose proof (credit_sum_retire e st id) as Hs.
    rewrite (outstanding_live e _ Hlive), Hent in Hs.
    specialize (Hinv e). unfold unretired_sum, entityCarbonBalance_at in Hinv.
    unfold entityCarbonBalance_at in Hle.
    destruct (decide (sender = e)) as [->|Hne]; lia.
Qed.

Lemma step_exact st c :
  balance_exact st → fresh_awards keccak256 st [c] → balance_exact (step keccak256 st c).
Proof.
  intros Hinv [Hfresh _].
  destruct c as [sender r account | sender now _entity _amount pt | sender id]; simpl.
  - unfold grantRole. destruct (onlyRole _ _ _); exact Hinv.
  - destruct (awardCarbonCredits _ _ _ _ _ _ _) as [[st' id]|] eqn:Haward; [simpl|exact Hinv].
    apply awardCarbonCredits_Ok in Haward as (-> & _ & _ & c & Hent & Ham & Hret & ->).
    intros e. unfold unretired_sum, entityCarbonBalance_at. simpl.
    rewrite balance_at_insert, credit_sum_insert_fresh by exact Hfresh.
    rewrite (outstanding_live e c Hret), Hent, Ham.
    specialize (Hinv e). unfold unretired_sum, entityCarbonBalance_at in Hinv.
    destruct (decide (_entity = e)) as [->|Hne]; lia.
  - destruct (retireCredits st sender id) as [st'|] eqn:Hret; [simpl|exact Hinv].
    apply retireCredits_Ok in Hret as (Hent & Hlive & Hle & ->).
    intros e. unfold unretired_sum, entityCarbonBalance_at. simpl.
    rewrite balance_at_insert.
    pose proof (credit_sum_retire e st id) as Hs.
    rewrite (outstanding_live e _ Hlive), Hent in Hs.
    specialize (Hinv e). unfold unretired_sum, entityCarbonBalance_at in Hinv.
    unfold entityCarbonBalance_at in Hle.
    destruct (decide (sender = e)) as [->|Hne]; lia.
Qed.

Lemma run_covers calls : ∀ st, balance_covers st → balance_covers (run keccak256 st calls).
Proof.
  induction calls as [|c rest IH]; intros st Hinv; [exact Hinv|].
  simpl. apply IH, step_covers, Hinv.
Qed.

Lemma run_exact calls : ∀ st,
  balance_exact st → fresh_awards keccak256 st calls →
  balance_exact (run keccak256 st calls).
Proof.
  induction calls as [|c rest IH]; intros st Hinv Hfresh; [exact Hinv|].
  destruct Hfresh as [Hc Hrest]. simpl. apply IH; [|exact Hrest].
  apply step_exact; [exact Hinv|]. split; [exact Hc | exact I].
Qed.

(** Where the balance covers the outstanding credits, [retireCredits] cannot
    underflow: it succeeds or fails one of its two [require]s. *)
Lemma retireCredits_no_underflow st sender id :
  balance_covers st →
  (entity (carbonCredits_at st id) = sender → retired (carbonCredits_at st id) = false →
     ∃ st', retireCredits st sender id = Ok st') ∧
  retireCredits st sender id ≠ Revert (Panic ARITHMETIC).
Proof.
  intros Hinv.
  assert (Hok : entity (carbonCredits_at st id) = sender →
                retired (carbonCredits_at st id) = false →
                ∃ st', retireCredits st sender id = Ok st').
  { intros He Hr. subst sender. unfold retireCredits. rewrite N.eqb_refl, Hr. simpl.
    pose proof (outstanding_le_sum st (entity (carbonCredits_at st id)) id) as Hle.
    rewrite (outstanding_live _ _ Hr), decide_True in Hle by reflexivity.
    specialize (Hinv (entity (carbonCredits_at st id))).
    rewrite checked_sub_fits by lia. simpl. eauto. }
  split; [exact Hok|].
  destruct (decide (entity (carbonCredits_at st id) = sender)) as [He|He].
  - destruct (retired (carbonCredits_at st id)) eqn:Hr.
    + unfold retireCredits. rewrite He, N.eqb_refl, Hr. discriminate.
    + destruct (Hok He eq_refl) as [st' ->]. discriminate.
  - unfold retireCredits. apply N.eqb_neq in He. rewrite He. discriminate.
Qed.

End Runs.

(** C6. Whenever [awardCarbonCredits] succeeds and returns a creditId, a
    [retireCredits] of that creditId by the entity succeeds and takes the
    entity's balance back to what it was before the award, and a second
    [retireCredits] of the same creditId reverts with "Already retired". *)
Theorem award_retire_roundtrip keccak256 st sender now _entity _amount _projectType st1 id :
  awardCarbonCredits keccak256 st sender now _entity _amount _projectType = Ok (st1, id) →
  entityCarbonBalance_at st1 _entity = entityCarbonBalance_at st _entity + _amount ∧
  ∃ st2, retireCredits st1 _entity id = Ok st2 ∧
    entityCarbonBalance_at st2 _entity = entityCarbonBalance_at st _entity ∧
    retired (carbonCredits_at st2 id) = true ∧
    retireCredits st2 _entity id = Revert (Error "Already retired").
Proof.
  intros Haward.
  apply awardCarbonCredits_Ok in Haward as (_ & _ & _ & c & Hent & Ham & Hret & Hst1).
  assert (Hbal : entityCarbonBalance_at st1 _entity
                 = entityCarbonBalance_at st _entity + _amount).
  { subst st1. unfold entityCarbonBalance_at at 1. simpl.
    rewrite lookup_insert_eq. reflexivity. }
  assert (Hcred : carbonCredits_at st1 id = c).
  { subst st1. unfold carbonCredits_at. simpl. rewrite lookup_insert_eq. reflexivity. }
  split; [exact Hbal|].
  unfold retireCredits at 1. rewrite Hcred, Hent, N.eqb_refl, Hret, Hbal, Ham. simpl.
  rewrite checked_sub_fits by lia. simpl.
  eexists. split; [reflexivity|]. split; [|split].
  - unfold entityCarbonBalance_at at 1. simpl. rewrite lookup_insert_eq. simpl. lia.
  - unfold carbonCredits_at. simpl. rewrite lookup_insert_eq. reflexivity.
  - unfold retireCredits, carbonCredits_at. simpl. rewrite lookup_insert_eq. simpl.
    rewrite Hent, N.eqb_refl. reflexivity.
Qed.

Lemma award_retire_roundtrip_witness :
  awardCarbonCredits digest verifier_state 2 1000 7 1000 "organic"
    = Ok (awarded_state, awarded_credit) ∧
  entityCarbonBalance_at verifier_state 7 = 0 ∧
  entityCarbonBalance_at awarded_state 7 = 1000 ∧
  ∃ st2, retireCredits awarded_state 7 awarded_credit = Ok st2 ∧
    entityCarbonBalance_at st2 7 = 0 ∧
    retireCredits st2 7 awarded_credit = Revert (Error "Already retired").
Proof.
  assert (H1 : awardCarbonCredits digest verifier_state 2 1000 7 1000 "organic"
               = Ok (awarded_state, awarded_credit)) by (vm_compute; reflexivity).
  destruct (award_retire_roundtrip _ _ _ _ _ _ _ _ _ H1) as (Hb & st2 & H2 & H3 & _ & H4).
  split; [exact H1|]. split; [reflexivity|]. split; [rewrite Hb; reflexivity|].
  exists st2. split; [exact H2|]. split; [rewrite H3; reflexivity | exact H4].
Defined.

(** An award that re-uses the creditId of a live credit of the same entity
    and amount adds to the balance and leaves the outstanding sum as it was. *)
Lemma repeated_award_counts_twice keccak256 st sender sender' now _entity _amount pt pt'
    st1 id1 st2 id2 :
  awardCarbonCredits keccak256 st sender now _entity _amount pt = Ok (st1, id1) →
  awardCarbonCredits keccak256 st1 sender' now _entity _amount pt' = Ok (st2, id2) →
  id2 = id1 ∧
  entityCarbonBalance_at st2 _entity = entityCarbonBalance_at st1 _entity + _amount ∧
  unretired_sum st2 _entity = unretired_sum st1 _entity.
Proof.
  intros H1 H2.
  apply awardCarbonCredits_Ok in H1 as (-> & _ & _ & c1 & He1 & Ha1 & Hr1 & ->).
  apply awardCarbonCredits_Ok in H2 as (-> & _ & _ & c2 & He2 & Ha2 & Hr2 & ->).
  split; [reflexivity|]. split.
  - unfold entityCarbonBalance_at at 1. simpl. rewrite lookup_insert_eq. reflexivity.
  - unfold unretired_sum. simpl.
    pose proof (credit_sum_insert_over _entity
                  (<[keccak256 [AAddress _entity; AUint _amount; AUint now] := c1]>
                     (carbonCredits st))
                  (keccak256 [AAddress _entity; AUint _amount; AUint now]) c1 c2
                  (lookup_insert_eq _ _ _)) as Hs.
    rewrite (outstanding_live _ _ Hr1), (outstanding_live _ _ Hr2) in Hs.
    rewrite He1, He2, Ha1, Ha2 in Hs. lia.
Qed.

(** C10, as the claim states it, fails when the same award is issued twice
    within one timestamp: both awards get the same creditId, the second
    overwrites the stored credit, and the balance counts the amount twice.
    After [double_award] entity 7 has a balance of 200 and outstanding credits
    of 100. *)
Lemma double_award_counterexample :
  entityCarbonBalance_at (run digest (constructor 1 300) double_award) 7 = 200 ∧
  unretired_sum (run digest (constructor 1 300) double_award) 7 = 100.
Proof. split; vm_compute; reflexivity. Qed.

(** C10 (amended). After any sequence of role grants, awards and retirements
    on a freshly deployed contract, every entity's balance is at least the
    sum of the amounts of the stored credits it owns that are not retired,
    and equal to it as long as no award was given a creditId already in use;
    consequently the decrement in [retireCredits] never underflows: a
    retirement by the owner of a credit that is not retired succeeds. *)
Theorem carbon_balance_covers_unretired keccak256 deployer nft calls e :
  unretired_sum (run keccak256 (constructor deployer nft) calls) e
    <= entityCarbonBalance_at (run keccak256 (constructor deployer nft) calls) e ∧
  (fresh_awards keccak256 (constructor deployer nft) calls →
     entityCarbonBalance_at (run keccak256 (constructor deployer nft) calls) e
       = unretired_sum (run keccak256 (constructor deployer nft) calls) e) ∧
  (∀ sender id,
     retireCredits (run keccak256 (constructor deployer nft) calls) sender id
       ≠ Revert (Panic ARITHMETIC)) ∧
  (∀ sender id,
     entity (carbonCredits_at (run keccak256 (constructor deployer nft) calls) id) = sender →
     retired (carbonCredits_at (run keccak256 (constructor deployer nft) calls) id) = false →
     ∃ st', retireCredits (run keccak256 (constructor deployer nft) calls) sender id = Ok st').
Proof.
  pose proof (run_covers keccak256 calls _
                (balance_exact_covers _ (constructor_exact deployer nft))) as Hcov.
  split; [apply Hcov|]. split; [|split].
  - intros Hfresh. apply run_exact; [apply constructor_exact | exact Hfresh].
  - intros sender id. apply retireCredits_no_underflow, Hcov.
  - intros sender id. apply retireCredits_no_underflow, Hcov.
Qed.

Lemma carbon_balance_covers_unretired_witness :
  fresh_awards digest (constructor 1 300) two_awards ∧
  entityCarbonBalance_at (run digest (constructor 1 300) two_awards) 7 = 150 ∧
  unretired_sum (run digest (constructor 1 300) two_awards) 7 = 150.
Proof.
  assert (Hfresh : fresh_awards digest (constructor 1 300) two_awards).
  { vm_compute. repeat split; reflexivity. }
  destruct (carbon_balance_covers_unretired digest 1 300 two_awards 7) as (_ & Heq & _).
  split; [exact Hfresh|]. split.
  - vm_compute. reflexivity.
  - rewrite <- (Heq Hfresh). vm_compute. reflexivity.
Defined.

End SustainabilityFacts.

(** ** The healthcare contract: visit billing *)

Module HealthcareFacts.
Import Healthcare.

Lemma coverage_split_Ok policy _cost covered payment :
  coverage_split policy _cost = Ok (covered, payment) →
  covered = (if HealthInsurance.active policy
                && (_cost <=? HealthInsurance.coverageLimit policy)
             then _cost * 80 / 100 else 0) ∧
  payment = _cost - covered.
Proof.
  unfold coverage_split.
  destruct (HealthInsurance.active policy && _) eqn:E.
  - destruct (checked_mul _cost 80) as [scaled|] eqn:Hmul; [simpl|discriminate].
    apply checked_mul_Ok in Hmul as [-> _].
    unfold checked_sub. destruct (_ / 100 <=? _cost); simpl; [|discriminate].
    intros [= <- <-]. done.
  - intros [= <- <-]. rewrite N.sub_0_r. done.
Qed.

Lemma coverage_split_fits policy _cost :
  (HealthInsurance.active policy && (_cost <=? HealthInsurance.coverageLimit policy) = true →
   _cost * 80 <= MAX_UINT256) →
  ∃ covered payment, coverage_split policy _cost = Ok (covered, payment).
Proof.
  intros Hfit. unfold coverage_split.
  destruct (HealthInsurance.active policy && _) eqn:E; [|eauto].
  rewrite checked_mul_fits by auto. simpl.
  rewrite checked_sub_fits; [simpl; eauto|].
  transitivity (_cost * 80 / 80).
  - apply N.div_le_compat_l. lia.
  - rewrite N.div_mul by lia. lia.
Qed.

Lemma recordVisit_Ok keccak256 st sender now _patient _facility _diagnosis _cost st' id :
  recordVisit keccak256 st sender now _patient _facility _diagnosis _cost = Ok (st', id) →
  id = keccak256 [AAddress _patient; AAddress _facility; AUint now] ∧
  ∃ covered payment,
    coverage_split (insurancePolicies_at st (patientInsurance_at st _patient)) _cost
      = Ok (covered, payment) ∧
    visits_at st' id
      = HealthcareVisit.mk id _patient _facility _diagnosis _cost covered payment now.
Proof.
  unfold recordVisit.
  destruct (onlyRole _ _ _) as [[]|]; [simpl|discriminate].
  destruct (coverage_split _ _cost) as [[c p]|] eqn:Hsplit; [simpl|discriminate].
  intros [= <- <-]. split; [reflexivity|]. exists c, p. split; [reflexivity|].
  unfold visits_at. simpl. rewrite lookup_insert_eq. reflexivity.
Qed.

(** C7. The visit record that [recordVisit] creates carries the coverage
    split computed in that call: when the patient's current policy is active
    and cost <= coverageLimit, insuranceCovered = floor(cost * 80 / 100) and
    patientPayment = cost - insuranceCovered; otherwise insuranceCovered = 0
    and patientPayment = cost. A provider's call succeeds whenever cost * 80
    fits in uint256 (or the visit is not covered); for cost = 2500 under an
    active policy with coverageLimit >= 2500 it stores the split 2000 and
    500. The other functions of the contract leave the stored visits as they
    are. *)
Theorem recordVisit_coverage_split keccak256 st sender now _patient _facility _diagnosis _cost :
  let policy := insurancePolicies_at st (patientInsurance_at st _patient) in
  let covered :=
    HealthInsurance.active policy && (_cost <=? HealthInsurance.coverageLimit policy) in
  let insuranceCovered := if covered then _cost * 80 / 100 else 0 in
  (∀ st' id,
     recordVisit keccak256 st sender now _patient _facility _diagnosis _cost = Ok (st', id) →
     HealthcareVisit.cost (visits_at st' id) = _cost ∧
     HealthcareVisit.insuranceCovered (visits_at st' id) = insuranceCovered ∧
     HealthcareVisit.patientPayment (visits_at st' id) = _cost - insuranceCovered) ∧
  (roles st PROVIDER_ROLE sender = true →
   (covered = true → _cost * 80 <= MAX_UINT256) →
     ∃ st' id,
       recordVisit keccak256 st sender now _patient _facility _diagnosis _cost = Ok (st', id)) ∧
  (roles st PROVIDER_ROLE sender = true → _cost = 2500 → covered = true →
     ∃ st' id,
       recordVisit keccak256 st sender now _patient _facility _diagnosis _cost = Ok (st', id) ∧
       HealthcareVisit.insuranceCovered (visits_at st' id) = 2000 ∧
       HealthcareVisit.patientPayment (visits_at st' id) = 500) ∧
  (∀ who when plan premium limit auto st' pid,
     createInsurancePolicy keccak256 st who when plan premium limit auto = Ok (st', pid) →
     visits st' = visits st) ∧
  (∀ who amount st' ok, deductPremium st who amount = Ok (st', ok) → visits st' = visits st).
Proof.
  intros policy covered insuranceCovered.
  assert (Hrec : ∀ st' id,
     recordVisit keccak256 st sender now _patient _facility _diagnosis _cost = Ok (st', id) →
     HealthcareVisit.cost (visits_at st' id) = _cost ∧
     HealthcareVisit.insuranceCovered (visits_at st' id) = insuranceCovered ∧
     HealthcareVisit.patientPayment (visits_at st' id) = _cost - insuranceCovered).
  { intros st' id Hrun.
    apply recordVisit_Ok in Hrun as (_ & c & p & Hsplit & ->).
    apply coverage_split_Ok in Hsplit as [-> ->]. done. }
  assert (Hok : roles st PROVIDER_ROLE sender = true →
     (covered = true → _cost * 80 <= MAX_UINT256) →
     ∃ st' id,
       recordVisit keccak256 st sender now _patient _facility _diagnosis _cost = Ok (st', id)).
  { intros Hrole Hfit. unfold recordVisit.
    rewrite (onlyRole_has _ _ _ Hrole). simpl. fold policy.
    destruct (coverage_split_fits policy _cost Hfit) as (c & p & ->). simpl. eauto. }
  split; [exact Hrec|]. split; [exact Hok|]. split; [|split].
  - intros Hrole Hcost Hcov.
    destruct (Hok Hrole) as (st' & id & Hrun).
    { intros _. rewrite Hcost. unfold MAX_UINT256. lia. }
    exists st', id. split; [exact Hrun|].
    destruct (Hrec st' id Hrun) as (_ & -> & ->).
    unfold insuranceCovered. rewrite Hcov, Hcost. split; reflexivity.
  - intros * H. unfold createInsurancePolicy in H. injection H as <- _. reflexivity.
  - intros who amount st' ok. unfold deductPremium.
    destruct (require _ "Policy not active") as [[]|]; [simpl|discriminate].
    destruct (require _ "Auto-deduct not enabled") as [[]|]; [simpl|discriminate].
    destruct (require _ "Insufficient amount") as [[]|]; [simpl|discriminate].
    intros [= <- _]. reflexivity.
Qed.

Lemma recordVisit_coverage_split_witness :
  ∃ st' id, recordVisit digest insured_patient 3 2000 7 30 "Routine checkup" 2500 = Ok (st', id) ∧
    HealthcareVisit.insuranceCovered (visits_at st' id) = 2000 ∧
    HealthcareVisit.patientPayment (visits_at st' id) = 500.
Proof.
  destruct (recordVisit_coverage_split digest insured_patient 3 2000 7 30 "Routine checkup" 2500)
    as (_ & _ & Hex & _).
  apply Hex.
  - vm_compute. reflexivity.
  - reflexivity.
  - vm_compute. reflexivity.
Defined.

End HealthcareFacts.

(** ** Identifiers *)

Module IdentifierFacts.

Lemma recordHarvest_id keccak256 st sender now crop qty grade st' id :
  Agriculture.recordHarvest keccak256 st sender now crop qty grade = Ok (st', id) →
  id = keccak256 [AAddress sender; AString crop; AUint qty; AUint now].
Proof.
  unfold Agriculture.recordHarvest.
  destruct (require (0 <? qty) _) as [[]|]; [simpl|discriminate].
  destruct (require _ "Invalid grade") as [[]|]; [simpl|discriminate].
  intros [= _ <-]. reflexivity.
Qed.

Lemma createSalesContract_id keccak256 st sender now buyer harvest qty price st' id :
  Agriculture.createSalesContract keccak256 st sender now buyer harvest qty price
    = Ok (st', id) →
  id = keccak256 [AAddress sender; AAddress buyer; ABytes32 harvest; AUint now].
Proof.
  unfold Agriculture.createSalesContract.
  destruct (require _ "Not harvest owner") as [[]|]; [simpl|discriminate].
  destruct (require _ "Insufficient quantity") as [[]|]; [simpl|discriminate].
  destruct (require _ "Invalid buyer") as [[]|]; [simpl|discriminate].
  destruct (checked_mul qty price) as [total|]; [simpl|discriminate].
  intros [= _ <-]. reflexivity.
Qed.

Lemma createInsurancePolicy_id keccak256 st sender value now crop insured coverage days st' id :
  Agriculture.createInsurancePolicy keccak256 st sender value now crop insured coverage days
    = Ok (st', id) →
  id = keccak256 [AAddress sender; AString crop; AUint now].
Proof.
  unfold Agriculture.createInsurancePolicy.
  destruct (require _ "Invalid insured value") as [[]|]; [simpl|discriminate].
  destruct (require _ "Invalid coverage") as [[]|]; [simpl|discriminate].
  destruct (checked_mul insured 4) as [scaled|]; [simpl|discriminate].
  destruct (require _ "Insufficient premium") as [[]|]; [simpl|discriminate].
  destruct (checked_mul days _) as [duration|]; [simpl|discriminate].
  destruct (checked_add now duration) as [endDate|]; [simpl|discriminate].
  intros [= _ <-]. reflexivity.
Qed.

Lemma createCrossModuleTransaction_id keccak256 st sender now modules value st' id :
  Orchestrator.createCrossModuleTransaction keccak256 st sender now modules value
    = Ok (st', id) →
  id = keccak256 [AAddress sender; AUint now; AStrings modules; AUint value].
Proof.
  unfold Orchestrator.createCrossModuleTransaction.
  destruct (Orchestrator.whenNotPaused st) as [[]|]; [simpl|discriminate].
  destruct (require _ "Entity not verified") as [[]|]; [simpl|discriminate].
  destruct (require _ "No modules specified") as [[]|]; [simpl|discriminate].
  intros [= _ <-]. reflexivity.
Qed.

Lemma health_createInsurancePolicy_id keccak256 st sender now plan premium limit auto st' id :
  Healthcare.createInsurancePolicy keccak256 st sender now plan premium limit auto
    = Ok (st', id) →
  id = keccak256 [AAddress sender; AString plan; AUint now].
Proof. unfold Healthcare.createInsurancePolicy. intros [= _ <-]. reflexivity. Qed.

Lemma awardCarbonCredits_id keccak256 st sender now entity amount project st' id :
  Sustainability.awardCarbonCredits keccak256 st sender now entity amount project
    = Ok (st', id) →
  id = keccak256 [AAddress entity; AUint amount; AUint now].
Proof.
  intros H. apply SustainabilityFacts.awardCarbonCredits_Ok in H as [-> _]. reflexivity.
Qed.

(** C3, as the claim states it, fails: there is no sequence counter. The
    farmer's harvest recorded twice with the same crop, quantity and grade
    at the same timestamp gets the same harvestId both times (the farmer's
    index then lists it twice), and the same award issued twice at the same
    timestamp gets the same creditId. *)
Lemma identical_requests_counterexample :
  ∃ st1 id1 st2 id2,
    Agriculture.recordHarvest digest (Agriculture.constructor 1 100 200)
      10 1000 "coffee" 1300 5 = Ok (st1, id1) ∧
    Agriculture.recordHarvest digest st1 10 1000 "coffee" 1300 5 = Ok (st2, id2) ∧
    id1 = id2 ∧
    Agriculture.getFarmerHarvests st2 10 = [id1; id1] ∧
    ∃ st3 id3,
      Sustainability.awardCarbonCredits digest Sustainability.awarded_state
        2 1000 7 1000 "organic" = Ok (st3, id3) ∧
      id3 = Sustainability.awarded_credit.
Proof.
  do 4 eexists. split; [vm_compute; reflexivity|].
  split; [vm_compute; reflexivity|].
  split; [reflexivity|]. split; [vm_compute; reflexivity|].
  do 2 eexists. split; vm_compute; reflexivity.
Qed.

(** C3 (amended). For each record-creating operation the identifier is the
    hash of the block timestamp and a few of the call's own inputs, and of
    nothing else: recordHarvest hashes (sender, cropType, quantity,
    timestamp), createSalesContract (sender, buyer, harvestId, timestamp),
    createInsurancePolicy (sender, cropType, timestamp) and
    awardCarbonCredits (entity, amount, timestamp); likewise the
    orchestrator's createCrossModuleTransaction (sender, timestamp, modules,
    value) and the healthcare contract's createInsurancePolicy (sender,
    planType, timestamp) and recordVisit (patient, facility, timestamp). Hence
    two successful requests that agree on these inputs and on the timestamp
    yield the same identifier, whatever the state they run in. *)
Theorem identifiers_hash_inputs_and_timestamp keccak256 :
  (∀ st st' sender now crop qty grade grade' r r' id id',
     Agriculture.recordHarvest keccak256 st sender now crop qty grade = Ok (r, id) →
     Agriculture.recordHarvest keccak256 st' sender now crop qty grade' = Ok (r', id') →
     id = keccak256 [AAddress sender; AString crop; AUint qty; AUint now] ∧ id' = id) ∧
  (∀ st st' sender now buyer harvest qty qty' price price' r r' id id',
     Agriculture.createSalesContract keccak256 st sender now buyer harvest qty price
       = Ok (r, id) →
     Agriculture.createSalesContract keccak256 st' sender now buyer harvest qty' price'
       = Ok (r', id') →
     id = keccak256 [AAddress sender; AAddress buyer; ABytes32 harvest; AUint now]
     ∧ id' = id) ∧
  (∀ st st' sender now crop value value' insured insured' coverage coverage' days days'
     r r' id id',
     Agriculture.createInsurancePolicy keccak256 st sender value now crop insured coverage days
       = Ok (r, id) →
     Agriculture.createInsurancePolicy keccak256 st' sender value' now crop insured' coverage'
       days' = Ok (r', id') →
     id = keccak256 [AAddress sender; AString crop; AUint now] ∧ id' = id) ∧
  (∀ st st' sender sender' now entity amount project project' r r' id id',
     Sustainability.awardCarbonCredits keccak256 st sender now entity amount project
       = Ok (r, id) →
     Sustainability.awardCarbonCredits keccak256 st' sender' now entity amount project'
       = Ok (r', id') →
     id = keccak256 [AAddress entity; AUint amount; AUint now] ∧ id' = id) ∧
  (∀ st st' sender now modules value r r' id id',
     Orchestrator.createCrossModuleTransaction keccak256 st sender now modules value
       = Ok (r, id) →
     Orchestrator.createCrossModuleTransaction keccak256 st' sender now modules value
       = Ok (r', id') →
     id = keccak256 [AAddress sender; AUint now; AStrings modules; AUint value] ∧ id' = id) ∧
  (∀ st st' sender now plan premium premium' limit limit' auto auto' r r' id id',
     Healthcare.createInsurancePolicy keccak256 st sender now plan premium limit auto
       = Ok (r, id) →
     Healthcare.createInsurancePolicy keccak256 st' sender now plan premium' limit' auto'
       = Ok (r', id') →
     id = keccak256 [AAddress sender; AString plan; AUint now] ∧ id' = id) ∧
  (∀ st st' sender sender' now patient facility diagnosis diagnosis' cost cost' r r' id id',
     Healthcare.recordVisit keccak256 st sender now patient facility diagnosis cost
       = Ok (r, id) →
     Healthcare.recordVisit keccak256 st' sender' now patient facility diagnosis' cost'
       = Ok (r', id') →
     id = keccak256 [AAddress patient; AAddress facility; AUint now] ∧ id' = id).
Proof.
  repeat apply conj; intros * H H'.
  - apply recordHarvest_id in H, H'. split; congruence.
  - apply createSalesContract_id in H, H'. split; congruence.
  - apply createInsurancePolicy_id in H, H'. split; congruence.
  - apply awardCarbonCredits_id in H, H'. split; congruence.
  - apply createCrossModuleTransaction_id in H, H'. split; congruence.
  - apply health_createInsurancePolicy_id in H, H'. split; congruence.
  - apply HealthcareFacts.recordVisit_Ok in H as [H _], H' as [H' _]. split; congruence.
Qed.

Lemma identifiers_hash_inputs_and_timestamp_witness :
  ∃ st1 id1 st2 id2,
    Agriculture.recordHarvest digest (Agriculture.constructor 1 100 200)
      10 1000 "coffee" 1300 5 = Ok (st1, id1) ∧
    Agriculture.recordHarvest digest st1 10 1000 "coffee" 1300 4 = Ok (st2, id2) ∧
    id2 = id1.
Proof.
  destruct (identifiers_hash_inputs_and_timestamp digest) as (Hharvest & _).
  destruct (Agriculture.recordHarvest digest (Agriculture.constructor 1 100 200)
              10 1000 "coffee" 1300 5) as [[st1 id1]|] eqn:E1; [|discriminate E1].
  destruct (Agriculture.recordHarvest digest st1 10 1000 "coffee" 1300 4)
    as [[st2 id2]|] eqn:E2; [|discriminate E2].
  exists st1, id1, st2, id2. split; [reflexivity|]. split; [exact E2|].
  exact (proj2 (Hharvest _ _ _ _ _ _ _ _ _ _ _ _ E1 E2)).
Defined.

End IdentifierFacts.

(** * Further properties *)

(** ** The orchestrator beyond the claims *)

Module OrchestratorExtras.
Import Orchestrator OrchestratorAdmin OrchestratorFacts.

Lemma transactions_at_set_entity st a e id :
  transactions_at (set_entity st a e) id = transactions_at st id.
Proof. reflexivity. Qed.

Lemma entities_at_set_transaction st id t a :
  entities_at (set_transaction st id t) a = entities_at st a.
Proof. reflexivity. Qed.

Lemma transactions_at_set_ne st id id' t :
  id ≠ id' → transactions_at (set_transaction st id t) id' = transactions_at st id'.
Proof.
  intros H. unfold transactions_at, set_transaction. simpl.
  rewrite lookup_insert_ne by done. reflexivity.
Qed.

(** X2. [verifyEntity]: who may call it, what it rejects, and that it changes
    the verified flag of that one entity and nothing else. *)
Theorem verifyEntity_outcomes st sender _entity :
  (roles st VERIFIER_ROLE sender = false →
     verifyEntity st sender _entity = Revert (MissingRole VERIFIER_ROLE sender)) ∧
  (roles st VERIFIER_ROLE sender = true → ¬ registered st _entity →
     verifyEntity st sender _entity = Revert (Error "Entity not found")) ∧
  (roles st VERIFIER_ROLE sender = true → registered st _entity →
   verified (entities_at st _entity) = true →
     verifyEntity st sender _entity = Revert (Error "Already verified")) ∧
  (roles st VERIFIER_ROLE sender = true → registered st _entity →
   verified (entities_at st _entity) = false →
     ∃ st', verifyEntity st sender _entity = Ok st' ∧
       entities_at st' _entity = with_verified (entities_at st _entity) true ∧
       (∀ other, other ≠ _entity → entities_at st' other = entities_at st other) ∧
       transactions st' = transactions st ∧ roles st' = roles st ∧ paused st' = paused st).
Proof.
  unfold verifyEntity, onlyRole, registered. repeat split.
  - intros ->. reflexivity.
  - intros -> Hreg. apply dec_stable in Hreg. rewrite Hreg. reflexivity.
  - intros -> Hreg Hv. apply N.eqb_neq in Hreg. rewrite Hreg, Hv. reflexivity.
  - intros -> Hreg Hv. apply N.eqb_neq in Hreg. rewrite Hreg, Hv. simpl.
    eexists. split; [reflexivity|]. rewrite entities_at_set_eq.
    split; [reflexivity|]. split; [|done].
    intros other Hne. apply entities_at_set_ne. done.
Qed.

(** X3. [createCrossModuleTransaction]: the pause gate, the verified-only gate
    and the module check, in that order; on success the transaction is stored
    as Pending under the returned id with the caller as initiator. *)
Theorem createCrossModuleTransaction_outcomes keccak256 st sender now
    (_modules : list string) _value :
  (paused st = true →
     createCrossModuleTransaction keccak256 st sender now _modules _value
       = Revert EnforcedPause) ∧
  (paused st = false → verified (entities_at st sender) = false →
     createCrossModuleTransaction keccak256 st sender now _modules _value
       = Revert (Error "Entity not verified")) ∧
  (paused st = false → verified (entities_at st sender) = true → _modules = [] →
     createCrossModuleTransaction keccak256 st sender now _modules _value
       = Revert (Error "No modules specified")) ∧
  (paused st = false → verified (entities_at st sender) = true → _modules ≠ [] →
     ∃ st' id,
       createCrossModuleTransaction keccak256 st sender now _modules _value = Ok (st', id) ∧
       getTransaction st' id
         = {| txId := id; initiator := sender; involvedModules := _modules;
              status := PENDING; timestamp := now; value := _value |} ∧
       entities st' = entities st).
Proof.
  unfold createCrossModuleTransaction, whenNotPaused. repeat split.
  - intros ->. reflexivity.
  - intros -> ->. reflexivity.
  - intros -> -> ->. reflexivity.
  - intros -> -> Hne. destruct _modules as [|m ms]; [done|]. simpl.
    do 2 eexists. split; [reflexivity|]. split; [|reflexivity].
    unfold getTransaction. rewrite transactions_at_set_eq. reflexivity.
Qed.

Lemma updateReputation_clamps_witness :
  ∃ st st', registry_run = Ok st ∧
    updateReputation st 9 7 (-700)%Z = Ok st' ∧
    reputationScore (entities_at st' 7) = 0.
Proof.
  exists (get_ok (constructor 0) registry_run).
  destruct (updateReputation_clamps (get_ok (constructor 0) registry_run) 9 7 (-700)%Z)
    as (st' & Hrun & Hscore & _).
  - vm_compute. reflexivity.
  - unfold registered. vm_compute. intros H; discriminate H.
  - vm_compute. intros H; discriminate H.
  - unfold is_int256, MIN_INT256, MAX_INT256. lia.
  - unfold MIN_INT256. lia.
  - exists st'. split; [vm_compute; reflexivity|]. split; [exact Hrun|].
    rewrite Hscore. vm_compute. reflexivity.
Defined.

(** *** Pausing *)

(** X4. The pause gate covers [registerEntity] and
    [createCrossModuleTransaction] only: while paused both revert, whereas
    [verifyEntity], [updateReputation] and [completeCrossModuleTransaction]
    behave exactly as they do when not paused. *)
Theorem pause_gates_two_functions keccak256 st b :
  (∀ sender now _type _modules,
     registerEntity (set_paused st true) sender now _type _modules = Revert EnforcedPause) ∧
  (∀ sender now _modules _value,
     createCrossModuleTransaction keccak256 (set_paused st true) sender now _modules _value
       = Revert EnforcedPause) ∧
  (∀ sender _entity,
     verifyEntity (set_paused st b) sender _entity
       = under_pause b (verifyEntity st sender _entity)) ∧
  (∀ sender _entity _change,
     updateReputation (set_paused st b) sender _entity _change
       = under_pause b (updateReputation st sender _entity _change)) ∧
  (∀ sender _txId,
     completeCrossModuleTransaction (set_paused st b) sender _txId
       = '(st', ok) ← completeCrossModuleTransaction st sender _txId;
         Ok (set_paused st' b, ok)).
Proof.
  repeat split.
  - intros. unfold verifyEntity, under_pause. simpl.
    destruct (onlyRole _ _ _) as [[]|]; [simpl|reflexivity].
    change (entities_at (set_paused st b) _entity) with (entities_at st _entity).
    destruct (require _ "Entity not found") as [[]|]; [simpl|reflexivity].
    destruct (require _ "Already verified") as [[]|]; reflexivity.
  - intros. unfold updateReputation, under_pause. simpl.
    destruct (onlyRole _ _ _) as [[]|]; [simpl|reflexivity].
    change (entities_at (set_paused st b) _entity) with (entities_at st _entity).
    destruct (require _ "Entity not found") as [[]|]; [simpl|reflexivity].
    destruct (0 <? _change)%Z.
    + destruct (checked_add _ _) as [s|]; reflexivity.
    + destruct (checked_neg _change) as [neg|]; [simpl|reflexivity].
      destruct (_ <=? _); [reflexivity|].
      destruct (checked_sub _ _) as [s|]; reflexivity.
  - intros. unfold completeCrossModuleTransaction. simpl.
    destruct (onlyRole _ _ _) as [[]|]; [simpl|reflexivity].
    change (transactions_at (set_paused st b) _txId) with (transactions_at st _txId).
    destruct (require _ "Invalid status") as [[]|]; [simpl|reflexivity].
    unfold checked_add, entities_at. simpl.
    destruct (_ + 1 <=? MAX_UINT256); reflexivity.
Qed.

(** X5. [pause] and [unpause] are for admins, cannot be repeated, and undo each
    other: pausing and unpausing gives back the state one started from. *)
Theorem pause_unpause_roundtrip st sender :
  roles st ADMIN_ROLE sender = true →
  paused st = false →
  unpause st sender = Revert ExpectedPause ∧
  ∃ st1, pause st sender = Ok st1 ∧ paused st1 = true ∧
    pause st1 sender = Revert EnforcedPause ∧
    unpause st1 sender = Ok st.
Proof.
  intros Hrole Hp. unfold pause, unpause, whenNotPaused, onlyRole.
  rewrite Hrole, Hp. simpl. split; [reflexivity|].
  eexists. split; [reflexivity|]. simpl. rewrite Hrole. simpl.
  split; [reflexivity|]. split; [reflexivity|].
  destruct st as [r p e t]. simpl in *. subst p. reflexivity.
Qed.

Lemma pause_unpause_roundtrip_witness :
  ∃ st1, pause (constructor 1) 1 = Ok st1 ∧ unpause st1 1 = Ok (constructor 1).
Proof.
  destruct (pause_unpause_roundtrip (constructor 1) 1) as (_ & st1 & H1 & _ & _ & H2).
  - reflexivity.
  - reflexivity.
  - exists st1. split; assumption.
Defined.

(** *** What any sequence of calls preserves *)

Lemma step_effect keccak256 st k : effect st (Orchestrator.step keccak256 st k).
Proof.
  destruct k; simpl.
  - unfold grantRole. destruct (onlyRole _ _ _); simpl; by apply effect_none.
  - unfold pause. destruct (onlyRole _ _ _); simpl; [|by apply effect_none].
    destruct (whenNotPaused st); simpl; by apply effect_none.
  - unfold unpause. destruct (onlyRole _ _ _); simpl; [|by apply effect_none].
    destruct (paused st); simpl; by apply effect_none.
  - unfold registerEntity. destruct (whenNotPaused st); simpl; [|by apply effect_none].
    destruct (wallet (entities_at st sender) =? 0) eqn:Hw; simpl; [|by apply effect_none].
    destruct (require _ "No modules specified"); simpl; [|by apply effect_none].
    apply N.eqb_eq in Hw. by apply effect_register.
  - unfold verifyEntity. destruct (onlyRole _ _ _); simpl; [|by apply effect_none].
    destruct (wallet (entities_at st _entity) =? 0) eqn:Hw; simpl; [by apply effect_none|].
    destruct (require _ "Already verified"); simpl; [|by apply effect_none].
    apply N.eqb_neq in Hw. by apply effect_verify.
  - unfold createCrossModuleTransaction.
    destruct (whenNotPaused st); simpl; [|by apply effect_none].
    destruct (require _ "Entity not verified"); simpl; [|by apply effect_none].
    destruct (require _ "No modules specified"); simpl; [|by apply effect_none].
    by apply effect_create.
  - unfold completeCrossModuleTransaction.
    destruct (onlyRole _ _ _); simpl; [|by apply effect_none].
    destruct (bool_decide (status (transactions_at st _txId) = PROCESSING)) eqn:Hs; simpl;
      [|by apply effect_none].
    apply bool_decide_eq_true in Hs.
    destruct (checked_add _ 1) as [n|]; simpl; [|by apply effect_none].
    exact (effect_complete st _txId n Hs).
  - unfold updateReputation. destruct (onlyRole _ _ _); simpl; [|by apply effect_none].
    destruct (wallet (entities_at st _entity) =? 0) eqn:Hw; simpl; [by apply effect_none|].
    apply N.eqb_neq in Hw.
    destruct (0 <? _change)%Z.
    + destruct (checked_add _ _) as [s|]; simpl; [|by apply effect_none].
      by apply effect_reputation.
    + destruct (checked_neg _change) as [neg|]; simpl; [|by apply effect_none].
      destruct (_ <=? _); simpl; [by apply effect_reputation|].
      destruct (checked_sub _ _) as [s|]; simpl; [|by apply effect_none].
      by apply effect_reputation.
Qed.

Lemma setModuleAddress_registry keccak256 c sender name addr c' :
  setModuleAddress keccak256 c sender name addr = Ok c' →
  roles (registry c) ADMIN_ROLE sender = true ∧ addr ≠ 0 ∧
  registry c'
    = set_roles (registry c) (_grantRole (roles (registry c)) MODULE_ROLE addr).
Proof.
  unfold setModuleAddress, onlyRole.
  destruct (roles (registry c) ADMIN_ROLE sender); simpl; [|discriminate].
  destruct (addr =? 0) eqn:Ha; simpl; [discriminate|]. apply N.eqb_neq in Ha.
  repeat (destruct (_ =? _); simpl;
          [intros [= <-]; split; [reflexivity|]; split; [exact Ha | reflexivity]|]).
  discriminate.
Qed.

Lemma full_step_effect keccak256 c x :
  effect (registry c) (registry (OrchestratorAdmin.step keccak256 c x)).
Proof.
  destruct x as [k | sender name addr | t]; simpl.
  - apply step_effect.
  - destruct (setModuleAddress keccak256 c sender name addr) as [c'|] eqn:E; simpl.
    + apply setModuleAddress_registry in E as (_ & _ & ->). by apply effect_none.
    + by apply effect_none.
  - by apply effect_none.
Qed.

Lemma effect_nothing_completed st st' :
  effect st st' → nothing_completed st → nothing_completed st'.
Proof.
  intros Heff [Hpend Hzero]. destruct Heff as [st' He Ht | a e Hw _ He | a Hw | a s Hw
                                               | id t Ht | id n Hs].
  - split.
    + intros id. unfold transactions_at. rewrite Ht. apply Hpend.
    + intros a. unfold entities_at. rewrite He. apply Hzero.
  - split; [exact Hpend|]. intros b. destruct (decide (a = b)) as [->|Hne].
    + rewrite entities_at_set_eq. exact He.
    + rewrite entities_at_set_ne by done. apply Hzero.
  - split; [exact Hpend|]. intros b. destruct (decide (a = b)) as [->|Hne].
    + rewrite entities_at_set_eq. apply Hzero.
    + rewrite entities_at_set_ne by done. apply Hzero.
  - split; [exact Hpend|]. intros b. destruct (decide (a = b)) as [->|Hne].
    + rewrite entities_at_set_eq. apply Hzero.
    + rewrite entities_at_set_ne by done. apply Hzero.
  - split; [|exact Hzero]. intros id'. destruct (decide (id = id')) as [->|Hne].
    + rewrite transactions_at_set_eq. exact Ht.
    + rewrite transactions_at_set_ne by done. apply Hpend.
  - rewrite Hpend in Hs. discriminate Hs.
Qed.

Lemma effect_keyed st st' :
  effect st st' → nothing_completed st → keyed_by_wallet st → keyed_by_wallet st'.
Proof.
  intros Heff [Hpend _] Hkey.
  assert (Hset : ∀ a e, wallet e = a → keyed_by_wallet (set_entity st a e)).
  { intros a e Hw b e'. unfold set_entity. simpl. rewrite lookup_insert.
    destruct (decide (a = b)) as [->|Hne]; [intros [= <-]; exact Hw | apply Hkey]. }
  assert (Hreg : ∀ a, wallet (entities_at st a) ≠ 0 → wallet (entities_at st a) = a).
  { intros a Hw. unfold entities_at in *. destruct (entities st !! a) as [e|] eqn:E.
    - apply (Hkey a e E).
    - simpl in Hw. done. }
  destruct Heff as [st' He Ht | a e Hw Hwe _ | a Hw | a s Hw | id t Ht | id n Hs].
  - intros a e. rewrite He. apply Hkey.
  - apply Hset, Hwe.
  - apply Hset. simpl. by apply Hreg.
  - apply Hset. simpl. by apply Hreg.
  - exact Hkey.
  - rewrite Hpend in Hs. discriminate Hs.
Qed.

Lemma deploy_nothing_completed deployer : nothing_completed (registry (deploy deployer)).
Proof. split; intros; reflexivity. Qed.

Lemma run_invariants keccak256 deployer calls :
  nothing_completed (registry (OrchestratorAdmin.run keccak256 (deploy deployer) calls)) ∧
  keyed_by_wallet (registry (OrchestratorAdmin.run keccak256 (deploy deployer) calls)).
Proof.
  assert (H : ∀ c, nothing_completed (registry c) ∧ keyed_by_wallet (registry c) →
            nothing_completed (registry (OrchestratorAdmin.run keccak256 c calls)) ∧
            keyed_by_wallet (registry (OrchestratorAdmin.run keccak256 c calls))).
  { induction calls as [|x rest IH]; intros c [Hn Hk]; [done|].
    simpl. apply IH. pose proof (full_step_effect keccak256 c x) as Heff. split.
    - exact (effect_nothing_completed _ _ Heff Hn).
    - exact (effect_keyed _ _ Heff Hn Hk). }
  apply H. split; [apply deploy_nothing_completed|].
  intros a e. simpl. rewrite lookup_empty. discriminate.
Qed.

(** X6. No function of the contract moves a transaction to Processing. On a
    deployed orchestrator, whatever is called and by whom, every transaction
    is Pending, [completeCrossModuleTransaction] never succeeds, and every
    entity's totalTransactions is 0. *)
Theorem no_transaction_ever_completes keccak256 deployer calls :
  (∀ id, status (getTransaction
                   (registry (OrchestratorAdmin.run keccak256 (deploy deployer) calls)) id)
         = PENDING) ∧
  (∀ a, totalTransactions
          (getEntity (registry (OrchestratorAdmin.run keccak256 (deploy deployer) calls)) a)
        = 0) ∧
  (∀ sender id,
     is_ok (completeCrossModuleTransaction
              (registry (OrchestratorAdmin.run keccak256 (deploy deployer) calls)) sender id)
     = false).
Proof.
  destruct (run_invariants keccak256 deployer calls) as [[Hpend Hzero] _].
  split; [exact Hpend|]. split; [exact Hzero|].
  intros sender id. unfold completeCrossModuleTransaction.
  destruct (onlyRole _ _ _); simpl; [|reflexivity].
  rewrite bool_decide_false; [reflexivity|]. rewrite Hpend. discriminate.
Qed.

(** [getEntity] never hands out another account's record: on a deployed
    orchestrator, whatever was called, the record returned for a wallet is
    either the all-zero record of a wallet that never registered or a record
    whose wallet field is the wallet asked for. *)
Theorem getEntity_own_record keccak256 deployer calls _wallet :
  getEntity (registry (OrchestratorAdmin.run keccak256 (deploy deployer) calls)) _wallet
    = Entity_zero
  ∨ wallet (getEntity (registry (OrchestratorAdmin.run keccak256 (deploy deployer) calls))
              _wallet) = _wallet.
Proof.
  destruct (run_invariants keccak256 deployer calls) as [_ Hkey].
  unfold getEntity, entities_at.
  destruct (entities _ !! _wallet) as [e|] eqn:E; [right|left; reflexivity].
  exact (Hkey _ _ E).
Qed.

(** X7. Registration is for good. Whatever is called afterwards, a registered
    wallet keeps its wallet field, type, module list and creation time (no
    call deletes or re-registers it), and a verified entity stays verified. *)
Theorem registration_is_permanent keccak256 c calls a :
  registered (registry c) a →
  registered (registry (OrchestratorAdmin.run keccak256 c calls)) a ∧
  wallet (entities_at (registry (OrchestratorAdmin.run keccak256 c calls)) a)
    = wallet (entities_at (registry c) a) ∧
  entityType (entities_at (registry (OrchestratorAdmin.run keccak256 c calls)) a)
    = entityType (entities_at (registry c) a) ∧
  activeModules (entities_at (registry (OrchestratorAdmin.run keccak256 c calls)) a)
    = activeModules (entities_at (registry c) a) ∧
  created (entities_at (registry (OrchestratorAdmin.run keccak256 c calls)) a)
    = created (entities_at (registry c) a) ∧
  (verified (entities_at (registry c) a) = true →
   verified (entities_at (registry (OrchestratorAdmin.run keccak256 c calls)) a) = true).
Proof.
  revert c. induction calls as [|x rest IH]; intros c Hreg; [done|].
  simpl.
  assert (Hstep :
    wallet (entities_at (registry (OrchestratorAdmin.step keccak256 c x)) a)
      = wallet (entities_at (registry c) a) ∧
    entityType (entities_at (registry (OrchestratorAdmin.step keccak256 c x)) a)
      = entityType (entities_at (registry c) a) ∧
    activeModules (entities_at (registry (OrchestratorAdmin.step keccak256 c x)) a)
      = activeModules (entities_at (registry c) a) ∧
    created (entities_at (registry (OrchestratorAdmin.step keccak256 c x)) a)
      = created (entities_at (registry c) a) ∧
    (verified (entities_at (registry c) a) = true →
     verified (entities_at (registry (OrchestratorAdmin.step keccak256 c x)) a) = true)).
  { destruct (full_step_effect keccak256 c x)
      as [st' He Ht | b e Hw Hwe _ | b Hw | b s Hw | id t Ht | id n Hs].
    - unfold entities_at. rewrite He. done.
    - destruct (decide (b = a)) as [->|Hne]; [done|].
      rewrite entities_at_set_ne by done. done.
    - destruct (decide (b = a)) as [->|Hne].
      + rewrite entities_at_set_eq. done.
      + rewrite entities_at_set_ne by done. done.
    - destruct (decide (b = a)) as [->|Hne].
      + rewrite entities_at_set_eq. done.
      + rewrite entities_at_set_ne by done. done.
    - done.
    - destruct (decide (initiator (transactions_at (registry c) id) = a)) as [->|Hne].
      + rewrite entities_at_set_eq. done.
      + rewrite entities_at_set_ne by done. done. }
  destruct Hstep as (Hw & Ht & Hm & Hc & Hv).
  destruct (IH (OrchestratorAdmin.step keccak256 c x)) as (IH0 & IH1 & IH2 & IH3 & IH4 & IH5).
  { unfold registered. rewrite Hw. exact Hreg. }
  split; [exact IH0|]. split; [congruence|]. split; [congruence|].
  split; [congruence|]. split; [congruence|]. auto.
Qed.

Lemma registration_is_permanent_witness :
  registered (registry (OrchestratorAdmin.run digest
     (with_registry (deploy 1) (get_ok (constructor 0) registry_run))
     [Core (RegisterEntity 7 5000 BUYER ["healthcare"]);
      Core (UpdateReputation 9 7 300%Z)])) 7 ∧
  entityType (entities_at (registry (OrchestratorAdmin.run digest
     (with_registry (deploy 1) (get_ok (constructor 0) registry_run))
     [Core (RegisterEntity 7 5000 BUYER ["healthcare"]);
      Core (UpdateReputation 9 7 300%Z)])) 7) = FARMER.
Proof.
  destruct (registration_is_permanent digest
              (with_registry (deploy 1) (get_ok (constructor 0) registry_run))
              [Core (RegisterEntity 7 5000 BUYER ["healthcare"]);
               Core (UpdateReputation 9 7 300%Z)] 7) as (H0 & _ & H2 & _).
  - unfold registered. vm_compute. intros H; discriminate H.
  - split; [exact H0|]. rewrite H2. vm_compute. reflexivity.
Defined.

(** X8. Scores stay within [0, 1000] on the whole contract, whatever is called. *)
Theorem reputation_within_bounds keccak256 deployer calls a :
  reputationScore
    (getEntity (registry (OrchestratorAdmin.run keccak256 (deploy deployer) calls)) a) <= 1000.
Proof.
  assert (H : ∀ c, reputation_bounded (registry c) →
            reputation_bounded (registry (OrchestratorAdmin.run keccak256 c calls))).
  { induction calls as [|x rest IH]; intros c Hb; [exact Hb|].
    simpl. apply IH. destruct x as [k | sender name addr | t]; simpl.
    - apply step_bounded, Hb.
    - destruct (setModuleAddress keccak256 c sender name addr) as [c'|] eqn:E; simpl;
        [|exact Hb].
      apply setModuleAddress_registry in E as (_ & _ & ->). exact Hb.
    - exact Hb. }
  apply H. intros b. unfold entities_at. simpl. rewrite lookup_empty. simpl. lia.
Qed.

(** *** Module addresses *)

(** X9. [setModuleAddress]: admins only, never the zero address, only the four
    known names; on success it stores the address in that module's slot,
    leaves the other three slots alone and grants MODULE_ROLE to the address. *)
Theorem setModuleAddress_outcomes keccak256 c sender _moduleName _moduleAddress :
  distinct_module_names keccak256 →
  (roles (registry c) ADMIN_ROLE sender = false →
     setModuleAddress keccak256 c sender _moduleName _moduleAddress
       = Revert (MissingRole ADMIN_ROLE sender)) ∧
  (roles (registry c) ADMIN_ROLE sender = true → _moduleAddress = 0 →
     setModuleAddress keccak256 c sender _moduleName _moduleAddress
       = Revert (Error "Invalid address")) ∧
  (roles (registry c) ADMIN_ROLE sender = true → _moduleAddress ≠ 0 →
   ¬ keccak256 [AString _moduleName]
       ∈ [keccak256 [AString "healthcare"]; keccak256 [AString "agriculture"];
          keccak256 [AString "supply_chain"]; keccak256 [AString "sustainability"]] →
     setModuleAddress keccak256 c sender _moduleName _moduleAddress
       = Revert (Error "Unknown module")) ∧
  (roles (registry c) ADMIN_ROLE sender = true → _moduleAddress ≠ 0 →
   ∃ c1 c2 c3 c4,
     setModuleAddress keccak256 c sender "healthcare" _moduleAddress = Ok c1 ∧
     setModuleAddress keccak256 c sender "agriculture" _moduleAddress = Ok c2 ∧
     setModuleAddress keccak256 c sender "supply_chain" _moduleAddress = Ok c3 ∧
     setModuleAddress keccak256 c sender "sustainability" _moduleAddress = Ok c4 ∧
     (healthcareModule c1, agricultureModule c1, supplyChainModule c1, sustainabilityModule c1)
       = (_moduleAddress, agricultureModule c, supplyChainModule c, sustainabilityModule c) ∧
     (healthcareModule c2, agricultureModule c2, supplyChainModule c2, sustainabilityModule c2)
       = (healthcareModule c, _moduleAddress, supplyChainModule c, sustainabilityModule c) ∧
     (healthcareModule c3, agricultureModule c3, supplyChainModule c3, sustainabilityModule c3)
       = (healthcareModule c, agricultureModule c, _moduleAddress, sustainabilityModule c) ∧
     (healthcareModule c4, agricultureModule c4, supplyChainModule c4, sustainabilityModule c4)
       = (healthcareModule c, agricultureModule c, supplyChainModule c, _moduleAddress)) ∧
  (∀ c', setModuleAddress keccak256 c sender _moduleName _moduleAddress = Ok c' →
     roles (registry c') MODULE_ROLE _moduleAddress = true ∧
     (∀ r a, roles (registry c) r a = true → roles (registry c') r a = true) ∧
     entities (registry c') = entities (registry c) ∧
     transactions (registry c') = transactions (registry c) ∧
     paused (registry c') = paused (registry c)).
Proof.
  intros Hd. unfold distinct_module_names in Hd.
  apply NoDup_cons in Hd as [H1 Hd]. apply NoDup_cons in Hd as [H2 Hd].
  apply NoDup_cons in Hd as [H3 _].
  repeat rewrite not_elem_of_cons in H1. repeat rewrite not_elem_of_cons in H2.
  repeat rewrite not_elem_of_cons in H3.
  destruct H1 as (H12 & H13 & H14 & _). destruct H2 as (H23 & H24 & _).
  destruct H3 as (H34 & _).
  apply not_eq_sym, N.eqb_neq in H12, H13, H14, H23, H24, H34.
  split; [|split; [|split; [|split]]].
  - unfold setModuleAddress, onlyRole. intros ->. reflexivity.
  - unfold setModuleAddress, onlyRole. intros -> ->. reflexivity.
  - unfold setModuleAddress, onlyRole. intros -> Ha Hn.
    apply N.eqb_neq in Ha. rewrite Ha. simpl.
    repeat rewrite not_elem_of_cons in Hn. destruct Hn as (N1 & N2 & N3 & N4 & _).
    apply N.eqb_neq in N1, N2, N3, N4. rewrite N1, N2, N3, N4. reflexivity.
  - intros Hr Ha. apply N.eqb_neq in Ha.
    unfold setModuleAddress, onlyRole. rewrite Hr, Ha. simpl.
    rewrite H12, H13, H14, H23, H24, H34, !N.eqb_refl. simpl.
    do 4 eexists. repeat split.
  - intros c' Hok. apply setModuleAddress_registry in Hok as (_ & _ & ->). simpl.
    split; [|split; [|done]].
    + unfold _grantRole. rewrite decide_True by reflexivity.
      rewrite N.eqb_refl. reflexivity.
    + intros r a Hra. unfold _grantRole.
      destruct (decide (r = MODULE_ROLE)); [|exact Hra].
      destruct (a =? _moduleAddress); [reflexivity | exact Hra].
Qed.

Lemma setModuleAddress_outcomes_witness :
  ∃ c1 c2,
    setModuleAddress digest (deploy 1) 1 "agriculture" 50 = Ok c1 ∧
    agricultureModule c1 = 50 ∧
    setModuleAddress digest c1 1 "agriculture" 51 = Ok c2 ∧
    agricultureModule c2 = 51 ∧
    roles (registry c2) MODULE_ROLE 50 = true ∧
    roles (registry c2) MODULE_ROLE 51 = true.
Proof.
  assert (Hd : distinct_module_names digest).
  { unfold distinct_module_names. apply (bool_decide_unpack _). vm_compute. exact I. }
  destruct (setModuleAddress_outcomes digest (deploy 1) 1 "agriculture" 50 Hd)
    as (_ & _ & _ & Hslot & Hkeep).
  destruct Hslot as (h1 & c1 & s1 & t1 & _ & Hc1 & _ & _ & _ & Hs1 & _);
    [reflexivity | discriminate |].
  destruct (Hkeep c1 Hc1) as (Hrole50 & Hmono & _).
  destruct (setModuleAddress_outcomes digest c1 1 "agriculture" 51 Hd)
    as (_ & _ & _ & Hslot2 & Hkeep2).
  destruct Hslot2 as (h2 & c2 & s2 & t2 & _ & Hc2 & _ & _ & _ & Hs2 & _).
  { apply Hmono. reflexivity. }
  { discriminate. }
  destruct (Hkeep2 c2 Hc2) as (Hrole51 & Hmono2 & _).
  exists c1, c2. split; [exact Hc1|]. split; [congruence|].
  split; [exact Hc2|]. split; [congruence|]. split; [apply Hmono2, Hrole50 | exact Hrole51].
Defined.

Lemma verifyEntity_outcomes_witness :
  verifyEntity verifier_registry 9 7 = Revert (MissingRole VERIFIER_ROLE 9) ∧
  ∃ st', verifyEntity verifier_registry 2 7 = Ok st' ∧ verified (entities_at st' 7) = true.
Proof.
  split.
  - destruct (verifyEntity_outcomes verifier_registry 9 7) as (H & _).
    apply H. vm_compute. reflexivity.
  - destruct (verifyEntity_outcomes verifier_registry 2 7) as (_ & _ & _ & H).
    destruct H as (st' & H1 & H2 & _).
    + vm_compute. reflexivity.
    + unfold registered. vm_compute. intros E; discriminate E.
    + vm_compute. reflexivity.
    + exists st'. split; [exact H1|]. rewrite H2. reflexivity.
Defined.

Lemma createCrossModuleTransaction_outcomes_witness :
  createCrossModuleTransaction digest verifier_registry 7 2000 ["agriculture"] 10
    = Revert (Error "Entity not verified") ∧
  ∃ st' id,
    createCrossModuleTransaction digest verified_registry 7 2000 ["agriculture"] 10
      = Ok (st', id) ∧
    status (getTransaction st' id) = PENDING.
Proof.
  split.
  - destruct (createCrossModuleTransaction_outcomes digest verifier_registry 7 2000
                ["agriculture"] 10) as (_ & H & _).
    apply H; vm_compute; reflexivity.
  - destruct (createCrossModuleTransaction_outcomes digest verified_registry 7 2000
                ["agriculture"] 10) as (_ & _ & _ & H).
    destruct H as (st' & id & H1 & H2 & _).
    + vm_compute. reflexivity.
    + vm_compute. reflexivity.
    + discriminate.
    + exists st', id. split; [exact H1|]. rewrite H2. reflexivity.
Defined.

End OrchestratorExtras.

(** ** The agriculture contract beyond the claims *)

Module AgricultureExtras.
Import Agriculture AgricultureRuns AgricultureFacts.

Lemma harvests_at_set_eq st id h : harvests_at (set_harvest st id h) id = h.
Proof. unfold harvests_at. simpl. rewrite lookup_insert_eq. reflexivity. Qed.

Lemma farmerHarvests_at_push st a b id :
  farmerHarvests_at (push_farmerHarvest st a id) b
    = if decide (a = b) then farmerHarvests_at st a ++ [id] else farmerHarvests_at st b.
Proof.
  unfold farmerHarvests_at at 1. simpl. rewrite lookup_insert.
  destruct (decide (a = b)); reflexivity.
Qed.

(** *** What each function accepts and rejects *)

(** X10. [recordHarvest] rejects a zero quantity and a grade outside 1..5; any
    other harvest is stored unverified under the returned id and appended to
    the end of the caller's harvest list, every other farmer's list staying
    as it was. *)
Theorem recordHarvest_outcomes keccak256 st sender now _cropType _quantity _qualityGrade :
  (_quantity = 0 →
     recordHarvest keccak256 st sender now _cropType _quantity _qualityGrade
       = Revert (Error "Invalid quantity")) ∧
  (0 < _quantity → (_qualityGrade < 1 ∨ 5 < _qualityGrade) →
     recordHarvest keccak256 st sender now _cropType _quantity _qualityGrade
       = Revert (Error "Invalid grade")) ∧
  (0 < _quantity → 1 <= _qualityGrade <= 5 →
     ∃ st' id,
       recordHarvest keccak256 st sender now _cropType _quantity _qualityGrade = Ok (st', id) ∧
       harvests_at st' id
         = Harvest.mk id sender _cropType _quantity _qualityGrade now false ∧
       getFarmerHarvests st' sender = getFarmerHarvests st sender ++ [id] ∧
       (∀ other, other ≠ sender → getFarmerHarvests st' other = getFarmerHarvests st other) ∧
       salesContracts st' = salesContracts st ∧ insurancePolicies st' = insurancePolicies st ∧
       balance st' = balance st).
Proof.
  unfold recordHarvest. split; [|split].
  - intros ->. reflexivity.
  - intros Hq Hg. apply N.ltb_lt in Hq. rewrite Hq. simpl.
    assert ((1 <=? _qualityGrade) && (_qualityGrade <=? 5) = false) as ->; [|reflexivity].
    destruct Hg as [Hg|Hg].
    + apply N.leb_gt in Hg. rewrite Hg. reflexivity.
    + apply N.leb_gt in Hg. rewrite Hg. apply andb_false_r.
  - intros Hq [Hg1 Hg2]. apply N.ltb_lt in Hq. apply N.leb_le in Hg1, Hg2.
    rewrite Hq, Hg1, Hg2. simpl. do 2 eexists. split; [reflexivity|].
    split; [|split; [|split; [|done]]].
    + unfold harvests_at. simpl. rewrite lookup_insert_eq. reflexivity.
    + unfold getFarmerHarvests. rewrite farmerHarvests_at_push, decide_True by reflexivity.
      reflexivity.
    + intros other Hne. unfold getFarmerHarvests.
      rewrite farmerHarvests_at_push, decide_False by done. reflexivity.
Qed.

(** X11. [createSalesContract] checks, in this order, that the caller owns the
    harvest (an unknown harvest has owner 0), that the quantity does not
    exceed the harvest's, and that the buyer is not the zero address; a
    total that does not fit uint256 panics. On success the contract is stored
    with total = quantity * price, no escrow and all flags cleared, and the
    harvest itself is left untouched. *)
Theorem createSalesContract_outcomes keccak256 st sender now _buyer _harvestId
    _quantity _pricePerUnit :
  (Harvest.farmer (harvests_at st _harvestId) ≠ sender →
     createSalesContract keccak256 st sender now _buyer _harvestId _quantity _pricePerUnit
       = Revert (Error "Not harvest owner")) ∧
  (Harvest.farmer (harvests_at st _harvestId) = sender →
   Harvest.quantity (harvests_at st _harvestId) < _quantity →
     createSalesContract keccak256 st sender now _buyer _harvestId _quantity _pricePerUnit
       = Revert (Error "Insufficient quantity")) ∧
  (Harvest.farmer (harvests_at st _harvestId) = sender →
   _quantity <= Harvest.quantity (harvests_at st _harvestId) → _buyer = 0 →
     createSalesContract keccak256 st sender now _buyer _harvestId _quantity _pricePerUnit
       = Revert (Error "Invalid buyer")) ∧
  (Harvest.farmer (harvests_at st _harvestId) = sender →
   _quantity <= Harvest.quantity (harvests_at st _harvestId) → _buyer ≠ 0 →
   MAX_UINT256 < _quantity * _pricePerUnit →
     createSalesContract keccak256 st sender now _buyer _harvestId _quantity _pricePerUnit
       = Revert (Panic ARITHMETIC)) ∧
  (Harvest.farmer (harvests_at st _harvestId) = sender →
   _quantity <= Harvest.quantity (harvests_at st _harvestId) → _buyer ≠ 0 →
   _quantity * _pricePerUnit <= MAX_UINT256 →
     ∃ st' id,
       createSalesContract keccak256 st sender now _buyer _harvestId _quantity _pricePerUnit
         = Ok (st', id) ∧
       salesContracts_at st' id
         = SalesContract.mk id sender _buyer _harvestId _quantity _pricePerUnit
             (_quantity * _pricePerUnit) 0 false false false now ∧
       harvests st' = harvests st ∧ balance st' = balance st).
Proof.
  unfold createSalesContract. repeat split.
  - intros Hf. apply N.eqb_neq in Hf. rewrite Hf. reflexivity.
  - intros -> Hq. rewrite N.eqb_refl. simpl. apply N.leb_gt in Hq. rewrite Hq. reflexivity.
  - intros -> Hq ->. rewrite !N.eqb_refl. simpl. apply N.leb_le in Hq. rewrite Hq. reflexivity.
  - intros -> Hq Hb Ho. rewrite N.eqb_refl. simpl. apply N.leb_le in Hq. rewrite Hq. simpl.
    apply N.eqb_neq in Hb. rewrite Hb. simpl.
    unfold checked_mul. apply N.leb_gt in Ho. rewrite Ho. reflexivity.
  - intros -> Hq Hb Ho. rewrite N.eqb_refl. simpl. apply N.leb_le in Hq. rewrite Hq. simpl.
    apply N.eqb_neq in Hb. rewrite Hb. simpl.
    rewrite checked_mul_fits by exact Ho. simpl.
    do 2 eexists. split; [reflexivity|]. rewrite salesContracts_at_set_eq. done.
Qed.

(** X12. Selling does not use the harvest up. After a sale of some quantity of a
    harvest has been created, the farmer can create another sale of the same
    quantity of the same harvest, to any buyer and at any time: the
    quantity check is made against the harvest alone, which no sale
    reduces. *)
Theorem harvest_can_be_sold_again keccak256 st sender now _buyer _harvestId _quantity
    _pricePerUnit st1 id1 later _buyer2 :
  createSalesContract keccak256 st sender now _buyer _harvestId _quantity _pricePerUnit
    = Ok (st1, id1) →
  _buyer2 ≠ 0 →
  ∃ st2 id2,
    createSalesContract keccak256 st1 sender later _buyer2 _harvestId _quantity _pricePerUnit
      = Ok (st2, id2) ∧
    SalesContract.quantity (salesContracts_at st2 id2) = _quantity ∧
    SalesContract.buyer (salesContracts_at st2 id2) = _buyer2 ∧
    (id2 ≠ id1 → salesContracts_at st2 id1 = salesContracts_at st1 id1) ∧
    Harvest.quantity (harvests_at st2 _harvestId) = Harvest.quantity (harvests_at st _harvestId).
Proof.
  intros H1 Hb2. unfold createSalesContract in H1.
  destruct (Harvest.farmer (harvests_at st _harvestId) =? sender) eqn:Hf;
    [simpl in H1|discriminate].
  destruct (_quantity <=? Harvest.quantity (harvests_at st _harvestId)) eqn:Hq;
    [simpl in H1|discriminate].
  destruct (require _ "Invalid buyer") as [[]|]; [simpl in H1|discriminate].
  destruct (checked_mul _quantity _pricePerUnit) as [total|] eqn:Hmul;
    [simpl in H1|discriminate].
  injection H1 as <- <-.
  unfold createSalesContract.
  change (harvests_at (set_salesContract st ?i ?c) _harvestId) with (harvests_at st _harvestId).
  rewrite Hf, Hq. simpl. apply N.eqb_neq in Hb2. rewrite Hb2. simpl.
  rewrite Hmul. simpl. do 2 eexists. split; [reflexivity|].
  rewrite salesContracts_at_set_eq. simpl.
  split; [reflexivity|]. split; [reflexivity|]. split; [|reflexivity].
  intros Hne. unfold salesContracts_at. simpl. rewrite lookup_insert_ne by done. reflexivity.
Qed.

Lemma harvest_can_be_sold_again_witness :
  sale_run = Ok (sale_state, sale_contract) ∧
  ∃ st2 id2,
    createSalesContract digest sale_state 10 1000 21 (digest [AAddress 10; AString "coffee";
                                                           AUint 1300; AUint 1000]) 10 100
      = Ok (st2, id2) ∧
    SalesContract.buyer (salesContracts_at st2 id2) = 21.
Proof.
  split; [vm_compute; reflexivity|].
  assert (H1 : createSalesContract digest
                 (fst (get_ok (constructor 0 0 0, 0)
                         (recordHarvest digest (constructor 1 100 200) 10 1000 "coffee" 1300 5)))
                 10 1000 20
                 (digest [AAddress 10; AString "coffee"; AUint 1300; AUint 1000]) 10 100
               = Ok (sale_state, sale_contract)) by (vm_compute; reflexivity).
  destruct (harvest_can_be_sold_again _ _ _ _ _ _ _ _ _ _ 1000 21 H1)
    as (st2 & id2 & H2 & _ & H3 & _); [discriminate|].
  exists st2, id2. split; [exact H2 | exact H3].
Defined.

(** X13. [confirmDeliveryAndQuality] is for verifiers and refuses a completed
    contract; otherwise it sets the two confirmation flags of that contract
    and nothing else: every other field of the record, every other sales
    contract, the harvests, the farmers' lists, the policies, the roles, the
    balance and the two addresses are what they were. It does not ask whether
    escrow was deposited: confirmed without escrow, the contract cannot be
    paid ("No escrow"). *)
Theorem confirmDeliveryAndQuality_outcomes keccak256 accounts st sender _contractId :
  (roles st VERIFIER_ROLE sender = false →
     confirmDeliveryAndQuality st sender _contractId
       = Revert (MissingRole VERIFIER_ROLE sender)) ∧
  (roles st VERIFIER_ROLE sender = true →
   SalesContract.completed (salesContracts_at st _contractId) = true →
     confirmDeliveryAndQuality st sender _contractId = Revert (Error "Already completed")) ∧
  (roles st VERIFIER_ROLE sender = true →
   SalesContract.completed (salesContracts_at st _contractId) = false →
     ∃ st', confirmDeliveryAndQuality st sender _contractId = Ok st' ∧
       salesContracts st'
         = <[_contractId :=
               {| SalesContract.contractId :=
                    SalesContract.contractId (salesContracts_at st _contractId);
                  SalesContract.farmer := SalesContract.farmer (salesContracts_at st _contractId);
                  SalesContract.buyer := SalesContract.buyer (salesContracts_at st _contractId);
                  SalesContract.harvestId :=
                    SalesContract.harvestId (salesContracts_at st _contractId);
                  SalesContract.quantity :=
                    SalesContract.quantity (salesContracts_at st _contractId);
                  SalesContract.pricePerUnit :=
                    SalesContract.pricePerUnit (salesContracts_at st _contractId);
                  SalesContract.totalAmount :=
                    SalesContract.totalAmount (salesContracts_at st _contractId);
                  SalesContract.escrowAmount :=
                    SalesContract.escrowAmount (salesContracts_at st _contractId);
                  SalesContract.deliveryConfirmed := true;
                  SalesContract.qualityVerified := true;
                  SalesContract.completed := false;
                  SalesContract.createdAt :=
                    SalesContract.createdAt (salesContracts_at st _contractId) |}]>
             (salesContracts st) ∧
       (∀ other, other ≠ _contractId →
          salesContracts_at st' other = salesContracts_at st other) ∧
       harvests st' = harvests st ∧ farmerHarvests st' = farmerHarvests st ∧
       insurancePolicies st' = insurancePolicies st ∧
       roles st' = roles st ∧ balance st' = balance st ∧
       orchestrator st' = orchestrator st ∧ paymentToken st' = paymentToken st ∧
       (SalesContract.escrowAmount (salesContracts_at st _contractId) = 0 →
        ∀ now,
          processPayment keccak256 accounts st'
            (SalesContract.buyer (salesContracts_at st _contractId)) now _contractId
          = Revert (Error "No escrow"))).
Proof.
  unfold confirmDeliveryAndQuality, onlyRole. split; [|split].
  - intros ->. reflexivity.
  - intros -> ->. reflexivity.
  - intros -> Hc. rewrite Hc. simpl. eexists. split; [reflexivity|].
    split; [simpl; unfold SalesContract.with_confirmed; rewrite Hc; reflexivity|].
    split; [intros other Hne; apply salesContracts_at_set_ne; congruence|].
    do 7 (split; [reflexivity|]).
    intros He now. unfold processPayment, processPayment_effects.
    rewrite salesContracts_at_set_eq. simpl. rewrite N.eqb_refl, Hc, He. reflexivity.
Qed.

(** X14. The guards of [processPayment], in the order the code checks them. *)
Theorem processPayment_guards keccak256 accounts st sender now _contractId :
  let c := salesContracts_at st _contractId in
  (sender ≠ SalesContract.buyer c → roles st ADMIN_ROLE sender = false →
     processPayment keccak256 accounts st sender now _contractId
       = Revert (Error "Unauthorized")) ∧
  (sender = SalesContract.buyer c ∨ roles st ADMIN_ROLE sender = true →
   (SalesContract.deliveryConfirmed c = false →
      processPayment keccak256 accounts st sender now _contractId
        = Revert (Error "Delivery not confirmed")) ∧
   (SalesContract.deliveryConfirmed c = true → SalesContract.qualityVerified c = false →
      processPayment keccak256 accounts st sender now _contractId
        = Revert (Error "Quality not verified")) ∧
   (SalesContract.deliveryConfirmed c = true → SalesContract.qualityVerified c = true →
    SalesContract.completed c = false → SalesContract.escrowAmount c = 0 →
      processPayment keccak256 accounts st sender now _contractId
        = Revert (Error "No escrow")) ∧
   (SalesContract.deliveryConfirmed c = true → SalesContract.qualityVerified c = true →
    SalesContract.completed c = false → 0 < SalesContract.escrowAmount c →
    MAX_UINT256 < SalesContract.escrowAmount c * 15 →
      processPayment keccak256 accounts st sender now _contractId
        = Revert (Panic ARITHMETIC))).
Proof.
  intros c. unfold processPayment, processPayment_effects. fold c. split.
  - intros Hs Hr. apply N.eqb_neq in Hs. rewrite Hs, Hr. reflexivity.
  - intros Hauth.
    assert ((sender =? SalesContract.buyer c) || roles st ADMIN_ROLE sender = true) as ->.
    { destruct Hauth as [->| ->]; [rewrite N.eqb_refl; reflexivity | apply orb_true_r]. }
    simpl. repeat split.
    + intros ->. reflexivity.
    + intros -> ->. reflexivity.
    + intros -> -> -> ->. reflexivity.
    + intros -> -> -> Hpos Ho. simpl. apply N.ltb_lt in Hpos. rewrite Hpos. simpl.
      unfold checked_mul. apply N.leb_gt in Ho. rewrite Ho. reflexivity.
Qed.

Lemma processPayment_guards_witness :
  sale_run = Ok (sale_state, sale_contract) ∧
  processPayment digest plain_accounts sale_state 20 2000 sale_contract
    = Revert (Error "Delivery not confirmed") ∧
  processPayment digest plain_accounts sale_state 10 2000 sale_contract
    = Revert (Error "Unauthorized").
Proof.
  split; [vm_compute; reflexivity|].
  destruct (processPayment_guards digest plain_accounts sale_state 20 2000 sale_contract)
    as (_ & H).
  destruct (processPayment_guards digest plain_accounts sale_state 10 2000 sale_contract)
    as (H' & _).
  split.
  - destruct H as (H & _); [left; vm_compute; reflexivity|].
    apply H. vm_compute. reflexivity.
  - apply H'; [vm_compute; intros E; discriminate E | vm_compute; reflexivity].
Defined.

(** *** Payment arithmetic *)

(** X15. The fee [processPayment] keeps is the integer part of 0.15% of the
    escrow: the farmer is sent a positive amount, never more than the escrow
    and less than one unit below 99.85% of it, and escrows under 667 units
    pay no fee at all. The contract had at least that amount, and loses at
    most that amount: whatever the farmer's account calls during the transfer
    can only pay in. *)
Theorem processPayment_fee_bounds keccak256 accounts st sender now _contractId st'
    farmerPayment :
  processPayment keccak256 accounts st sender now _contractId = Ok (st', farmerPayment) →
  0 < farmerPayment ∧
  farmerPayment <= SalesContract.escrowAmount (salesContracts_at st _contractId) ∧
  SalesContract.escrowAmount (salesContracts_at st _contractId) * 9985
    <= farmerPayment * 10000 ∧
  farmerPayment * 10000
    < SalesContract.escrowAmount (salesContracts_at st _contractId) * 9985 + 10000 ∧
  (SalesContract.escrowAmount (salesContracts_at st _contractId) < 667 →
   farmerPayment = SalesContract.escrowAmount (salesContracts_at st _contractId)) ∧
  farmerPayment <= balance st ∧
  balance st <= balance st' + farmerPayment ∧
  (accounts (SalesContract.farmer (salesContracts_at st _contractId))
     (set_balance
        (set_salesContract st _contractId
           (SalesContract.with_completed (salesContracts_at st _contractId) true))
        (balance st - farmerPayment)) = Some [] →
   balance st' + farmerPayment = balance st).
Proof.
  intros H. apply processPayment_Ok in H as (st1 & calls & Heff & Hle & Ha & ->).
  apply processPayment_effects_Ok in Heff as (_ & _ & _ & Hpos & -> & ->).
  rewrite salesContracts_at_set_eq in Ha.
  change (balance (set_salesContract st _contractId ?c)) with (balance st) in *.
  change (SalesContract.farmer (SalesContract.with_completed ?c true))
    with (SalesContract.farmer c) in Ha.
  match goal with |- context [balance (reenter ?k ?n ?s ?l)] =>
    pose proof (reenter_balance k n l s) as Hin end.
  change (balance (set_balance ?s ?b)) with b in Hin.
  set (escrow := SalesContract.escrowAmount (salesContracts_at st _contractId)) in *.
  pose proof (N.Div0.mul_div_le (escrow * 15) 10000) as Hlo.
  pose proof (N.mul_succ_div_gt (escrow * 15) 10000 ltac:(lia)) as Hhi.
  set (fee := escrow * 15 / 10000) in *.
  split; [lia|]. split; [lia|]. split; [lia|]. split; [lia|]. split; [lia|].
  split; [lia|]. split; [lia|].
  intros Hplain. rewrite Hplain in Ha. injection Ha as <-. simpl. lia.
Qed.

Lemma processPayment_fee_bounds_witness :
  funded_run = Ok (funded_state, funded_contract) ∧
  ∃ st', processPayment digest plain_accounts funded_state 20 2000 funded_contract
           = Ok (st', 999) ∧
    balance st' + 999 = balance funded_state.
Proof.
  split; [vm_compute; reflexivity|].
  assert (H : processPayment digest plain_accounts funded_state 20 2000 funded_contract
              = Ok (fst (get_ok (funded_state, 0)
                           (processPayment digest plain_accounts funded_state 20 2000
                              funded_contract)), 999))
    by (vm_compute; reflexivity).
  destruct (processPayment_fee_bounds _ _ _ _ _ _ _ _ H) as (_ & _ & _ & _ & _ & _ & _ & Hb).
  eexists. split; [exact H|]. apply Hb. reflexivity.
Defined.

(** *** A whole sale *)

Lemma recordHarvest_accepts keccak256 st sender now _cropType _quantity _qualityGrade :
  0 < _quantity → 1 <= _qualityGrade <= 5 →
  recordHarvest keccak256 st sender now _cropType _quantity _qualityGrade
  = let harvestId := keccak256 [AAddress sender; AString _cropType; AUint _quantity; AUint now] in
    Ok (push_farmerHarvest
          (set_harvest st harvestId
             (Harvest.mk harvestId sender _cropType _quantity _qualityGrade now false))
          sender harvestId,
        harvestId).
Proof.
  intros Hq [Hg1 Hg2]. unfold recordHarvest.
  apply N.ltb_lt in Hq. apply N.leb_le in Hg1, Hg2. rewrite Hq, Hg1, Hg2. reflexivity.
Qed.

Lemma createSalesContract_accepts keccak256 st sender now _buyer _harvestId _quantity
    _pricePerUnit :
  Harvest.farmer (harvests_at st _harvestId) = sender →
  _quantity <= Harvest.quantity (harvests_at st _harvestId) → _buyer ≠ 0 →
  _quantity * _pricePerUnit <= MAX_UINT256 →
  createSalesContract keccak256 st sender now _buyer _harvestId _quantity _pricePerUnit
  = let contractId :=
      keccak256 [AAddress sender; AAddress _buyer; ABytes32 _harvestId; AUint now] in
    Ok (set_salesContract st contractId
          (SalesContract.mk contractId sender _buyer _harvestId _quantity _pricePerUnit
             (_quantity * _pricePerUnit) 0 false false false now),
        contractId).
Proof.
  intros Hf Hq Hb Ho. unfold createSalesContract.
  rewrite Hf, N.eqb_refl. simpl. apply N.leb_le in Hq. rewrite Hq. simpl.
  apply N.eqb_neq in Hb. rewrite Hb. simpl.
  rewrite checked_mul_fits by exact Ho. reflexivity.
Qed.

Lemma depositEscrow_accepts st sender value _contractId :
  SalesContract.buyer (salesContracts_at st _contractId) = sender →
  SalesContract.completed (salesContracts_at st _contractId) = false →
  SalesContract.totalAmount (salesContracts_at st _contractId) <= value →
  depositEscrow st sender value _contractId
  = Ok (set_salesContract (credit st value) _contractId
          (SalesContract.with_escrowAmount (salesContracts_at st _contractId) value)).
Proof.
  intros Hs Hc Ht. unfold depositEscrow, credit.
  rewrite salesContracts_at_set_balance, Hs, N.eqb_refl, Hc. simpl.
  apply N.leb_le in Ht. rewrite Ht. reflexivity.
Qed.

Lemma confirmDeliveryAndQuality_accepts st sender _contractId :
  roles st VERIFIER_ROLE sender = true →
  SalesContract.completed (salesContracts_at st _contractId) = false →
  confirmDeliveryAndQuality st sender _contractId
  = Ok (set_salesContract st _contractId
          (SalesContract.with_confirmed (salesContracts_at st _contractId))).
Proof.
  intros Hr Hc. unfold confirmDeliveryAndQuality.
  rewrite (onlyRole_has _ _ _ Hr). simpl. rewrite Hc. reflexivity.
Qed.

Lemma processPayment_accepts keccak256 accounts st sender now _contractId calls :
  let c := salesContracts_at st _contractId in
  let payment := SalesContract.escrowAmount c - SalesContract.escrowAmount c * 15 / 10000 in
  let seen := set_balance
                (set_salesContract st _contractId (SalesContract.with_completed c true))
                (balance st - payment) in
  sender = SalesContract.buyer c ∨ roles st ADMIN_ROLE sender = true →
  SalesContract.deliveryConfirmed c = true → SalesContract.qualityVerified c = true →
  SalesContract.completed c = false → 0 < SalesContract.escrowAmount c →
  SalesContract.escrowAmount c * 15 <= MAX_UINT256 →
  payment <= balance st → accounts (SalesContract.farmer c) seen = Some calls →
  processPayment keccak256 accounts st sender now _contractId
  = Ok (reenter keccak256 now seen calls, payment).
Proof.
  intros c payment seen Hauth Hd Hq Hc Hpos Hfit Hbal Hacc.
  unfold processPayment.
  rewrite (processPayment_effects_accepts st sender _contractId Hauth Hd Hq Hc Hpos Hfit).
  simpl. rewrite salesContracts_at_set_eq. simpl.
  rewrite (call_value_accepted _ _ _ _ _ _ calls) by (simpl; assumption). reflexivity.
Qed.

(** X16. Recording a harvest, selling part of it, depositing exactly the total,
    confirming delivery and paying compose, provided the farmer's account
    takes the payment: the farmer is sent the total less the 0.15% fee, the
    sale ends completed, and the contract's balance has gained at least the
    fee, and exactly the fee when the farmer's account makes no call of its
    own during the transfer. *)
Theorem sale_lifecycle keccak256 accounts st farmer buyer verifier t1 t2 t3 crop harvested
    grade quantity price :
  0 < harvested → 1 <= grade <= 5 → quantity <= harvested → buyer ≠ 0 →
  0 < quantity * price → quantity * price * 15 <= MAX_UINT256 →
  roles st VERIFIER_ROLE verifier = true → (∀ s, accounts farmer s ≠ None) →
  ∃ st1 harvestId st2 contractId st3 st4 st5,
    recordHarvest keccak256 st farmer t1 crop harvested grade = Ok (st1, harvestId) ∧
    createSalesContract keccak256 st1 farmer t2 buyer harvestId quantity price
      = Ok (st2, contractId) ∧
    depositEscrow st2 buyer (quantity * price) contractId = Ok st3 ∧
    confirmDeliveryAndQuality st3 verifier contractId = Ok st4 ∧
    processPayment keccak256 accounts st4 buyer t3 contractId
      = Ok (st5, quantity * price - quantity * price * 15 / 10000) ∧
    SalesContract.completed (salesContracts_at st5 contractId) = true ∧
    balance st + quantity * price * 15 / 10000 <= balance st5 ∧
    ((∀ s, accounts farmer s = Some []) →
     balance st5 = balance st + quantity * price * 15 / 10000).
Proof.
  intros Hh Hg Hq Hb Hpos Hfit Hrole Hacc.
  set (total := quantity * price) in *.
  pose proof (fee_le_escrow total) as Hfee.
  set (hid := keccak256 [AAddress farmer; AString crop; AUint harvested; AUint t1]).
  set (st1 := push_farmerHarvest
                (set_harvest st hid (Harvest.mk hid farmer crop harvested grade t1 false))
                farmer hid).
  set (cid := keccak256 [AAddress farmer; AAddress buyer; ABytes32 hid; AUint t2]).
  set (c2 := SalesContract.mk cid farmer buyer hid quantity price total 0 false false false t2).
  set (st2 := set_salesContract st1 cid c2).
  set (c3 := SalesContract.with_escrowAmount c2 total).
  set (st3 := set_salesContract (credit st2 total) cid c3).
  set (c4 := SalesContract.with_confirmed c3).
  set (st4 := set_salesContract st3 cid c4).
  set (seen := set_balance (set_salesContract st4 cid (SalesContract.with_completed c4 true))
                 (balance st4 - (total - total * 15 / 10000))).
  destruct (accounts farmer seen) as [calls|] eqn:Hcalls; [|exfalso; exact (Hacc seen Hcalls)].
  set (st5 := reenter keccak256 t3 seen calls).
  assert (Hh1 : harvests_at st1 hid = Harvest.mk hid farmer crop harvested grade t1 false).
  { unfold harvests_at, st1. simpl. rewrite lookup_insert_eq. reflexivity. }
  assert (Hc2 : salesContracts_at st2 cid = c2) by apply salesContracts_at_set_eq.
  assert (Hc3 : salesContracts_at st3 cid = c3) by apply salesContracts_at_set_eq.
  assert (Hc4 : salesContracts_at st4 cid = c4) by apply salesContracts_at_set_eq.
  assert (Hseen : balance seen = balance st + total * 15 / 10000).
  { unfold seen. simpl. change (balance st3) with (balance st + total).
    clear -Hfee. clearbody total. set (fee := total * 15 / 10000) in *. clearbody fee. lia. }
  exists st1, hid, st2, cid, st3, st4, st5.
  split; [apply recordHarvest_accepts; assumption|].
  split.
  { apply createSalesContract_accepts; rewrite ?Hh1; simpl;
      [reflexivity | exact Hq | exact Hb | unfold MAX_UINT256 in *; lia]. }
  split.
  { rewrite depositEscrow_accepts; rewrite Hc2;
      [reflexivity | reflexivity | reflexivity | apply N.le_refl]. }
  split.
  { rewrite confirmDeliveryAndQuality_accepts; rewrite ?Hc3; [reflexivity | exact Hrole | reflexivity]. }
  split.
  { rewrite (processPayment_accepts keccak256 accounts st4 buyer t3 cid calls);
      rewrite ?Hc4; simpl;
      [reflexivity | left; reflexivity | reflexivity | reflexivity | reflexivity
       | exact Hpos | exact Hfit | | exact Hcalls].
    clear -Hfee. clearbody total. set (fee := total * 15 / 10000) in *. clearbody fee. lia. }
  split.
  { unfold st5. rewrite reenter_sale_kept;
      unfold seen; rewrite salesContracts_at_set_balance, salesContracts_at_set_eq;
      reflexivity. }
  split.
  { rewrite <- Hseen. apply reenter_balance. }
  intros Hplain. rewrite Hplain in Hcalls. injection Hcalls as <-.
  unfold st5. simpl. exact Hseen.
Qed.

Lemma sale_lifecycle_witness :
  ∃ st1 hid st2 cid st3 st4 st5,
    recordHarvest digest
      (get_ok (constructor 0 0 0) (grantRole (constructor 1 100 200) 1 VERIFIER_ROLE 2))
      10 1000 "coffee" 1300 5 = Ok (st1, hid) ∧
    createSalesContract digest st1 10 1000 20 hid 10 100 = Ok (st2, cid) ∧
    depositEscrow st2 20 1000 cid = Ok st3 ∧
    confirmDeliveryAndQuality st3 2 cid = Ok st4 ∧
    processPayment digest plain_accounts st4 20 2000 cid = Ok (st5, 999) ∧
    balance st5 = 1.
Proof.
  destruct (sale_lifecycle digest plain_accounts
              (get_ok (constructor 0 0 0) (grantRole (constructor 1 100 200) 1 VERIFIER_ROLE 2))
              10 20 2 1000 1000 2000 "coffee" 1300 5 10 100)
    as (st1 & hid & st2 & cid & st3 & st4 & st5 & H1 & H2 & H3 & H4 & H5 & _ & _ & Hb).
  - lia.
  - lia.
  - lia.
  - discriminate.
  - lia.
  - vm_compute. intros E; discriminate E.
  - vm_compute. reflexivity.
  - intros s. discriminate.
  - exists st1, hid, st2, cid, st3, st4, st5.
    split; [exact H1|]. split; [exact H2|]. split; [exact H3|]. split; [exact H4|].
    split; [exact H5|]. rewrite Hb by reflexivity. vm_compute. reflexivity.
Defined.

(** *** Crop insurance *)

(** X17. [createInsurancePolicy] rejects a zero insured value, a coverage outside
    1..100 and a payment below the premium floor(insuredValue * 4 / 100).
    Otherwise the policy is stored active from now until now + days * 86400,
    and the contract keeps everything that was sent, also what exceeds the
    premium. *)
Theorem createInsurancePolicy_outcomes keccak256 st sender value now _cropType
    _insuredValue _coveragePercentage _durationDays :
  (_insuredValue = 0 →
     createInsurancePolicy keccak256 st sender value now _cropType _insuredValue
       _coveragePercentage _durationDays = Revert (Error "Invalid insured value")) ∧
  (0 < _insuredValue → (_coveragePercentage = 0 ∨ 100 < _coveragePercentage) →
     createInsurancePolicy keccak256 st sender value now _cropType _insuredValue
       _coveragePercentage _durationDays = Revert (Error "Invalid coverage")) ∧
  (0 < _insuredValue → 0 < _coveragePercentage <= 100 →
   _insuredValue * 4 <= MAX_UINT256 → value < _insuredValue * 4 / 100 →
     createInsurancePolicy keccak256 st sender value now _cropType _insuredValue
       _coveragePercentage _durationDays = Revert (Error "Insufficient premium")) ∧
  (0 < _insuredValue → 0 < _coveragePercentage <= 100 →
   _insuredValue * 4 <= MAX_UINT256 → _insuredValue * 4 / 100 <= value →
   now + _durationDays * 86400 <= MAX_UINT256 →
     ∃ st' id,
       createInsurancePolicy keccak256 st sender value now _cropType _insuredValue
         _coveragePercentage _durationDays = Ok (st', id) ∧
       insurancePolicies_at st' id
         = CropInsurance.mk id sender _cropType _insuredValue (_insuredValue * 4 / 100)
             _coveragePercentage true now (now + _durationDays * 86400) ∧
       balance st' = balance st + value).
Proof.
  unfold createInsurancePolicy. repeat split.
  - intros ->. reflexivity.
  - intros Hi Hc. apply N.ltb_lt in Hi. rewrite Hi. simpl.
    assert ((0 <? _coveragePercentage) && (_coveragePercentage <=? 100) = false) as ->;
      [|reflexivity].
    destruct Hc as [->|Hc]; [reflexivity|].
    apply N.leb_gt in Hc. rewrite Hc. apply andb_false_r.
  - intros Hi [Hc1 Hc2] Hfit Hv. apply N.ltb_lt in Hi, Hc1. apply N.leb_le in Hc2.
    rewrite Hi, Hc1, Hc2. simpl. rewrite (checked_mul_fits _insuredValue 4) by exact Hfit. simpl.
    apply N.leb_gt in Hv. rewrite Hv. reflexivity.
  - intros Hi [Hc1 Hc2] Hfit Hv Hend. apply N.ltb_lt in Hi, Hc1. apply N.leb_le in Hc2.
    rewrite Hi, Hc1, Hc2. simpl. rewrite (checked_mul_fits _insuredValue 4) by exact Hfit. simpl.
    apply N.leb_le in Hv. rewrite Hv. simpl.
    change DAY with 86400.
    rewrite (checked_mul_fits _durationDays 86400) by (unfold MAX_UINT256 in *; lia). simpl.
    rewrite checked_add_fits by exact Hend. simpl.
    do 2 eexists. split; [reflexivity|].
    rewrite insurancePolicies_at_set_eq. done.
Qed.

(** X18. The guards of [processInsurancePayout], in the order the code checks
    them: only verifiers, only active policies (an unknown id is not active),
    not after endDate, and at most 100 percent. *)
Theorem processInsurancePayout_guards keccak256 accounts st sender now _policyId
    _payoutPercentage :
  (roles st VERIFIER_ROLE sender = false →
     processInsurancePayout keccak256 accounts st sender now _policyId _payoutPercentage
       = Revert (MissingRole VERIFIER_ROLE sender)) ∧
  (roles st VERIFIER_ROLE sender = true →
   (insurancePolicies st !! _policyId = None →
      processInsurancePayout keccak256 accounts st sender now _policyId _payoutPercentage
        = Revert (Error "Policy not active")) ∧
   (CropInsurance.active (insurancePolicies_at st _policyId) = true →
    CropInsurance.endDate (insurancePolicies_at st _policyId) < now →
      processInsurancePayout keccak256 accounts st sender now _policyId _payoutPercentage
        = Revert (Error "Policy expired")) ∧
   (CropInsurance.active (insurancePolicies_at st _policyId) = true →
    now <= CropInsurance.endDate (insurancePolicies_at st _policyId) →
    100 < _payoutPercentage →
      processInsurancePayout keccak256 accounts st sender now _policyId _payoutPercentage
        = Revert (Error "Invalid payout"))).
Proof.
  unfold processInsurancePayout, processInsurancePayout_effects, onlyRole. split.
  - intros ->. reflexivity.
  - intros ->. simpl. repeat split.
    + intros Hnone. unfold insurancePolicies_at. rewrite Hnone. reflexivity.
    + intros -> Hexp. simpl. apply N.leb_gt in Hexp. rewrite Hexp. reflexivity.
    + intros -> Hnow Hpct. simpl. apply N.leb_le in Hnow. rewrite Hnow. simpl.
      apply N.leb_gt in Hpct. rewrite Hpct. reflexivity.
Qed.

(** *** What any sequence of calls preserves *)

Lemma zero_contract_ok : salesContract_ok SalesContract.zero.
Proof. repeat split; simpl; auto; discriminate. Qed.

Lemma stored_contract_ok st id :
  records_ok st → salesContract_ok (salesContracts_at st id).
Proof.
  intros (_ & Hc & _). unfold salesContracts_at.
  destruct (salesContracts st !! id) as [c|] eqn:E; [exact (Hc id c E) | apply zero_contract_ok].
Qed.

Lemma active_policy_ok st id :
  records_ok st → CropInsurance.active (insurancePolicies_at st id) = true →
  policy_ok id (insurancePolicies_at st id).
Proof.
  intros (_ & _ & Hp). unfold insurancePolicies_at.
  destruct (insurancePolicies st !! id) as [p|] eqn:E; [intros _; exact (Hp id p E)|].
  simpl. discriminate.
Qed.

Lemma step_records_ok keccak256 st c :
  records_ok st → records_ok (AgricultureRuns.step keccak256 st c).
Proof.
  revert c.
  assert (Hsetc : ∀ st s id c', records_ok st →
            harvests s = harvests st → insurancePolicies s = insurancePolicies st →
            salesContracts s = salesContracts st → salesContract_ok c' →
            records_ok (set_salesContract s id c')).
  { intros st0 s id c' (Hh & Hc & Hp) E1 E2 E3 Hok. split; [|split]; simpl.
    - rewrite E1. exact Hh.
    - intros id' c''. rewrite E3, lookup_insert.
      destruct (decide (id = id')); [intros [= <-]; exact Hok | apply Hc].
    - rewrite E2. exact Hp. }
  assert (Hopen : ∀ st c, records_ok st →
            match c with
            | RoleAdmin _ | RecordHarvest _ _ _ _ _ | ConfirmDeliveryAndQuality _ _
            | CreateInsurancePolicy _ _ _ _ _ _ _ => True
            | _ => False
            end → records_ok (AgricultureRuns.step keccak256 st c)).
  { intros st0 c Hinv Hkind. pose proof Hinv as (Hh & Hc & Hp).
    destruct c; try contradiction; simpl.
    - exact Hinv.
    - unfold recordHarvest.
      destruct (0 <? _quantity) eqn:Hq; [simpl|exact Hinv].
      destruct ((1 <=? _qualityGrade) && (_qualityGrade <=? 5)) eqn:Hg; [simpl|exact Hinv].
      apply N.ltb_lt in Hq. apply andb_true_iff in Hg as [Hg1 Hg2].
      apply N.leb_le in Hg1, Hg2.
      split; [|split]; simpl; [|exact Hc|exact Hp].
      intros id h. rewrite lookup_insert.
      destruct (decide (_ = id)) as [<-|]; [intros [= <-]; by repeat split | apply Hh].
    - unfold confirmDeliveryAndQuality.
      destruct (onlyRole _ _ _) as [[]|]; [simpl|exact Hinv].
      destruct (SalesContract.completed (salesContracts_at st0 _contractId)) eqn:Hcomp;
        [exact Hinv|simpl].
      destruct (stored_contract_ok st0 _contractId Hinv) as (Ht & He & _ & _).
      apply (Hsetc st0); try reflexivity; [exact Hinv|]. unfold salesContract_ok. simpl.
      split; [exact Ht|]. split; [exact He|]. split; [reflexivity|].
      rewrite Hcomp. discriminate.
    - unfold createInsurancePolicy.
      destruct (0 <? _insuredValue) eqn:Hi; [simpl|exact Hinv].
      destruct ((0 <? _coveragePercentage) && (_coveragePercentage <=? 100)) eqn:Hcov;
        [simpl|exact Hinv].
      destruct (checked_mul _insuredValue 4) as [scaled|] eqn:Hmul; [simpl|exact Hinv].
      apply checked_mul_Ok in Hmul as [-> Hfit].
      destruct (require _ "Insufficient premium") as [[]|]; [simpl|exact Hinv].
      destruct (checked_mul _durationDays DAY) as [duration|]; [simpl|exact Hinv].
      destruct (checked_add now duration) as [endDate|] eqn:Hadd; [simpl|exact Hinv].
      apply checked_add_Ok in Hadd as [-> _].
      apply N.ltb_lt in Hi. apply andb_true_iff in Hcov as [Hc1 Hc2].
      apply N.ltb_lt in Hc1. apply N.leb_le in Hc2.
      split; [|split]; simpl; [exact Hh|exact Hc|].
      intros id p. rewrite lookup_insert.
      destruct (decide (_ = id)) as [<-|]; [intros [= <-] | apply Hp].
      repeat split; simpl; auto. lia. }
  assert (Hre : ∀ now calls st, records_ok st →
            records_ok (reenter keccak256 now st calls)).
  { intros now calls. induction calls as [|k rest IH]; intros st0 Hinv; [exact Hinv|].
    rewrite reenter_cons. apply IH. rewrite reenter_step_as_call.
    apply Hopen; [exact Hinv | destruct k; exact I]. }
  intros c Hinv. pose proof Hinv as (Hh & Hc & Hp).
  destruct c; try (apply Hopen; [exact Hinv | exact I]); simpl.
  - unfold createSalesContract.
    destruct (require _ "Not harvest owner") as [[]|]; [simpl|exact Hinv].
    destruct (require _ "Insufficient quantity") as [[]|]; [simpl|exact Hinv].
    destruct (require _ "Invalid buyer") as [[]|]; [simpl|exact Hinv].
    destruct (checked_mul _quantity _pricePerUnit) as [total|] eqn:Hmul; [simpl|exact Hinv].
    apply checked_mul_Ok in Hmul as [-> _].
    apply (Hsetc st); try reflexivity; [exact Hinv|]. repeat split; simpl; auto; discriminate.
  - destruct (depositEscrow st sender value _contractId) as [st'|] eqn:E; [simpl|exact Hinv].
    unfold depositEscrow, credit in E. rewrite salesContracts_at_set_balance in E.
    destruct (require _ "Not buyer") as [[]|]; [simpl in E|discriminate].
    destruct (SalesContract.completed (salesContracts_at st _contractId)) eqn:Hcomp;
      [discriminate|simpl in E].
    destruct (_ <=? value) eqn:Hv; [simpl in E|discriminate]. apply N.leb_le in Hv.
    injection E as <-.
    destruct (stored_contract_ok st _contractId Hinv) as (Ht & _ & Hf & _).
    apply (Hsetc st); try reflexivity; [exact Hinv|]. unfold salesContract_ok. simpl.
    split; [exact Ht|]. split; [right; exact Hv|]. split; [exact Hf|].
    rewrite Hcomp. discriminate.
  - destruct (processPayment keccak256 accounts st sender now _contractId)
      as [[st' pay]|] eqn:E; [simpl|exact Hinv].
    apply processPayment_Ok in E as (st1 & calls & Heff & _ & _ & ->).
    apply processPayment_effects_Ok in Heff as (Hd & Hq & _ & Hpos & _ & ->).
    destruct (stored_contract_ok st _contractId Hinv) as (Ht & He & Hf & _).
    apply Hre.
    apply (Hsetc st (set_balance st _)); try reflexivity; [exact Hinv|].
    unfold salesContract_ok. simpl.
    split; [exact Ht|]. split; [exact He|]. split; [exact Hf|].
    intros _. split; [exact Hd | exact Hpos].
  - destruct (processInsurancePayout keccak256 accounts st sender now _policyId
                _payoutPercentage) as [st'|] eqn:E; [simpl|exact Hinv].
    apply processInsurancePayout_Ok in E as (st1 & amount & calls & Heff & _ & _ & ->).
    apply processInsurancePayout_effects_Ok in Heff as (Hact & _ & _ & _ & ->).
    destruct (active_policy_ok st _policyId Hinv Hact) as (H1 & H2 & H3 & H4 & H5 & H6).
    apply Hre.
    split; [|split]; simpl; [exact Hh|exact Hc|].
    intros id p. rewrite lookup_insert.
    destruct (decide (_ = id)) as [<-|]; [intros [= <-] | apply Hp].
    repeat split; simpl; auto; lia.
Qed.

Lemma run_records_ok keccak256 deployer _orchestrator _paymentToken calls :
  records_ok (AgricultureRuns.run keccak256
                (constructor deployer _orchestrator _paymentToken) calls).
Proof.
  assert (H : ∀ st, records_ok st →
            records_ok (AgricultureRuns.run keccak256 st calls)).
  { induction calls as [|c rest IH]; intros st Hinv; [exact Hinv|].
    simpl. apply IH, step_records_ok, Hinv. }
  apply H. split; [|split]; intros i x; simpl; rewrite lookup_empty; discriminate.
Qed.

(** X19. On a deployed contract, whatever is called, and whatever the
    recipients of its transfers call back meanwhile: every stored harvest has
    a positive quantity, a grade in 1..5 and is unverified (no function ever
    verifies a harvest); every stored sale has total = quantity * price, an
    escrow that is either 0 or at least the total, both confirmation flags
    equal, and is completed only if it was confirmed and funded; every stored
    policy has a coverage in 1..100 and the premium floor(insuredValue * 4 /
    100). *)
Theorem stored_records_wellformed keccak256 deployer _orchestrator _paymentToken calls :
  (∀ id h,
     harvests (AgricultureRuns.run keccak256
                 (constructor deployer _orchestrator _paymentToken) calls) !! id = Some h →
     harvest_ok id h) ∧
  (∀ id, salesContract_ok
           (salesContracts_at (AgricultureRuns.run keccak256
              (constructor deployer _orchestrator _paymentToken) calls) id)) ∧
  (∀ id p,
     insurancePolicies (AgricultureRuns.run keccak256
                          (constructor deployer _orchestrator _paymentToken) calls) !! id
       = Some p →
     policy_ok id p).
Proof.
  pose proof (run_records_ok keccak256 deployer _orchestrator _paymentToken calls)
    as Hinv.
  split; [apply Hinv|]. split; [|apply Hinv].
  intros id. apply stored_contract_ok, Hinv.
Qed.

(** X20. A payout never costs more than the insured value: on a deployed
    contract, whatever was called before, a successful
    [processInsurancePayout] pays at most the policy's insuredValue, so the
    contract's balance afterwards is at least the balance before less the
    insured value, whatever the farmer's account calls during the transfer.
    The policy is inactive afterwards unless a call made during the transfer
    created a policy under the same id. *)
Theorem payout_at_most_insured_value keccak256 accounts deployer _orchestrator _paymentToken
    calls sender now _policyId _payoutPercentage st' :
  processInsurancePayout keccak256 accounts
    (AgricultureRuns.run keccak256
       (constructor deployer _orchestrator _paymentToken) calls)
    sender now _policyId _payoutPercentage = Ok st' →
  CropInsurance.insuredValue
    (insurancePolicies_at
       (AgricultureRuns.run keccak256
          (constructor deployer _orchestrator _paymentToken) calls) _policyId)
    * CropInsurance.coveragePercentage
        (insurancePolicies_at
           (AgricultureRuns.run keccak256
              (constructor deployer _orchestrator _paymentToken) calls) _policyId)
    * _payoutPercentage / 10000
  <= CropInsurance.insuredValue
       (insurancePolicies_at
          (AgricultureRuns.run keccak256
             (constructor deployer _orchestrator _paymentToken) calls) _policyId) ∧
  balance (AgricultureRuns.run keccak256
             (constructor deployer _orchestrator _paymentToken) calls)
    <= balance st'
       + CropInsurance.insuredValue
           (insurancePolicies_at
              (AgricultureRuns.run keccak256
                 (constructor deployer _orchestrator _paymentToken) calls) _policyId) ∧
  ((∀ a s made, accounts a s = Some made →
      Forall (λ k, ¬ reentry_creates_policy keccak256 now _policyId k) made) →
   CropInsurance.active (insurancePolicies_at st' _policyId) = false).
Proof.
  pose proof (run_records_ok keccak256 deployer _orchestrator _paymentToken calls)
    as Hinv.
  generalize dependent (AgricultureRuns.run keccak256
                          (constructor deployer _orchestrator _paymentToken) calls).
  intros st Hinv E.
  apply processInsurancePayout_Ok in E as (st1 & amount & made & Heff & Hle & Ha & ->).
  apply processInsurancePayout_effects_Ok in Heff as (Hact & Hpct & _ & -> & ->).
  destruct (active_policy_ok st _policyId Hinv Hact) as (_ & _ & [_ Hcov] & _).
  match goal with |- context [balance (reenter ?k ?n ?s ?l)] =>
    pose proof (reenter_balance k n l s) as Hin end.
  change (balance (set_balance ?s ?b)) with b in Hin.
  change (balance (set_insurancePolicy st ?i ?q)) with (balance st) in *.
  set (p := insurancePolicies_at st _policyId) in *.
  assert (Hamount : CropInsurance.insuredValue p * CropInsurance.coveragePercentage p
                      * _payoutPercentage / 10000 <= CropInsurance.insuredValue p).
  { transitivity (CropInsurance.insuredValue p * 10000 / 10000).
    - apply N.Div0.div_le_mono.
      transitivity (CropInsurance.insuredValue p * 100 * 100); [|lia].
      apply N.mul_le_mono; [apply N.mul_le_mono_l; exact Hcov | exact Hpct].
    - rewrite N.div_mul by lia. lia. }
  split; [exact Hamount|].
  set (amount := CropInsurance.insuredValue p * CropInsurance.coveragePercentage p
                   * _payoutPercentage / 10000) in *.
  split; [clearbody amount; lia|].
  intros Hquiet. rewrite reenter_policy_kept by exact (Hquiet _ _ _ Ha).
  unfold insurancePolicies_at. simpl. rewrite lookup_insert_eq. reflexivity.
Qed.

Lemma payout_at_most_insured_value_witness :
  ∃ st', processInsurancePayout digest plain_accounts
           (AgricultureRuns.run digest (constructor 1 100 200) busy_day)
           2 2000 (digest [AAddress 10; AString "coffee"; AUint 1000]) 50 = Ok st' ∧
    balance (AgricultureRuns.run digest (constructor 1 100 200) busy_day) = 5001 ∧
    balance st' = 1001 ∧
    CropInsurance.active
      (insurancePolicies_at st' (digest [AAddress 10; AString "coffee"; AUint 1000])) = false.
Proof.
  assert (E : processInsurancePayout digest plain_accounts
           (AgricultureRuns.run digest (constructor 1 100 200) busy_day)
           2 2000 (digest [AAddress 10; AString "coffee"; AUint 1000]) 50
         = Ok (get_ok (constructor 0 0 0)
                 (processInsurancePayout digest plain_accounts
                    (AgricultureRuns.run digest (constructor 1 100 200) busy_day)
                    2 2000 (digest [AAddress 10; AString "coffee"; AUint 1000]) 50)))
    by (vm_compute; reflexivity).
  destruct (payout_at_most_insured_value _ _ _ _ _ _ _ _ _ _ _ E) as (_ & _ & Hoff).
  eexists. split; [exact E|]. split; [vm_compute; reflexivity|].
  split; [vm_compute; reflexivity|].
  apply Hoff. intros a s made [= <-]. constructor.
Defined.

(** *** What the caveats are for *)

(** The farmer's account can pay in while it is being paid: with
    [reinvesting_farmer] the buyer's [processPayment] on [funded_run] sends
    999 and the contract, which held 1000, is left with 401, not 1. *)
Lemma transfer_can_pay_in :
  ∃ st', processPayment digest reinvesting_farmer funded_state 20 2000 funded_contract
           = Ok (st', 999) ∧
    balance funded_state = 1000 ∧ balance st' = 401 ∧
    CropInsurance.active
      (insurancePolicies_at st' (digest [AAddress 10; AString "coffee"; AUint 2000])) = true.
Proof. eexists. split; [vm_compute; reflexivity|]. repeat split; vm_compute; reflexivity. Qed.

(** A payout made at the policy's creation timestamp can leave the policy
    active: the farmer's account creates it again during the transfer, and
    the verifier's second payout succeeds as well. *)
Lemma payout_at_creation_time_reactivates :
  ∃ st1 st2,
    processInsurancePayout digest reinvesting_farmer overpaid_state 2 1000 overpaid_policy 10
      = Ok st1 ∧
    CropInsurance.active (insurancePolicies_at st1 overpaid_policy) = true ∧
    processInsurancePayout digest reinvesting_farmer st1 2 1000 overpaid_policy 10 = Ok st2 ∧
    balance overpaid_state = 5000 ∧ balance st1 = 4600 ∧ balance st2 = 4200.
Proof.
  do 2 eexists. split; [vm_compute; reflexivity|]. split; [vm_compute; reflexivity|].
  split; [vm_compute; reflexivity|]. repeat split; vm_compute; reflexivity.
Qed.

(** A sale created again by the same farmer for the same buyer and harvest
    at the same timestamp takes the place of the completed one: funded and
    confirmed again, the same id is paid a second time. *)
Lemma recreated_sale_is_paid_again :
  ∃ st1 st2,
    processPayment digest plain_accounts funded_state 20 2000 funded_contract
      = Ok (st1, 999) ∧
    creates_sale digest funded_contract
      (CreateSalesContract 10 1000 20
         (digest [AAddress 10; AString "coffee"; AUint 1300; AUint 1000]) 10 100) ∧
    processPayment digest plain_accounts
      (AgricultureRuns.run digest st1
         [CreateSalesContract 10 1000 20
            (digest [AAddress 10; AString "coffee"; AUint 1300; AUint 1000]) 10 100;
          DepositEscrow 20 1000 funded_contract;
          ConfirmDeliveryAndQuality 2 funded_contract])
      20 3000 funded_contract
    = Ok (st2, 999).
Proof.
  do 2 eexists. split; [vm_compute; reflexivity|]. split; vm_compute; reflexivity.
Qed.

Lemma recordHarvest_outcomes_witness :
  recordHarvest digest (constructor 1 100 200) 10 1000 "coffee" 1300 6
    = Revert (Error "Invalid grade") ∧
  ∃ st' id, recordHarvest digest (constructor 1 100 200) 10 1000 "coffee" 1300 5 = Ok (st', id) ∧
    getFarmerHarvests st' 10 = [id].
Proof.
  split.
  - destruct (recordHarvest_outcomes digest (constructor 1 100 200) 10 1000 "coffee" 1300 6)
      as (_ & H & _).
    apply H; [lia | right; lia].
  - destruct (recordHarvest_outcomes digest (constructor 1 100 200) 10 1000 "coffee" 1300 5)
      as (_ & _ & H).
    destruct H as (st' & id & H1 & _ & H3 & _); [lia | lia |].
    exists st', id. split; [exact H1|]. rewrite H3. reflexivity.
Defined.

Lemma createSalesContract_outcomes_witness :
  createSalesContract digest harvest_state 10 1000 20 harvest_id 1301 100
    = Revert (Error "Insufficient quantity") ∧
  ∃ st' id, createSalesContract digest harvest_state 10 1000 20 harvest_id 10 100 = Ok (st', id) ∧
    SalesContract.totalAmount (salesContracts_at st' id) = 1000.
Proof.
  split.
  - destruct (createSalesContract_outcomes digest harvest_state 10 1000 20 harvest_id 1301 100)
      as (_ & H & _).
    apply H; vm_compute; reflexivity.
  - destruct (createSalesContract_outcomes digest harvest_state 10 1000 20 harvest_id 10 100)
      as (_ & _ & _ & _ & H).
    destruct H as (st' & id & H1 & H2 & _).
    + vm_compute. reflexivity.
    + vm_compute. intros E; discriminate E.
    + discriminate.
    + vm_compute. intros E; discriminate E.
    + exists st', id. split; [exact H1|]. rewrite H2. reflexivity.
Defined.

Lemma confirmDeliveryAndQuality_outcomes_witness :
  ∃ st', confirmDeliveryAndQuality unfunded_state 2 unfunded_contract = Ok st' ∧
    harvests st' = harvests unfunded_state ∧
    processPayment digest plain_accounts st' 20 2000 unfunded_contract
      = Revert (Error "No escrow").
Proof.
  destruct (confirmDeliveryAndQuality_outcomes digest plain_accounts unfunded_state 2
              unfunded_contract) as (_ & _ & H).
  destruct H as (st' & H1 & _ & _ & Hh & _ & _ & _ & _ & _ & _ & H4).
  - vm_compute. reflexivity.
  - vm_compute. reflexivity.
  - exists st'. split; [exact H1|]. split; [exact Hh|].
    assert (Hb : SalesContract.buyer (salesContracts_at unfunded_state unfunded_contract) = 20)
      by (vm_compute; reflexivity).
    rewrite Hb in H4. apply H4. vm_compute. reflexivity.
Defined.

Lemma createInsurancePolicy_outcomes_witness :
  createInsurancePolicy digest (constructor 1 100 200) 10 399 1000 "coffee" 10000 80 90
    = Revert (Error "Insufficient premium") ∧
  ∃ st' id,
    createInsurancePolicy digest (constructor 1 100 200) 10 5000 1000 "coffee" 10000 80 90
      = Ok (st', id) ∧
    CropInsurance.premium (insurancePolicies_at st' id) = 400 ∧ balance st' = 5000.
Proof.
  split.
  - destruct (createInsurancePolicy_outcomes digest (constructor 1 100 200) 10 399 1000
                "coffee" 10000 80 90) as (_ & _ & H & _).
    apply H; [lia | lia | vm_compute; intros E; discriminate E | vm_compute; reflexivity].
  - destruct (createInsurancePolicy_outcomes digest (constructor 1 100 200) 10 5000 1000
                "coffee" 10000 80 90) as (_ & _ & _ & H).
    destruct H as (st' & id & H1 & H2 & H3).
    + lia.
    + lia.
    + vm_compute. intros E; discriminate E.
    + vm_compute. intros E; discriminate E.
    + vm_compute. intros E; discriminate E.
    + exists st', id. split; [exact H1|]. rewrite H2, H3. split; reflexivity.
Defined.

Lemma processInsurancePayout_guards_witness :
  overpaid_run = Ok (overpaid_state, overpaid_policy) ∧
  processInsurancePayout digest plain_accounts overpaid_state 2 8000000 overpaid_policy 50
    = Revert (Error "Policy expired") ∧
  processInsurancePayout digest plain_accounts overpaid_state 2 2000 overpaid_policy 101
    = Revert (Error "Invalid payout").
Proof.
  split; [vm_compute; reflexivity|]. split.
  - destruct (processInsurancePayout_guards digest plain_accounts overpaid_state 2 8000000
                overpaid_policy 50) as (_ & H).
    destruct H as (_ & H & _); [vm_compute; reflexivity|].
    apply H; vm_compute; reflexivity.
  - destruct (processInsurancePayout_guards digest plain_accounts overpaid_state 2 2000
                overpaid_policy 101) as (_ & H).
    destruct H as (_ & _ & H); [vm_compute; reflexivity|].
    apply H; [vm_compute; reflexivity | vm_compute; intros E; discriminate E | lia].
Defined.

Lemma stored_records_wellformed_witness :
  harvest_ok (digest [AAddress 10; AString "coffee"; AUint 1300; AUint 1000])
    (harvests_at (AgricultureRuns.run digest (constructor 1 100 200) busy_day)
       (digest [AAddress 10; AString "coffee"; AUint 1300; AUint 1000])) ∧
  policy_ok (digest [AAddress 10; AString "coffee"; AUint 1000])
    (insurancePolicies_at
       (AgricultureRuns.run digest (constructor 1 100 200) busy_day)
       (digest [AAddress 10; AString "coffee"; AUint 1000])).
Proof.
  destruct (stored_records_wellformed digest 1 100 200 busy_day) as (Hh & _ & Hp).
  split.
  - apply Hh. vm_compute. reflexivity.
  - apply Hp. vm_compute. reflexivity.
Defined.

End AgricultureExtras.

(** ** The healthcare contract beyond the claims *)

Module HealthcareExtras.
Import Healthcare HealthcareRuns HealthcareFacts.

Lemma deductPremium_Ok st _patient _amount st' ok :
  deductPremium st _patient _amount = Ok (st', ok) → st' = st ∧ ok = true.
Proof.
  unfold deductPremium. intros H.
  destruct (require _ "Policy not active") as [[]|]; [simpl in H|discriminate].
  destruct (require _ "Auto-deduct not enabled") as [[]|]; [simpl in H|discriminate].
  destruct (require _ "Insufficient amount") as [[]|]; [simpl in H|discriminate].
  injection H as <- <-. split; reflexivity.
Qed.

(** X21. [deductPremium] only authorises: it fails when the patient's current
    policy is not active (a patient without a policy has none), when
    auto-deduct is off, or when the amount is below the monthly premium, and
    otherwise returns true. In no case does it change the state; an amount
    above the premium is accepted as it is. *)
Theorem deductPremium_outcomes st _patient _amount :
  let policy := insurancePolicies_at st (patientInsurance_at st _patient) in
  (HealthInsurance.active policy = false →
     deductPremium st _patient _amount = Revert (Error "Policy not active")) ∧
  (HealthInsurance.active policy = true → HealthInsurance.autoDeduct policy = false →
     deductPremium st _patient _amount = Revert (Error "Auto-deduct not enabled")) ∧
  (HealthInsurance.active policy = true → HealthInsurance.autoDeduct policy = true →
   _amount < HealthInsurance.monthlyPremium policy →
     deductPremium st _patient _amount = Revert (Error "Insufficient amount")) ∧
  (HealthInsurance.active policy = true → HealthInsurance.autoDeduct policy = true →
   HealthInsurance.monthlyPremium policy <= _amount →
     deductPremium st _patient _amount = Ok (st, true)) ∧
  (∀ st' ok, deductPremium st _patient _amount = Ok (st', ok) → st' = st ∧ ok = true).
Proof.
  intros policy. split; [|split; [|split; [|split]]].
  - unfold deductPremium. fold policy. intros ->. reflexivity.
  - unfold deductPremium. fold policy. intros -> ->. reflexivity.
  - unfold deductPremium. fold policy. intros -> -> Hlt. simpl.
    apply N.leb_gt in Hlt. rewrite Hlt. reflexivity.
  - unfold deductPremium. fold policy. intros -> -> Hle. simpl.
    apply N.leb_le in Hle. rewrite Hle. reflexivity.
  - intros st' ok. apply deductPremium_Ok.
Qed.

(** X22. [createInsurancePolicy] never fails. The new policy is active and becomes
    the patient's current one; a policy the patient held before, if its id
    differs, stays stored as it was, but billing and deductions follow the new
    one. Other patients' current policies do not move. *)
Theorem createInsurancePolicy_replaces_current keccak256 st sender now _planType
    _monthlyPremium _coverageLimit _autoDeduct :
  ∃ st' id,
    createInsurancePolicy keccak256 st sender now _planType _monthlyPremium _coverageLimit
      _autoDeduct = Ok (st', id) ∧
    patientInsurance_at st' sender = id ∧
    insurancePolicies_at st' id
      = HealthInsurance.mk id sender _planType _monthlyPremium _coverageLimit _autoDeduct 0
          true now ∧
    (∀ old, old ≠ id → insurancePolicies_at st' old = insurancePolicies_at st old) ∧
    (∀ other, other ≠ sender → patientInsurance_at st' other = patientInsurance_at st other) ∧
    (∀ provider when facility diagnosis cost st'' visit,
       recordVisit keccak256 st' provider when sender facility diagnosis cost
         = Ok (st'', visit) →
       HealthcareVisit.insuranceCovered (visits_at st'' visit)
         = if cost <=? _coverageLimit then cost * 80 / 100 else 0).
Proof.
  unfold createInsurancePolicy. do 2 eexists. split; [reflexivity|].
  assert (Hcur : ∀ m v, patientInsurance_at
            {| roles := roles st; orchestrator := orchestrator st; insurancePolicies := m;
               patientInsurance :=
                 <[sender := keccak256 [AAddress sender; AString _planType; AUint now]]>
                   (patientInsurance st);
               visits := v |} sender
          = keccak256 [AAddress sender; AString _planType; AUint now]).
  { intros m v. unfold patientInsurance_at. simpl. rewrite lookup_insert_eq. reflexivity. }
  assert (Hpol : ∀ pi v, insurancePolicies_at
            {| roles := roles st; orchestrator := orchestrator st;
               insurancePolicies :=
                 <[keccak256 [AAddress sender; AString _planType; AUint now] :=
                     HealthInsurance.mk
                       (keccak256 [AAddress sender; AString _planType; AUint now]) sender
                       _planType _monthlyPremium _coverageLimit _autoDeduct 0 true now]>
                   (insurancePolicies st);
               patientInsurance := pi; visits := v |}
            (keccak256 [AAddress sender; AString _planType; AUint now])
          = HealthInsurance.mk (keccak256 [AAddress sender; AString _planType; AUint now])
              sender _planType _monthlyPremium _coverageLimit _autoDeduct 0 true now).
  { intros pi v. unfold insurancePolicies_at. simpl. rewrite lookup_insert_eq. reflexivity. }
  split; [apply Hcur|]. split; [apply Hpol|]. split; [|split].
  - intros old Hne. unfold insurancePolicies_at. simpl.
    rewrite lookup_insert_ne by done. reflexivity.
  - intros other Hne. unfold patientInsurance_at. simpl.
    rewrite lookup_insert_ne by done. reflexivity.
  - intros provider when facility diagnosis cost st'' visit Hrun.
    apply recordVisit_Ok in Hrun as (_ & c & p & Hsplit & ->). simpl.
    rewrite Hcur, Hpol in Hsplit.
    apply coverage_split_Ok in Hsplit as [-> _]. reflexivity.
Qed.

(** *** What any sequence of calls preserves *)

Lemma step_healthcare_invariants keccak256 st c :
  current_policies_active st ∧ visits_balanced st →
  current_policies_active (HealthcareRuns.step keccak256 st c) ∧
  visits_balanced (HealthcareRuns.step keccak256 st c).
Proof.
  intros [Hact Hbal]. destruct c; simpl.
  - split; [exact Hact | exact Hbal].
  - split; [|exact Hbal].
    intros p id. simpl. rewrite lookup_insert.
    destruct (decide (sender = p)) as [->|Hne].
    + intros [= <-]. unfold insurancePolicies_at. simpl.
      rewrite lookup_insert_eq. reflexivity.
    + intros Hp. unfold insurancePolicies_at. simpl. rewrite lookup_insert.
      destruct (decide (_ = id)); [reflexivity|]. exact (Hact p id Hp).
  - destruct (deductPremium st _patient _amount) as [[st' ok]|] eqn:E; simpl.
    + destruct (deductPremium_Ok st _patient _amount st' ok E) as [-> _].
      split; [exact Hact | exact Hbal].
    + split; [exact Hact | exact Hbal].
  - destruct (recordVisit keccak256 st sender now _patient _facility _diagnosis _cost)
      as [[st' id]|] eqn:E; simpl; [|split; [exact Hact | exact Hbal]].
    unfold recordVisit in E.
    destruct (onlyRole _ _ _) as [[]|]; [simpl in E|discriminate].
    destruct (coverage_split _ _cost) as [[covered payment]|] eqn:Hsplit;
      [simpl in E|discriminate].
    injection E as <- <-. split; [exact Hact|].
    intros id v. simpl. rewrite lookup_insert.
    destruct (decide (_ = id)); [intros [= <-]; simpl | apply Hbal].
    apply coverage_split_Ok in Hsplit as [-> ->].
    destruct (HealthInsurance.active _ && _).
    + pose proof (N.Div0.mul_div_le (_cost * 80) 100) as Hlo.
      set (covered := _cost * 80 / 100) in *. clearbody covered. lia.
    + lia.
Qed.

(** X23. On a deployed contract, whatever is called: a patient who has a current
    policy has an active one (no function deactivates a health policy), and
    every stored visit splits its cost exactly, insuranceCovered +
    patientPayment = cost, with the insurer's share at most 80%. *)
Theorem healthcare_invariants keccak256 deployer _orchestrator calls :
  (∀ p id,
     patientInsurance (HealthcareRuns.run keccak256 (constructor deployer _orchestrator) calls)
       !! p = Some id →
     HealthInsurance.active
       (insurancePolicies_at
          (HealthcareRuns.run keccak256 (constructor deployer _orchestrator) calls) id) = true) ∧
  (∀ id v,
     visits (HealthcareRuns.run keccak256 (constructor deployer _orchestrator) calls) !! id
       = Some v →
     HealthcareVisit.insuranceCovered v + HealthcareVisit.patientPayment v
       = HealthcareVisit.cost v ∧
     HealthcareVisit.insuranceCovered v * 100 <= HealthcareVisit.cost v * 80).
Proof.
  assert (H : ∀ st, current_policies_active st ∧ visits_balanced st →
            current_policies_active (HealthcareRuns.run keccak256 st calls) ∧
            visits_balanced (HealthcareRuns.run keccak256 st calls)).
  { induction calls as [|c rest IH]; intros st Hinv; [exact Hinv|].
    simpl. apply IH, step_healthcare_invariants, Hinv. }
  apply H. split; intros i x; simpl; rewrite lookup_empty; discriminate.
Qed.

Lemma deductPremium_outcomes_witness :
  deductPremium insured_patient 7 4999 = Revert (Error "Insufficient amount") ∧
  deductPremium insured_patient 7 6000 = Ok (insured_patient, true) ∧
  deductPremium insured_patient 8 6000 = Revert (Error "Policy not active").
Proof.
  split; [|split].
  - destruct (deductPremium_outcomes insured_patient 7 4999) as (_ & _ & H & _).
    apply H; vm_compute; reflexivity.
  - destruct (deductPremium_outcomes insured_patient 7 6000) as (_ & _ & _ & H & _).
    apply H; [vm_compute; reflexivity | vm_compute; reflexivity
             | vm_compute; intros E; discriminate E].
  - destruct (deductPremium_outcomes insured_patient 8 6000) as (H & _).
    apply H. vm_compute. reflexivity.
Defined.

Lemma createInsurancePolicy_replaces_current_witness :
  ∃ st' id st'' visit,
    createInsurancePolicy digest insured_patient 7 3000 "Premium Plan" 9000 500 true
      = Ok (st', id) ∧
    patientInsurance_at st' 7 = id ∧
    recordVisit digest st' 3 4000 7 30 "flu" 1000 = Ok (st'', visit) ∧
    HealthcareVisit.insuranceCovered (visits_at st'' visit) = 0.
Proof.
  destruct (createInsurancePolicy_replaces_current digest insured_patient 7 3000
              "Premium Plan" 9000 500 true) as (st' & id & H1 & H2 & _ & _ & _ & Hv).
  destruct (recordVisit digest st' 3 4000 7 30 "flu" 1000) as [[st'' visit]|e] eqn:E.
  - exists st', id, st'', visit.
    split; [exact H1|]. split; [exact H2|]. split; [exact E|].
    rewrite (Hv 3 4000 30 "flu" 1000 st'' visit E). reflexivity.
  - exfalso. injection H1 as <- _. vm_compute in E. discriminate E.
Defined.

Lemma healthcare_invariants_witness :
  HealthInsurance.active
    (insurancePolicies_at (HealthcareRuns.run digest (constructor 1 100) clinic_day)
       (digest [AAddress 7; AString "Basic Plan"; AUint 1000])) = true ∧
  ∃ v, visits (HealthcareRuns.run digest (constructor 1 100) clinic_day)
         !! digest [AAddress 7; AAddress 30; AUint 2000] = Some v ∧
    HealthcareVisit.insuranceCovered v + HealthcareVisit.patientPayment v
      = HealthcareVisit.cost v ∧
    HealthcareVisit.insuranceCovered v = 800.
Proof.
  destruct (healthcare_invariants digest 1 100 clinic_day) as (Ha & Hv).
  split.
  - apply (Ha 7). vm_compute. reflexivity.
  - destruct (visits (HealthcareRuns.run digest (constructor 1 100) clinic_day)
                !! digest [AAddress 7; AAddress 30; AUint 2000]) as [v|] eqn:E;
      [|exfalso; vm_compute in E; discriminate E].
    exists v. split; [reflexivity|].
    destruct (Hv _ _ E) as [Hsum _]. split; [exact Hsum|].
    vm_compute in E. injection E as <-. reflexivity.
Defined.

End HealthcareExtras.

(** ** The sustainability contract beyond the claims *)

Module SustainabilityExtras.
Import Sustainability SustainabilityFacts.

(** X24. [awardCarbonCredits] is for verifiers. It accepts any amount, zero
    included, and fails only when the entity's balance would leave uint256.
    The credit is stored verified and not retired, with vintage
    floor(now / 31536000) + 1970, and only the entity's balance moves. *)
Theorem awardCarbonCredits_outcomes keccak256 st sender now _entity _amount _projectType :
  now <= MAX_UINT256 →
  (roles st VERIFIER_ROLE sender = false →
     awardCarbonCredits keccak256 st sender now _entity _amount _projectType
       = Revert (MissingRole VERIFIER_ROLE sender)) ∧
  (roles st VERIFIER_ROLE sender = true →
   MAX_UINT256 < entityCarbonBalance_at st _entity + _amount →
     awardCarbonCredits keccak256 st sender now _entity _amount _projectType
       = Revert (Panic ARITHMETIC)) ∧
  (roles st VERIFIER_ROLE sender = true →
   entityCarbonBalance_at st _entity + _amount <= MAX_UINT256 →
     ∃ st' id,
       awardCarbonCredits keccak256 st sender now _entity _amount _projectType = Ok (st', id) ∧
       carbonCredits_at st' id
         = {| creditId := id; entity := _entity; amount := _amount;
              vintage := now / 31536000 + 1970; projectType := _projectType;
              verified := true; retired := false; timestamp := now |} ∧
       entityCarbonBalance_at st' _entity = entityCarbonBalance_at st _entity + _amount ∧
       (∀ other, other ≠ _entity →
          entityCarbonBalance_at st' other = entityCarbonBalance_at st other)).
Proof.
  intros Hnow.
  assert (Hyear : checked_add (now / YEAR) 1970 = Ok (now / 31536000 + 1970)).
  { apply checked_add_fits. change YEAR with 31536000.
    pose proof (N.Div0.div_le_mono now MAX_UINT256 31536000 Hnow) as Hd.
    assert (MAX_UINT256 / 31536000 + 1970 <= MAX_UINT256) by (vm_compute; discriminate).
    lia. }
  unfold awardCarbonCredits, onlyRole. repeat split.
  - intros ->. reflexivity.
  - intros -> Ho. simpl. rewrite Hyear. simpl.
    unfold checked_add. apply N.leb_gt in Ho. rewrite Ho. reflexivity.
  - intros -> Hfit. simpl. rewrite Hyear. simpl.
    rewrite (checked_add_fits _ _amount) by exact Hfit. simpl.
    do 2 eexists. split; [reflexivity|]. split; [|split].
    + unfold carbonCredits_at. simpl. rewrite lookup_insert_eq. reflexivity.
    + unfold entityCarbonBalance_at at 1. simpl. rewrite lookup_insert_eq. reflexivity.
    + intros other Hne. unfold entityCarbonBalance_at at 1. simpl.
      rewrite lookup_insert_ne by done. reflexivity.
Qed.

Lemma awardCarbonCredits_outcomes_witness :
  ∃ st' id, awardCarbonCredits digest verifier_state 2 1762000000 7 0 "organic" = Ok (st', id) ∧
    vintage (carbonCredits_at st' id) = 2025 ∧
    amount (carbonCredits_at st' id) = 0.
Proof.
  destruct (awardCarbonCredits_outcomes digest verifier_state 2 1762000000 7 0 "organic")
    as (_ & _ & Hok).
  - vm_compute. intros E; discriminate E.
  - destruct Hok as (st' & id & Hrun & Hc & _).
    + reflexivity.
    + vm_compute. intros E; discriminate E.
    + exists st', id. split; [exact Hrun|]. rewrite Hc. split; reflexivity.
Defined.

(** X25. [retireCredits] is for the credit's entity alone: anyone else, a
    verifier or admin included, gets "Not credit owner", as does anyone
    retiring an id that was never awarded. A retirement marks that credit
    retired and lowers the caller's balance by its amount; no other credit and
    no other balance changes. *)
Theorem retireCredits_outcomes st sender _creditId :
  (entity (carbonCredits_at st _creditId) ≠ sender →
     retireCredits st sender _creditId = Revert (Error "Not credit owner")) ∧
  (sender ≠ 0 → carbonCredits st !! _creditId = None →
     retireCredits st sender _creditId = Revert (Error "Not credit owner")) ∧
  (∀ st', retireCredits st sender _creditId = Ok st' →
     carbonCredits_at st' _creditId = with_retired (carbonCredits_at st _creditId) true ∧
     entityCarbonBalance_at st' sender + amount (carbonCredits_at st _creditId)
       = entityCarbonBalance_at st sender ∧
     (∀ other, other ≠ _creditId → carbonCredits_at st' other = carbonCredits_at st other) ∧
     (∀ other, other ≠ sender →
        entityCarbonBalance_at st' other = entityCarbonBalance_at st other) ∧
     roles st' = roles st).
Proof.
  assert (Hown : entity (carbonCredits_at st _creditId) ≠ sender →
                 retireCredits st sender _creditId = Revert (Error "Not credit owner")).
  { intros Hne. unfold retireCredits. apply N.eqb_neq in Hne. rewrite Hne. reflexivity. }
  split; [exact Hown|]. split.
  - intros Hs Hnone. apply Hown. rewrite (carbonCredits_at_missing _ _ Hnone). simpl.
    intros E. apply Hs. symmetry. exact E.
  - intros st' Hok. apply retireCredits_Ok in Hok as (_ & _ & Hle & ->).
    split; [|split; [|split; [|split]]].
    + unfold carbonCredits_at at 1. simpl. rewrite lookup_insert_eq. reflexivity.
    + unfold entityCarbonBalance_at at 1. simpl. rewrite lookup_insert_eq. simpl. lia.
    + intros other Hne. unfold carbonCredits_at at 1. simpl.
      rewrite lookup_insert_ne by done. reflexivity.
    + intros other Hne. unfold entityCarbonBalance_at at 1. simpl.
      rewrite lookup_insert_ne by done. reflexivity.
    + reflexivity.
Qed.

Lemma retireCredits_outcomes_witness :
  retireCredits awarded_state 2 awarded_credit = Revert (Error "Not credit owner") ∧
  ∃ st', retireCredits awarded_state 7 awarded_credit = Ok st' ∧
    entityCarbonBalance_at st' 7 + 1000 = 1000.
Proof.
  split.
  - destruct (retireCredits_outcomes awarded_state 2 awarded_credit) as (H & _).
    apply H. vm_compute. intros E; discriminate E.
  - destruct (retireCredits_outcomes awarded_state 7 awarded_credit) as (_ & _ & H).
    destruct (retireCredits awarded_state 7 awarded_credit) as [st'|e] eqn:E.
    + exists st'. split; [reflexivity|].
      destruct (H st' eq_refl) as (_ & Hb & _).
      replace 1000 with (amount (carbonCredits_at awarded_state awarded_credit)) at 1
        by (vm_compute; reflexivity).
      rewrite Hb. vm_compute. reflexivity.
    + exfalso. vm_compute in E. discriminate E.
Defined.

End SustainabilityExtras.

(** ** The file service *)

Module FileServiceExtras.
Import FileService.
#[local] Open Scope nat_scope.

Lemma chunkSize_at_eq data offset :
  chunkSize_at data offset = Nat.min MAX_CHUNK_SIZE (length data - offset).
Proof. reflexivity. Qed.

Lemma splitIntoChunks_from_unfold data offset chunks :
  splitIntoChunks_from data offset chunks
  = if decide (offset < length data)
    then splitIntoChunks_from data (offset + chunkSize_at data offset)
           (chunks ++ [take (chunkSize_at data offset) (drop offset data)])
    else chunks.
Proof.
  rewrite splitIntoChunks_from_equation_1.
  destruct (decide (offset < length data)); reflexivity.
Qed.

Lemma splitIntoChunks_from_done data offset chunks :
  length data <= offset → splitIntoChunks_from data offset chunks = chunks.
Proof.
  intros H. rewrite splitIntoChunks_from_unfold.
  destruct (decide (offset < length data)); [lia | reflexivity].
Qed.

(** The chunks pushed so far are a prefix of the result. *)
Lemma splitIntoChunks_from_acc data k : ∀ offset chunks,
  length data - offset <= k →
  splitIntoChunks_from data offset chunks = chunks ++ splitIntoChunks_from data offset [].
Proof.
  induction k as [|k IH]; intros offset chunks Hk.
  - rewrite !splitIntoChunks_from_done by lia. rewrite app_nil_r. reflexivity.
  - rewrite (splitIntoChunks_from_unfold data offset chunks),
            (splitIntoChunks_from_unfold data offset []).
    destruct (decide (offset < length data)) as [Hlt|Hge]; [|rewrite app_nil_r; reflexivity].
    pose proof (chunkSize_at_progress data offset Hlt) as Hprog.
    rewrite (IH _ (chunks ++ _)) by lia. rewrite (IH _ ([] ++ _)) by lia.
    rewrite <- !app_assoc. reflexivity.
Qed.

Lemma splitIntoChunks_from_step data offset :
  offset < length data →
  splitIntoChunks_from data offset []
  = take (chunkSize_at data offset) (drop offset data)
    :: splitIntoChunks_from data (offset + chunkSize_at data offset) [].
Proof.
  intros Hlt. rewrite splitIntoChunks_from_unfold.
  destruct (decide (offset < length data)); [|lia].
  rewrite (splitIntoChunks_from_acc data (length data)) by lia. reflexivity.
Qed.

Lemma MAX_CHUNK_SIZE_pos : 0 < MAX_CHUNK_SIZE.
Proof. unfold MAX_CHUNK_SIZE. lia. Qed.

Lemma chunkSize_at_bounds data offset :
  offset < length data →
  0 < chunkSize_at data offset ∧ chunkSize_at data offset <= MAX_CHUNK_SIZE ∧
  chunkSize_at data offset <= length data - offset.
Proof. intros H. rewrite chunkSize_at_eq. pose proof MAX_CHUNK_SIZE_pos. lia. Qed.

Lemma splitIntoChunks_from_concat data k : ∀ offset,
  length data - offset <= k →
  concat (splitIntoChunks_from data offset []) = drop offset data.
Proof.
  induction k as [|k IH]; intros offset Hk.
  - rewrite splitIntoChunks_from_done by lia. rewrite drop_ge by lia. reflexivity.
  - destruct (decide (offset < length data)) as [Hlt|Hge].
    + pose proof (chunkSize_at_progress data offset Hlt) as Hprog.
      rewrite splitIntoChunks_from_step by exact Hlt. simpl.
      rewrite IH by lia. rewrite <- drop_drop. apply take_drop.
    + rewrite splitIntoChunks_from_done by lia. rewrite drop_ge by lia. reflexivity.
Qed.

(** The [i]-th chunk is the slice of the data from [offset + i * 4096]. *)
Lemma splitIntoChunks_from_lookup data k : ∀ offset i,
  length data - offset <= k →
  splitIntoChunks_from data offset [] !! i
  = if decide (offset + i * MAX_CHUNK_SIZE < length data)
    then Some (take MAX_CHUNK_SIZE (drop (offset + i * MAX_CHUNK_SIZE) data))
    else None.
Proof.
  induction k as [|k IH]; intros offset i Hk.
  - rewrite splitIntoChunks_from_done by lia.
    destruct (decide (_ < _)); [lia | reflexivity].
  - destruct (decide (offset < length data)) as [Hlt|Hge].
    + pose proof (chunkSize_at_progress data offset Hlt) as Hprog.
      pose proof (chunkSize_at_bounds data offset Hlt) as (Hpos & Hmax & Hrem).
      rewrite splitIntoChunks_from_step by exact Hlt.
      destruct i as [|j]; [simpl | change ((?c :: ?l) !! S j) with (l !! j)].
      * rewrite Nat.add_0_r. destruct (decide (offset < length data)); [|lia].
        f_equal. rewrite chunkSize_at_eq.
        destruct (decide (MAX_CHUNK_SIZE <= length data - offset)).
        -- rewrite Nat.min_l by lia. reflexivity.
        -- rewrite Nat.min_r by lia.
           rewrite !take_ge by (rewrite length_drop; lia). reflexivity.
      * rewrite IH by lia. rewrite chunkSize_at_eq.
        destruct (decide (MAX_CHUNK_SIZE <= length data - offset)).
        -- rewrite Nat.min_l by lia.
           replace (offset + MAX_CHUNK_SIZE + j * MAX_CHUNK_SIZE)
             with (offset + S j * MAX_CHUNK_SIZE) by lia.
           reflexivity.
        -- rewrite Nat.min_r by lia.
           destruct (decide (_ < _)); [unfold MAX_CHUNK_SIZE in *; lia|].
           destruct (decide (_ < _)); [unfold MAX_CHUNK_SIZE in *; lia|]. reflexivity.
    + rewrite splitIntoChunks_from_done by lia.
      destruct (decide (_ < _)); [lia | reflexivity].
Qed.

Lemma splitIntoChunks_lookup (data : bytes) (i : nat) :
  splitIntoChunks data !! i
  = if decide (i * 4096 < length data)
    then Some (take 4096 (drop (i * 4096) data))
    else None.
Proof.
  unfold splitIntoChunks.
  rewrite (splitIntoChunks_from_lookup data (length data)) by lia. reflexivity.
Qed.

(** X26. [splitIntoChunks] cuts the data into consecutive slices of 4096 bytes:
    chunk [i] is [data.slice(4096 i, 4096 (i + 1))] for every [i] with
    4096 i < data.length, and there is no other chunk. *)
Theorem splitIntoChunks_slices (data : bytes) (i : nat) :
  (i * 4096 < length data →
     splitIntoChunks data !! i = Some (take 4096 (drop (i * 4096) data))) ∧
  (length data <= i * 4096 → splitIntoChunks data !! i = None).
Proof.
  split; intros Hi; rewrite splitIntoChunks_lookup;
    destruct (decide (i * 4096 < length data)); first [reflexivity | exfalso; lia].
Qed.

Lemma splitIntoChunks_slices_witness :
  splitIntoChunks (replicate 5000 Byte.x2a) !! 1 = Some (replicate 904 Byte.x2a).
Proof.
  destruct (splitIntoChunks_slices (replicate 5000 Byte.x2a) 1) as [H _].
  rewrite H.
  - vm_compute. reflexivity.
  - vm_compute. lia.
Defined.

Lemma splitIntoChunks_length (data : bytes) :
  length (splitIntoChunks data) = (length data + 4095) / 4096.
Proof.
  set (n := (length data + 4095) / 4096).
  assert (Hn : n * 4096 < length data + 4096 ∧ length data <= n * 4096).
  { unfold n. pose proof (Nat.div_mod_eq (length data + 4095) 4096) as Hd.
    pose proof (Nat.mod_upper_bound (length data + 4095) 4096 ltac:(lia)) as Hm.
    lia. }
  clearbody n.
  destruct (Nat.lt_trichotomy (length (splitIntoChunks data)) n) as [Hlt|[Heq|Hgt]];
    [|exact Heq|].
  - exfalso. pose proof (splitIntoChunks_lookup data (length (splitIntoChunks data))) as Hs.
    rewrite lookup_ge_None_2 in Hs by apply Nat.le_refl.
    destruct (decide (_ < _)); [discriminate|]. unfold bytes in *. lia.
  - exfalso. pose proof (splitIntoChunks_lookup data n) as Hs.
    destruct (decide (n * 4096 < length data)); [lia|].
    apply lookup_ge_None_1 in Hs. unfold bytes in *. lia.
Qed.

Lemma splitIntoChunks_concat (data : bytes) : concat (splitIntoChunks data) = data.
Proof.
  unfold splitIntoChunks.
  rewrite (splitIntoChunks_from_concat data (length data)) by lia. reflexivity.
Qed.

Lemma splitIntoChunks_chunk (data : bytes) i c :
  splitIntoChunks data !! i = Some c →
  i * 4096 < length data ∧ length c = Nat.min 4096 (length data - i * 4096).
Proof.
  rewrite splitIntoChunks_lookup.
  destruct (decide (i * 4096 < length data)); [|discriminate].
  intros [= <-]. split; [assumption|]. rewrite length_take, length_drop. reflexivity.
Qed.

Lemma splitIntoChunks_sizes (data : bytes) :
  Forall (λ c, 0 < length c <= 4096) (splitIntoChunks data).
Proof.
  apply Forall_lookup. intros i c Hc. apply splitIntoChunks_chunk in Hc as [Hi ->]. lia.
Qed.

Lemma splitIntoChunks_nil (data : bytes) : splitIntoChunks data = [] ↔ data = [].
Proof.
  split.
  - intros He. pose proof (splitIntoChunks_concat data) as Hc. rewrite He in Hc.
    simpl in Hc. congruence.
  - intros ->. reflexivity.
Qed.

(** X27. Splitting loses nothing and respects the chunk size: the chunks put
    together are the data, no chunk is empty or longer than 4096 bytes, every
    chunk but the last is exactly 4096 bytes long, there are
    ceil(length / 4096) of them, and empty data gives no chunk at all. *)
Theorem splitIntoChunks_roundtrip (data : bytes) :
  concat (splitIntoChunks data) = data ∧
  Forall (λ c, 0 < length c <= 4096) (splitIntoChunks data) ∧
  (∀ i c, splitIntoChunks data !! i = Some c → S i < length (splitIntoChunks data) →
          length c = 4096) ∧
  length (splitIntoChunks data) = (length data + 4095) / 4096 ∧
  (splitIntoChunks data = [] ↔ data = []).
Proof.
  split; [apply splitIntoChunks_concat|]. split; [apply splitIntoChunks_sizes|].
  split; [|split; [apply splitIntoChunks_length | apply splitIntoChunks_nil]].
  intros i c Hc Hnext. apply splitIntoChunks_chunk in Hc as [Hi ->].
  destruct (lookup_lt_is_Some_2 (splitIntoChunks data) (S i) Hnext) as [c' Hc'].
  apply splitIntoChunks_chunk in Hc' as [Hi' _]. lia.
Qed.

Lemma splitIntoChunks_roundtrip_witness :
  length (splitIntoChunks (replicate 5000 Byte.x2a)) = 2 ∧
  (∀ c, splitIntoChunks (replicate 5000 Byte.x2a) !! 0 = Some c → length c = 4096).
Proof.
  destruct (splitIntoChunks_roundtrip (replicate 5000 Byte.x2a)) as (_ & _ & Hfull & Hlen & _).
  assert (Hn : length (splitIntoChunks (replicate 5000 Byte.x2a)) = 2).
  { rewrite Hlen, length_replicate. reflexivity. }
  split; [exact Hn|].
  intros c Hc. apply (Hfull 0 c Hc). rewrite Hn. lia.
Defined.

(** A chunk is not split again. *)
Lemma splitIntoChunks_small (c : bytes) :
  0 < length c <= 4096 → splitIntoChunks c = [c].
Proof.
  intros Hc. apply list_eq. intros i. rewrite splitIntoChunks_lookup.
  destruct i as [|i]; simpl.
  - destruct (decide (0 < length c)); [|lia]. rewrite drop_0, take_ge by lia. reflexivity.
  - destruct (decide (_ < _)); [lia | reflexivity].
Qed.

(** Appending a list of chunks submits one append per chunk. *)
Lemma appendToFile_chunks (rest : list bytes) :
  Forall (λ c, 0 < length c <= 4096) rest →
  concat (appendToFile <$> rest) = FileAppend <$> rest.
Proof.
  intros H. induction H as [|c r Hc Hr IH]; [reflexivity|].
  rewrite !fmap_cons. change (concat (?x :: ?l)) with (x ++ concat l).
  rewrite IH. unfold appendToFile. rewrite (splitIntoChunks_small c Hc). reflexivity.
Qed.

Lemma stored_appends (file : option bytes) (chunks : list bytes) :
  fold_left (λ file tx,
               match tx with
               | FileCreate c => Some c
               | FileAppend c => (λ old, old ++ c) <$> file
               end) (FileAppend <$> chunks) file
  = (λ old, old ++ concat chunks) <$> file.
Proof.
  revert file. induction chunks as [|c rest IH]; intros file; simpl.
  - destruct file; simpl; [rewrite app_nil_r|]; reflexivity.
  - rewrite IH. destruct file; simpl; [rewrite app_assoc|]; reflexivity.
Qed.

(** X28. [appendToFile] extends a file by exactly the contents it is given,
    whatever their length: one append per chunk, ceil(length / 4096) in all,
    none carrying more than 4096 bytes; empty contents submit nothing. *)
Theorem appendToFile_appends_contents (txs : list transaction) (old contents : bytes) :
  stored txs = Some old →
  stored (txs ++ appendToFile contents) = Some (old ++ contents) ∧
  length (appendToFile contents) = (length contents + 4095) / 4096 ∧
  Forall (λ tx, 0 < payload tx <= 4096) (appendToFile contents).
Proof.
  intros Hold.
  pose proof (splitIntoChunks_concat contents) as Hconcat.
  pose proof (splitIntoChunks_sizes contents) as Hall.
  pose proof (splitIntoChunks_length contents) as Hlen.
  unfold appendToFile. split; [|split].
  - unfold stored in *. rewrite fold_left_app, Hold, stored_appends, Hconcat. reflexivity.
  - rewrite length_fmap. exact Hlen.
  - apply Forall_fmap. eapply Forall_impl; [exact Hall|]. intros c Hc. exact Hc.
Qed.

Lemma appendToFile_appends_contents_witness :
  stored ([FileCreate [Byte.x01]] ++ appendToFile (replicate 5000 Byte.x2a))
  = Some ([Byte.x01] ++ replicate 5000 Byte.x2a).
Proof.
  apply (appendToFile_appends_contents [FileCreate [Byte.x01]] [Byte.x01]).
  reflexivity.
Defined.

(** X29. [createFile] stores the contents it is given: for non-empty contents
    it submits one create with the first chunk followed by one append per
    further chunk (a chunk is never split again), ceil(length / 4096)
    transactions in all, none carrying more than 4096 bytes, and the file then
    holds exactly the contents. It throws, submitting nothing, exactly when
    the contents are empty. *)
Theorem createFile_stores_contents (contents : bytes) :
  (contents ≠ [] →
     ∃ first rest,
       createFile contents = Some (FileCreate first :: (FileAppend <$> rest)) ∧
       first :: rest = splitIntoChunks contents ∧
       stored (FileCreate first :: (FileAppend <$> rest)) = Some contents ∧
       length (FileCreate first :: (FileAppend <$> rest)) = (length contents + 4095) / 4096 ∧
       Forall (λ tx, 0 < payload tx <= 4096) (FileCreate first :: (FileAppend <$> rest))) ∧
  (createFile contents = None ↔ contents = []).
Proof.
  pose proof (splitIntoChunks_concat contents) as Hconcat.
  pose proof (splitIntoChunks_sizes contents) as Hall.
  pose proof (splitIntoChunks_length contents) as Hlen.
  pose proof (splitIntoChunks_nil contents) as Hnil.
  unfold createFile.
  destruct (splitIntoChunks contents) as [|c0 rest] eqn:Hs.
  - split; [intros Hne; exfalso; apply Hne, Hnil; reflexivity|].
    split; [intros _; apply Hnil; reflexivity | reflexivity].
  - split; [|split; [discriminate | intros He; apply Hnil in He; discriminate He]].
    intros _. simpl. rewrite drop_0.
    apply Forall_cons in Hall as [Hc0 Hrest].
    rewrite (appendToFile_chunks rest Hrest).
    exists c0, rest. split; [reflexivity|]. split; [reflexivity|]. split; [|split].
    + unfold stored. simpl. rewrite stored_appends. simpl.
      simpl in Hconcat. rewrite Hconcat. reflexivity.
    + simpl. rewrite length_fmap. simpl in Hlen. exact Hlen.
    + apply Forall_cons. split; [exact Hc0|].
      apply Forall_fmap. eapply Forall_impl; [exact Hrest|]. intros c Hc. exact Hc.
Qed.

Lemma createFile_stores_contents_witness :
  ∃ txs, createFile (replicate 5000 Byte.x2a) = Some txs ∧
    stored txs = Some (replicate 5000 Byte.x2a) ∧ length txs = 2.
Proof.
  destruct (createFile_stores_contents (replicate 5000 Byte.x2a)) as [H _].
  destruct H as (first & rest & Hc & _ & Hs & Hl & _).
  - intros E. apply (f_equal length) in E. rewrite length_replicate in E. discriminate E.
  - eexists. split; [exact Hc|]. split; [exact Hs|].
    rewrite Hl. rewrite length_replicate. reflexivity.
Defined.

End FileServiceExtras.

(** ** The retry helper *)

Module RetryExtras.
Import Retry.
#[local] Open Scope nat_scope.

Section Loop.
Context {T : Type}.
Variable operation : nat → outcome T.
Variable maxRetries : nat.

Lemma attempts_returns remaining : ∀ attempt lastError k v,
  remaining + attempt = S maxRetries → attempt <= k <= maxRetries →
  retried operation attempt k → operation k = Resolved v →
  attempts operation maxRetries remaining attempt lastError = Returned v k.
Proof.
  induction remaining as [|rest IH]; intros attempt lastError k v Hsum Hk Hretry Hop;
    [lia|].
  simpl. destruct (decide (attempt = k)) as [->|Hne].
  - rewrite Hop. reflexivity.
  - destruct (Hretry attempt) as (e & -> & He); [lia|].
    rewrite He. simpl.
    destruct (Nat.eqb_spec attempt maxRetries) as [->|_]; [lia|].
    apply IH; [lia | lia | | exact Hop].
    intros j Hj. apply Hretry. lia.
Qed.

Lemma attempts_throws remaining : ∀ attempt lastError k e,
  remaining + attempt = S maxRetries → attempt <= k <= maxRetries →
  retried operation attempt k → operation k = Rejected e →
  isRetryable e = false ∨ k = maxRetries →
  attempts operation maxRetries remaining attempt lastError = Thrown (Some e) k.
Proof.
  induction remaining as [|rest IH]; intros attempt lastError k e Hsum Hk Hretry Hop Hstop;
    [lia|].
  simpl. destruct (decide (attempt = k)) as [->|Hne].
  - rewrite Hop. destruct Hstop as [-> | ->]; [reflexivity|].
    rewrite Nat.eqb_refl, orb_true_r. reflexivity.
  - destruct (Hretry attempt) as (e' & -> & He); [lia|].
    rewrite He. simpl.
    destruct (Nat.eqb_spec attempt maxRetries) as [->|_]; [lia|].
    apply (IH _ _ k); [lia | lia | | exact Hop | exact Hstop].
    intros j Hj. apply Hretry. lia.
Qed.

Lemma attempts_bounded remaining : ∀ attempt lastError,
  remaining + attempt = S maxRetries → 1 <= attempt →
  invocations (attempts operation maxRetries remaining attempt lastError) <= maxRetries.
Proof.
  induction remaining as [|rest IH]; intros attempt lastError Hsum Hpos; simpl; [lia|].
  destruct (operation attempt) as [v|e]; simpl; [lia|].
  destruct (negb (isRetryable e) || (attempt =? maxRetries)); simpl; [lia|].
  apply IH; lia.
Qed.

End Loop.

(** X30. [retryOperation] invokes the operation until it succeeds, fails with an
    error that is not retryable, or has been invoked [maxRetries] times:
    it returns the first success reached through retryable failures only,
    throws the first failure that is not retryable, throws the last failure
    when all [maxRetries] attempts failed, and never invokes the operation
    more than [maxRetries] times. With [maxRetries = 0] the operation is not
    invoked and the helper throws [undefined]. *)
Theorem retryOperation_outcomes {T} (operation : nat → outcome T) (maxRetries : nat) :
  (∀ k v, 1 <= k <= maxRetries → retried operation 1 k → operation k = Resolved v →
     retryOperation operation maxRetries = Returned v k) ∧
  (∀ k e, 1 <= k <= maxRetries → retried operation 1 k → operation k = Rejected e →
     isRetryable e = false →
     retryOperation operation maxRetries = Thrown (Some e) k) ∧
  (∀ e, 1 <= maxRetries → retried operation 1 maxRetries →
     operation maxRetries = Rejected e →
     retryOperation operation maxRetries = Thrown (Some e) maxRetries) ∧
  invocations (retryOperation operation maxRetries) <= maxRetries ∧
  (maxRetries = 0 → retryOperation operation maxRetries = Thrown None 0).
Proof.
  unfold retryOperation. split; [|split; [|split; [|split]]].
  - intros k v Hk Hr Hop. apply attempts_returns; [lia | exact Hk | exact Hr | exact Hop].
  - intros k e Hk Hr Hop He.
    apply attempts_throws; [lia | exact Hk | exact Hr | exact Hop | left; exact He].
  - intros e Hk Hr Hop.
    apply attempts_throws; [lia | lia | exact Hr | exact Hop | right; reflexivity].
  - apply attempts_bounded; lia.
  - intros ->. reflexivity.
Qed.

Lemma retryOperation_outcomes_witness :
  retryOperation flaky 3 = Returned 3 3 ∧ retryOperation flaky 2 = Thrown (Some unavailable) 2.
Proof.
  assert (Hretried : ∀ k, k <= 3 → retried flaky 1 k).
  { intros k Hk j Hj. exists unavailable.
    assert (Hj' : j = 1 ∨ j = 2) by lia.
    destruct Hj' as [-> | ->]; split; vm_compute; reflexivity. }
  split.
  - destruct (retryOperation_outcomes flaky 3) as (H & _).
    apply H; [lia | apply Hretried; lia | reflexivity].
  - destruct (retryOperation_outcomes flaky 2) as (_ & _ & H & _).
    apply H; [lia | apply Hretried; lia | reflexivity].
Defined.

End RetryExtras.
